(** * gitignore-go: rule compilation and path matching

    A shallow embedding of [pattern.Parse] (internal/pattern) and of
    [gitignore.NewFromLines] / [File.Match], together with the parts of the
    Go standard library they call: [strings], [unicode/utf8], [bufio.Scanner]
    and [regexp].

    Go strings are byte sequences: they are modelled by [string], whose
    characters ([ascii]) are the bytes.  Runes are integers ([Z]). *)

From Stdlib Require Import ZArith Lia Bool List Ascii String.
From Stdlib Require Import Permutation.
Import ListNotations.

Local Open Scope string_scope.
Local Open Scope list_scope.

(** ** Package [strings] *)

Module strings.

(** [s[n:]] *)
Fixpoint drop (n : nat) (s : string) : string :=
  match n, s with
  | O, _ => s
  | S _, EmptyString => EmptyString
  | S n', String _ s' => drop n' s'
  end.

(** [s[:n]] *)
Fixpoint take (n : nat) (s : string) : string :=
  match n, s with
  | O, _ => EmptyString
  | S _, EmptyString => EmptyString
  | S n', String c s' => String c (take n' s')
  end.

Fixpoint rev_append (s acc : string) : string :=
  match s with
  | EmptyString => acc
  | String c s' => rev_append s' (String c acc)
  end.

Definition rev (s : string) : string := rev_append s EmptyString.

Definition HasPrefix (s prefix : string) : bool := String.prefix prefix s.

Definition HasSuffix (s suffix : string) : bool :=
  String.prefix (rev suffix) (rev s).

Fixpoint contains_byte (cutset : string) (c : ascii) : bool :=
  match cutset with
  | EmptyString => false
  | String d cutset' => Ascii.eqb c d || contains_byte cutset' c
  end.

(** [TrimLeft(s, cutset)] for a cutset of single-byte characters. *)
Fixpoint TrimLeft (s cutset : string) : string :=
  match s with
  | EmptyString => EmptyString
  | String c s' => if contains_byte cutset c then TrimLeft s' cutset else s
  end.

Definition TrimRight (s cutset : string) : string :=
  rev (TrimLeft (rev s) cutset).

Definition Trim (s cutset : string) : string :=
  TrimRight (TrimLeft s cutset) cutset.

(** [ReplaceAll(s, old, new)] for a non-empty [old]: the leftmost
    occurrences of [old], not overlapping, are replaced by [new].  (With an
    empty [old] Go inserts [new] around every rune; no call site of the
    package passes one, and this model then returns [s].) *)
Fixpoint ReplaceAll_from (skip : nat) (s old new : string) : string :=
  match s with
  | EmptyString => EmptyString
  | String c s' =>
      match skip with
      | S k => ReplaceAll_from k s' old new
      | O =>
          if String.prefix old s
          then new ++ ReplaceAll_from (String.length old - 1) s' old new
          else String c (ReplaceAll_from 0 s' old new)
      end
  end.

Definition ReplaceAll (s old new : string) : string :=
  match old with
  | EmptyString => s
  | _ => ReplaceAll_from 0 s old new
  end.

(** [strings.Join]-like concatenation, as done by
    [xstrings.JoinWithSeparator(sep, strs...)]. *)
Fixpoint Join (elems : list string) (sep : string) : string :=
  match elems with
  | [] => EmptyString
  | [x] => x
  | x :: rest => x ++ sep ++ Join rest sep
  end.

End strings.





(** ** Package [xstrings] (xstd-go) *)

Module xstrings.

(** [JoinWithSeparator(sep, strs...)] concatenates [strs], placing [sep]
    between consecutive elements. *)
Definition JoinWithSeparator (sep : string) (strs : list string) : string :=
  strings.Join strs sep.

End xstrings.

(** ** Package [unicode/utf8] *)

Module utf8.

Local Open Scope Z_scope.

Definition RuneError : Z := 0xFFFD.
Definition RuneSelf : Z := 0x80.
Definition MaxRune : Z := 0x10FFFF.

(** The numeric value of a byte of a string. *)
Definition byteZ (c : ascii) : Z := Z.of_N (N_of_ascii c).

Definition maskx : Z := 0x3F.
Definition mask2 : Z := 0x1F.
Definition mask3 : Z := 0x0F.
Definition mask4 : Z := 0x07.
Definition locb : Z := 0x80.
Definition hicb : Z := 0xBF.

(** Entries of the table [first]: the low three bits give the length of the
    sequence a byte starts, the high four bits index [acceptRanges]. *)
Definition xx : Z := 0xF1.
Definition as_ : Z := 0xF0.
Definition s1 : Z := 0x02.
Definition s2 : Z := 0x13.
Definition s3 : Z := 0x03.
Definition s4 : Z := 0x23.
Definition s5 : Z := 0x34.
Definition s6 : Z := 0x04.
Definition s7 : Z := 0x44.

(** The table [first], by ranges of the leading byte. *)
Definition first (b : Z) : Z :=
  if b <? 0x80 then as_
  else if b <? 0xC2 then xx
  else if b <? 0xE0 then s1
  else if b =? 0xE0 then s2
  else if b <? 0xED then s3
  else if b =? 0xED then s4
  else if b <? 0xF0 then s3
  else if b =? 0xF0 then s5
  else if b <? 0xF4 then s6
  else if b =? 0xF4 then s7
  else xx.

(** The table [acceptRanges]: bounds of the second byte. *)
Definition acceptRanges (i : Z) : Z * Z :=
  if i =? 0 then (locb, hicb)
  else if i =? 1 then (0xA0, hicb)
  else if i =? 2 then (locb, 0x9F)
  else if i =? 3 then (0x90, hicb)
  else if i =? 4 then (locb, 0x8F)
  else (0, 0).

(** [DecodeRuneInString(s)]: the first rune of [s] and its width in bytes. *)
Definition DecodeRuneInString (s : string) : Z * nat :=
  match s with
  | EmptyString => (RuneError, 0%nat)
  | String c0 t0 =>
      let n := Z.of_nat (String.length s) in
      let s0 := byteZ c0 in
      let x := first s0 in
      if as_ <=? x then
        (* mask is 0 for [as_] and all ones for [xx] *)
        let mask := - Z.land x 1 in
        (Z.lor (Z.land s0 (Z.lnot mask)) (Z.land RuneError mask), 1%nat)
      else
        let sz := Z.land x 7 in
        let accept := acceptRanges (Z.shiftr x 4) in
        if n <? sz then (RuneError, 1%nat)
        else
          match t0 with
          | EmptyString => (RuneError, 1%nat)
          | String c1 t1 =>
              let b1 := byteZ c1 in
              if (b1 <? fst accept) || (snd accept <? b1) then (RuneError, 1%nat)
              else if sz <=? 2 then
                (Z.lor (Z.shiftl (Z.land s0 mask2) 6) (Z.land b1 maskx), 2%nat)
              else
                match t1 with
                | EmptyString => (RuneError, 1%nat)
                | String c2 t2 =>
                    let b2 := byteZ c2 in
                    if (b2 <? locb) || (hicb <? b2) then (RuneError, 1%nat)
                    else if sz <=? 3 then
                      (Z.lor (Z.lor (Z.shiftl (Z.land s0 mask3) 12)
                                    (Z.shiftl (Z.land b1 maskx) 6))
                             (Z.land b2 maskx), 3%nat)
                    else
                      match t2 with
                      | EmptyString => (RuneError, 1%nat)
                      | String c3 _ =>
                          let b3 := byteZ c3 in
                          if (b3 <? locb) || (hicb <? b3) then (RuneError, 1%nat)
                          else
                            (Z.lor (Z.lor (Z.lor (Z.shiftl (Z.land s0 mask4) 18)
                                                 (Z.shiftl (Z.land b1 maskx) 12))
                                          (Z.shiftl (Z.land b2 maskx) 6))
                                   (Z.land b3 maskx), 4%nat)
                      end
                end
          end
  end.

End utf8.





(** ** Package [regexp/syntax]

    The parser of Go regular expressions under the flags [syntax.Perl]
    (what [regexp.Compile] uses): one-line mode, [.] excludes the line feed,
    negated classes include it.  The model covers literals, [.], [^], [$],
    capturing groups, alternation, the operators [*], [+], [?] (with their
    non-greedy forms), bracket classes with ranges, and the single-character
    escapes.  Syntax that Go accepts and this model leaves out (counted
    repetition, [(?...)] groups and flags, [\b], [\Q..\E], [\d]-style and
    Unicode and POSIX classes, octal and hexadecimal escapes) yields
    [Unmodelled], never a regular expression or an error.  Go's limits on
    nesting depth and program size are not reproduced.

    The parser's rewritings that do not change the language (merging of
    literals, factoring of alternations, sorting of class ranges) are left
    out, and concatenations and alternations are nested to the right. *)

Module syntax.

Local Open Scope Z_scope.

Inductive ErrorCode : Type :=
| ErrInvalidCharRange
| ErrInvalidEscape
| ErrInvalidRepeatOp
| ErrInvalidUTF8
| ErrMissingBracket
| ErrMissingParen
| ErrMissingRepeatArgument
| ErrTrailingBackslash
| ErrUnexpectedParen.

Inductive Regexp : Type :=
| EmptyMatch
| NoMatch
| Literal (r : Z)
| CharClass (negated : bool) (ranges : list (Z * Z))
| AnyCharNotNL
| BeginText
| EndText
| Capture (sub : Regexp)
| Star (sub : Regexp)
| Plus (sub : Regexp)
| Quest (sub : Regexp)
| Concat (a b : Regexp)
| Alternate (a b : Regexp).

(** Result of a parsing step. *)
Inductive outcome (A : Type) : Type :=
| Ok (a : A)
| Error (code : ErrorCode)
| Unmodelled.

Arguments Ok {A} a.
Arguments Error {A} code.
Arguments Unmodelled {A}.

Definition bind {A B : Type} (x : outcome A) (f : A -> outcome B) : outcome B :=
  match x with
  | Ok a => f a
  | Error code => Error code
  | Unmodelled => Unmodelled
  end.

Notation "'let*' x ':=' e 'in' k" := (bind e (fun x => k))
  (at level 10, x pattern, e at level 200, k at level 200, only parsing).

(** The parser's stack: regular expressions and the pseudo-operators left
    parenthesis and vertical bar.  The head of the list is the top. *)
Inductive item : Type :=
| Node (re : Regexp)
| LeftParen
| VerticalBar.

Definition stack : Type := list item.

(** Byte constants of the switch in [parse]. *)
Definition chr (c : ascii) : Z := utf8.byteZ c.

Definition isalnum (c : Z) : bool :=
  ((chr "0" <=? c) && (c <=? chr "9")) ||
  ((chr "A" <=? c) && (c <=? chr "Z")) ||
  ((chr "a" <=? c) && (c <=? chr "z")).

(** [nextRune(s)] *)
Definition nextRune (s : string) : outcome (Z * string) :=
  let (c, size) := utf8.DecodeRuneInString s in
  if (c =? utf8.RuneError) && Nat.eqb size 1 then Error ErrInvalidUTF8
  else Ok (c, strings.drop size s).

(** Pops the regular expressions above the topmost pseudo-operator; they
    are returned bottom first. *)
Fixpoint popNodes (st : stack) (acc : list Regexp) : list Regexp * stack :=
  match st with
  | Node re :: st' => popNodes st' (re :: acc)
  | _ => (acc, st)
  end.

Fixpoint collapseConcat (subs : list Regexp) : Regexp :=
  match subs with
  | [] => EmptyMatch
  | [re] => re
  | re :: subs' => Concat re (collapseConcat subs')
  end.

Fixpoint collapseAlternate (subs : list Regexp) : Regexp :=
  match subs with
  | [] => NoMatch
  | [re] => re
  | re :: subs' => Alternate re (collapseAlternate subs')
  end.

(** [p.concat()] *)
Definition concat (st : stack) : stack :=
  let (subs, st') := popNodes st [] in
  Node (collapseConcat subs) :: st'.

(** [p.alternate()] *)
Definition alternate (st : stack) : stack :=
  let (subs, st') := popNodes st [] in
  Node (collapseAlternate subs) :: st'.

(** [p.swapVerticalBar()]: [Some] is the stack after a swap ([true]),
    [None] stands for [false]. *)
Definition swapVerticalBar (st : stack) : option stack :=
  match st with
  | re1 :: VerticalBar :: st' => Some (VerticalBar :: re1 :: st')
  | _ => None
  end.

(** [p.parseVerticalBar()] *)
Definition parseVerticalBar (st : stack) : stack :=
  let st := concat st in
  match swapVerticalBar st with
  | Some st' => st'
  | None => VerticalBar :: st
  end.

(** The common end of a group and of the whole expression: concatenate,
    drop a pending vertical bar, alternate. *)
Definition closeAlternation (st : stack) : stack :=
  let st := concat st in
  let st := match swapVerticalBar st with
            | Some st' => List.tl st'
            | None => st
            end in
  alternate st.

(** [p.parseRightParen()] *)
Definition parseRightParen (st : stack) : outcome stack :=
  match closeAlternation st with
  | Node re1 :: LeftParen :: st' => Ok (Node (Capture re1) :: st')
  | _ => Error ErrUnexpectedParen
  end.

Inductive RepeatOp : Type := OpStar | OpPlus | OpQuest.

Definition applyRepeat (op : RepeatOp) (sub : Regexp) : Regexp :=
  match op with
  | OpStar => Star sub
  | OpPlus => Plus sub
  | OpQuest => Quest sub
  end.

(** [p.repeat(op, ..., after, lastRepeat)]: [after] is the text that follows
    the operator. *)
Definition repeat (op : RepeatOp) (st : stack) (after : string)
    (lastRepeat : bool) : outcome (stack * string) :=
  let after := if strings.HasPrefix after "?" then strings.drop 1 after
               else after in
  if lastRepeat then Error ErrInvalidRepeatOp
  else
    match st with
    | Node sub :: st' => Ok (Node (applyRepeat op sub) :: st', after)
    | _ => Error ErrMissingRepeatArgument
    end.

(** [p.parseEscape(s)], where [s] begins with a backslash. *)
Definition parseEscape (s : string) : outcome (Z * string) :=
  let t := strings.drop 1 s in
  match t with
  | EmptyString => Error ErrTrailingBackslash
  | _ =>
      let* (c, t) := nextRune t in
      if (chr "0" <=? c) && (c <=? chr "7") then Unmodelled
      else if c =? chr "x" then Unmodelled
      else if c =? chr "a" then Ok (7, t)
      else if c =? chr "f" then Ok (12, t)
      else if c =? chr "n" then Ok (10, t)
      else if c =? chr "r" then Ok (13, t)
      else if c =? chr "t" then Ok (9, t)
      else if c =? chr "v" then Ok (11, t)
      else if (c <? utf8.RuneSelf) && negb (isalnum c) then Ok (c, t)
      else Error ErrInvalidEscape
  end.

(** Second byte of the escapes that introduce a class ([\d], [\pL], ...). *)
Definition isClassEscape (c : ascii) : bool :=
  strings.contains_byte "pPdDsSwW" c.

(** [p.parseClassChar(s, wholeClass)] *)
Definition parseClassChar (s : string) : outcome (Z * string) :=
  match s with
  | EmptyString => Error ErrMissingBracket
  | String c _ => if Ascii.eqb c "\" then parseEscape s else nextRune s
  end.

(** The loop of [p.parseClass]: [t] is the text inside the brackets that
    remains, [class] the ranges collected so far. *)
Fixpoint parseClassLoop (fuel : nat) (t : string) (class : list (Z * Z))
    (first : bool) : outcome (list (Z * Z) * string) :=
  match fuel with
  | O => Unmodelled
  | S fuel' =>
      if strings.HasPrefix t "]" && negb first then Ok (class, strings.drop 1 t)
      else if strings.HasPrefix t "[:" && (2 <? String.length t)%nat then Unmodelled
      else
        match t with
        | String "\" (String c _) =>
            if isClassEscape c then Unmodelled else
            parseClassItem fuel' t class
        | _ => parseClassItem fuel' t class
        end
  end
with parseClassItem (fuel : nat) (t : string) (class : list (Z * Z))
    : outcome (list (Z * Z) * string) :=
  match fuel with
  | O => Unmodelled
  | S fuel' =>
      let* (lo, t) := parseClassChar t in
      match t with
      | String "-" (String c t') =>
          if Ascii.eqb c "]" then parseClassLoop fuel' t (class ++ [(lo, lo)]) false
          else
            let* (hi, t) := parseClassChar (String c t') in
            if hi <? lo then Error ErrInvalidCharRange
            else parseClassLoop fuel' t (class ++ [(lo, hi)]) false
      | _ => parseClassLoop fuel' t (class ++ [(lo, lo)]) false
      end
  end.

(** [p.parseClass(s)], where [s] begins with a left bracket. *)
Definition parseClass (st : stack) (s : string) : outcome (stack * string) :=
  let t := strings.drop 1 s in
  let negated := strings.HasPrefix t "^" in
  let t := if negated then strings.drop 1 t else t in
  let* (class, t) := parseClassLoop (2 * String.length t + 2) t [] true in
  Ok (Node (CharClass negated class) :: st, t).

(** The loop of [parse]: [t] is the text that remains. *)
Fixpoint parseLoop (fuel : nat) (st : stack) (lastRepeat : bool) (t : string)
    : outcome Regexp :=
  match fuel with
  | O => Unmodelled
  | S fuel' =>
      match t with
      | EmptyString =>
          match closeAlternation st with
          | [Node re] => Ok re
          | _ => Error ErrMissingParen
          end
      | String c t' =>
          if Ascii.eqb c "(" then
            if strings.HasPrefix t' "?" then Unmodelled
            else parseLoop fuel' (LeftParen :: st) false t'
          else if Ascii.eqb c "|" then
            parseLoop fuel' (parseVerticalBar st) false t'
          else if Ascii.eqb c ")" then
            let* st := parseRightParen st in
            parseLoop fuel' st false t'
          else if Ascii.eqb c "^" then
            parseLoop fuel' (Node BeginText :: st) false t'
          else if Ascii.eqb c "$" then
            parseLoop fuel' (Node EndText :: st) false t'
          else if Ascii.eqb c "." then
            parseLoop fuel' (Node AnyCharNotNL :: st) false t'
          else if Ascii.eqb c "[" then
            let* (st, t) := parseClass st t in
            parseLoop fuel' st false t
          else if Ascii.eqb c "*" then
            let* (st, t) := repeat OpStar st t' lastRepeat in
            parseLoop fuel' st true t
          else if Ascii.eqb c "+" then
            let* (st, t) := repeat OpPlus st t' lastRepeat in
            parseLoop fuel' st true t
          else if Ascii.eqb c "?" then
            let* (st, t) := repeat OpQuest st t' lastRepeat in
            parseLoop fuel' st true t
          else if Ascii.eqb c "{" then Unmodelled
          else if Ascii.eqb c "\" then
            match t' with
            | String c1 t'' =>
                if Ascii.eqb c1 "A" then
                  parseLoop fuel' (Node BeginText :: st) false t''
                else if Ascii.eqb c1 "z" then
                  parseLoop fuel' (Node EndText :: st) false t''
                else if Ascii.eqb c1 "C" then Error ErrInvalidEscape
                else if strings.contains_byte "bBQ" c1 || isClassEscape c1
                then Unmodelled
                else
                  let* (r, t) := parseEscape t in
                  parseLoop fuel' (Node (Literal r) :: st) false t
            | EmptyString =>
                let* (r, t) := parseEscape t in
                parseLoop fuel' (Node (Literal r) :: st) false t
            end
          else
            let* (r, t) := nextRune t in
            parseLoop fuel' (Node (Literal r) :: st) false t
      end
  end.

(** [syntax.Parse(s, syntax.Perl)] *)
Definition Parse (s : string) : outcome Regexp :=
  parseLoop (String.length s + 1) [] false s.

End syntax.

(** ** Package [regexp] *)

Module regexp.

Import syntax.
Local Open Scope Z_scope.

(** The runes that [inputString.step] yields when the text is read from
    the first byte to the last; an invalid byte reads as [RuneError]. *)
Definition step (s : string) : Z * nat :=
  match s with
  | EmptyString => (-1, 0%nat)
  | String c _ =>
      if utf8.byteZ c <? utf8.RuneSelf then (utf8.byteZ c, 1%nat)
      else utf8.DecodeRuneInString s
  end.

Fixpoint runes_fuel (fuel : nat) (s : string) : list Z :=
  match fuel with
  | O => []
  | S fuel' =>
      match s with
      | EmptyString => []
      | _ => let (r, w) := step s in r :: runes_fuel fuel' (strings.drop w s)
      end
  end.

Definition runes (s : string) : list Z := runes_fuel (String.length s) s.

(** Membership of a rune in a bracket class. *)
Definition inRange (r : Z) (range : Z * Z) : bool :=
  (fst range <=? r) && (r <=? snd range).

Definition inClass (negated : bool) (ranges : list (Z * Z)) (r : Z) : bool :=
  xorb negated (existsb (inRange r) ranges).

(** Backtracking matcher in continuation-passing style.  [atStart] tells
    whether the position is the beginning of the text, [s] is the text from
    the position to its end; the continuation receives the same for the
    position after the match.  An iteration of a repetition that consumes
    nothing is not retried. *)
Section Matcher.

Variable k : bool -> list Z -> bool.

Definition matchOne (p : Z -> bool) (s : list Z) : bool :=
  match s with
  | x :: s' => p x && k false s'
  | [] => false
  end.

(** Zero or more matches of [sub], the longest first; [n] bounds the number
    of iterations by the length of the text. *)
Fixpoint starLoop (sub : bool -> list Z -> (bool -> list Z -> bool) -> bool)
    (n : nat) (atStart : bool) (s : list Z) {struct n} : bool :=
  match n with
  | O => k atStart s
  | S n' =>
      sub atStart s
        (fun atStart' s' =>
           (List.length s' <? List.length s)%nat && starLoop sub n' atStart' s')
      || k atStart s
  end.

End Matcher.

Fixpoint matchHere (re : Regexp) (atStart : bool) (s : list Z)
    (k : bool -> list Z -> bool) {struct re} : bool :=
  match re with
  | EmptyMatch => k atStart s
  | NoMatch => false
  | Literal r => matchOne k (Z.eqb r) s
  | CharClass negated ranges => matchOne k (inClass negated ranges) s
  | AnyCharNotNL => matchOne k (fun x => negb (x =? 10)) s
  | BeginText => atStart && k atStart s
  | EndText => match s with [] => k atStart s | _ :: _ => false end
  | Capture sub => matchHere sub atStart s k
  | Concat a b => matchHere a atStart s (fun atStart' s' => matchHere b atStart' s' k)
  | Alternate a b => matchHere a atStart s k || matchHere b atStart s k
  | Quest sub => matchHere sub atStart s k || k atStart s
  | Star sub => starLoop k (matchHere sub) (List.length s) atStart s
  | Plus sub =>
      matchHere sub atStart s
        (fun atStart' s' => starLoop k (matchHere sub) (List.length s') atStart' s')
  end.

(** A match may begin at any position of the text. *)
Fixpoint search (re : Regexp) (atStart : bool) (s : list Z) : bool :=
  matchHere re atStart s (fun _ _ => true)
  || match s with
     | [] => false
     | _ :: s' => search re false s'
     end.

(** [regexp.Compile(expr)] *)
Definition Compile (expr : string) : outcome Regexp := syntax.Parse expr.

(** [regexp.MustCompile(str)]; the expressions the package passes to it are
    constants that compile, so the panic is never reached ([NoMatch] stands
    in its place). *)
Definition MustCompile (str : string) : Regexp :=
  match Compile str with
  | Ok re => re
  | _ => NoMatch
  end.

(** [re.MatchString(s)] *)
Definition MatchString (re : Regexp) (s : string) : bool :=
  search re true (runes s).

(** The text of an expression made of single-byte literals only. *)
Fixpoint literalText (re : Regexp) : option string :=
  match re with
  | Literal r =>
      if (0 <=? r) && (r <? utf8.RuneSelf)
      then Some (String (ascii_of_N (Z.to_N r)) EmptyString)
      else None
  | Concat a b =>
      match literalText a, literalText b with
      | Some x, Some y => Some (String.append x y)
      | _, _ => None
      end
  | _ => None
  end.

(** [re.ReplaceAllString(src, repl)] for an expression that is a literal
    text and a template [repl] without a capture reference: the matches are
    then the leftmost occurrences of the text, not overlapping, and the
    template is copied as it is.  (In [Parse] every expression passed is an
    escaped literal, and the only dollar sign of the templates is followed
    by a tilde, which cannot begin a capture name.)  For other expressions
    the model returns [src]. *)
Definition ReplaceAllString (re : Regexp) (src repl : string) : string :=
  match literalText re with
  | Some text => strings.ReplaceAll src text repl
  | None => src
  end.

End regexp.

(** ** The language of a regular expression

    [Matches re atStart w rest]: [re] matches the word [w] when [w] is
    followed by [rest] up to the end of the text, [atStart] telling whether
    [w] begins at the beginning of the text. *)

Module Language.

Import syntax.

Definition isNil {A : Type} (l : list A) : bool :=
  match l with
  | [] => true
  | _ :: _ => false
  end.

Inductive Matches : Regexp -> bool -> list Z -> list Z -> Prop :=
| MEmpty b rest : Matches EmptyMatch b [] rest
| MLiteral r b rest : Matches (Literal r) b [r] rest
| MClass negated ranges x b rest :
    regexp.inClass negated ranges x = true ->
    Matches (CharClass negated ranges) b [x] rest
| MAny x b rest : x <> 10%Z -> Matches AnyCharNotNL b [x] rest
| MBegin rest : Matches BeginText true [] rest
| MEnd b : Matches EndText b [] []
| MCapture sub b w rest :
    Matches sub b w rest -> Matches (Capture sub) b w rest
| MConcat re1 re2 b w1 w2 rest :
    Matches re1 b w1 (w2 ++ rest) ->
    Matches re2 (b && isNil w1) w2 rest ->
    Matches (Concat re1 re2) b (w1 ++ w2) rest
| MAlternateL re1 re2 b w rest :
    Matches re1 b w rest -> Matches (Alternate re1 re2) b w rest
| MAlternateR re1 re2 b w rest :
    Matches re2 b w rest -> Matches (Alternate re1 re2) b w rest
| MQuestOne sub b w rest :
    Matches sub b w rest -> Matches (Quest sub) b w rest
| MQuestNone sub b rest : Matches (Quest sub) b [] rest
| MStarNone sub b rest : Matches (Star sub) b [] rest
| MStarMore sub b w1 w2 rest :
    Matches sub b w1 (w2 ++ rest) ->
    Matches (Star sub) (b && isNil w1) w2 rest ->
    Matches (Star sub) b (w1 ++ w2) rest
| MPlus sub b w1 w2 rest :
    Matches sub b w1 (w2 ++ rest) ->
    Matches (Star sub) (b && isNil w1) w2 rest ->
    Matches (Plus sub) b (w1 ++ w2) rest.

(** Some part of the text [s] is matched by [re]. *)
Definition Found (re : Regexp) (s : list Z) : Prop :=
  exists before w rest,
    s = before ++ w ++ rest /\ Matches re (isNil before) w rest.

(** A matching function finds only words of the language, and all of
    them. *)
Definition SoundAt (re : Regexp)
    (m : bool -> list Z -> (bool -> list Z -> bool) -> bool) : Prop :=
  forall b s k, m b s k = true ->
    exists w rest, s = w ++ rest /\ Matches re b w rest /\
                   k (b && isNil w) rest = true.

Definition CompleteAt (re : Regexp)
    (m : bool -> list Z -> (bool -> list Z -> bool) -> bool) : Prop :=
  forall b w rest k, Matches re b w rest -> k (b && isNil w) rest = true ->
    m b (w ++ rest) k = true.

End Language.

(** ** Package [bufio]: a [Scanner] with the split function [ScanLines]
    reading from a [strings.Reader] *)

Module bufio.

Definition MaxScanTokenSize : Z := 64 * 1024.

Inductive ScanError : Type := ErrTooLong.

Definition LF : ascii := ascii_of_nat 10.
Definition CR : ascii := ascii_of_nat 13.

(** [dropCR(data)] *)
Definition dropCR (data : string) : string :=
  if strings.HasSuffix data (String CR EmptyString)
  then strings.take (String.length data - 1) data
  else data.

(** The text between line feeds; a final line needs no line feed, and an
    empty text has no line. *)
Fixpoint rawLines (s : string) : list string :=
  match s with
  | EmptyString => []
  | String c s' =>
      if Ascii.eqb c LF then EmptyString :: rawLines s'
      else
        match rawLines s' with
        | [] => [String c EmptyString]
        | l :: ls => String c l :: ls
        end
  end.

(** The tokens of the successive calls of [Scan] that return [true], and
    the value of [Err()] once [Scan] has returned [false].  A line of
    [MaxScanTokenSize] bytes or more does not fit the buffer: the scan stops
    there with [ErrTooLong]. *)
Fixpoint scanLines (raw : list string) : list string * option ScanError :=
  match raw with
  | [] => ([], None)
  | l :: rest =>
      if (MaxScanTokenSize <=? Z.of_nat (String.length l))%Z
      then ([], Some ErrTooLong)
      else let (tokens, err) := scanLines rest in (dropCR l :: tokens, err)
  end.

Definition Scan (text : string) : list string * option ScanError :=
  scanLines (rawLines text).

End bufio.

(** ** Package [pattern] (internal/pattern) *)

Module pattern.

Import syntax.
Local Open Scope string_scope.

(** A parsed gitignore pattern. *)
Record Pattern : Type := mkPattern {
  Regex : Regexp;
  Negate : bool
}.

Inductive error : Type :=
| ErrInvalidRegex (expr : string) (lineNumber : nat) (cause : ErrorCode)
| ErrScanningFile (cause : bufio.ScanError).

(** What a call returns: a value, an error, or [OutsideModel] when a line
    uses regular-expression syntax that the model of [regexp] leaves out. *)
Inductive result (E A : Type) : Type :=
| Returns (a : A)
| Fails (err : E)
| OutsideModel.

Arguments Returns {E A} a.
Arguments Fails {E A} err.
Arguments OutsideModel {E A}.

Definition magicStar : string := "#$~".

(** The body of the loop of [Parse] up to the call of [regexp.Compile]:
    [None] when the line is skipped ([continue]), otherwise the value of
    [negatePattern] and the expression [expr]. *)
Definition assemble (line : string) : option (bool * string) :=
  (* Trim OS-specific carriage returns. *)
  let line := strings.TrimRight line (String bufio.CR EmptyString) in
  (* Strip comments. *)
  if strings.HasPrefix line "#" then None else
  (* Trim string. *)
  let line := strings.Trim line " " in
  if String.eqb line "" then None else
  (* Negation of patterns leading with "!". *)
  let negatePattern := strings.HasPrefix line "!" in
  let line := if negatePattern then strings.drop 1 line else line in
  let line :=
    if regexp.MatchString (regexp.MustCompile "^([#!])") line
    then strings.drop 1 line else line in
  (* If we encounter a foo/*.blah in a folder, prepend the / char. *)
  let line :=
    if regexp.MatchString (regexp.MustCompile "([^/+])/.*\*\.") line
       && negb (strings.HasPrefix line "/")
    then "/" ++ line else line in
  (* Handle escaping the "." char. *)
  let line := regexp.ReplaceAllString (regexp.MustCompile "\.") line "\." in
  (* Handle "/**/" usage. *)
  let line := if strings.HasPrefix line "/**/" then strings.drop 1 line else line in
  let line := regexp.ReplaceAllString (regexp.MustCompile "/\*\*/") line "(/|/.+/)" in
  let line := regexp.ReplaceAllString (regexp.MustCompile "\*\*/") line
                ("(|." ++ magicStar ++ "/)") in
  let line := regexp.ReplaceAllString (regexp.MustCompile "/\*\*") line
                ("(|/." ++ magicStar ++ ")") in
  (* Handle escaping the "*" char. *)
  let line := regexp.ReplaceAllString (regexp.MustCompile "\\\*") line
                ("\" ++ magicStar) in
  let line := regexp.ReplaceAllString (regexp.MustCompile "\*") line "([^/]*)" in
  (* Handle escaping the "?" char. *)
  let line := strings.ReplaceAll line "?" "\?" in
  let line := strings.ReplaceAll line magicStar "*" in
  let expr :=
    if strings.HasSuffix line "/" then line ++ "(|.*)$" else line ++ "(|/.*)$" in
  let expr :=
    if strings.HasPrefix expr "/" then "^(|/)" ++ strings.drop 1 expr
    else "^(|.*/)" ++ expr in
  Some (negatePattern, expr).

(** The loop of [Parse] over the scanned lines; [lineNumber] and [patterns]
    are the variables of the same names. *)
Fixpoint parseLines (lines : list string) (lineNumber : nat)
    (patterns : list Pattern) (scanErr : option bufio.ScanError)
    : result error (list Pattern) :=
  match lines with
  | [] =>
      match scanErr with
      | Some err => Fails (ErrScanningFile err)
      | None => Returns patterns
      end
  | line :: rest =>
      let lineNumber := S lineNumber in
      match assemble line with
      | None => parseLines rest lineNumber patterns scanErr
      | Some (negatePattern, expr) =>
          match regexp.Compile expr with
          | Error cause => Fails (ErrInvalidRegex expr lineNumber cause)
          | Unmodelled => OutsideModel
          | Ok regex =>
              parseLines rest lineNumber
                (patterns ++ [mkPattern regex negatePattern]) scanErr
          end
      end
  end.

(** [Parse(r)] for a reader [r] over the bytes of [text]. *)
Definition Parse (text : string) : result error (list Pattern) :=
  let (lines, scanErr) := bufio.Scan text in
  parseLines lines 0 [] scanErr.

End pattern.

(** ** Package [os] *)

Module os.

(** The two values of [os.PathSeparator]: a slash on Unix-like systems, a
    backslash on Windows. *)
Inductive GOOS : Type := unix | windows.

Definition PathSeparator (goos : GOOS) : ascii :=
  match goos with
  | unix => "/"
  | windows => "\"
  end%char.

End os.

(** ** Package [gitignore] *)

Module gitignore.

Import pattern.

Inductive error : Type :=
| ErrRegexCompile (cause : pattern.error)
| Wrapped (cause : pattern.error).

(** [File] provides the functionality to match paths against gitignore
    rules. *)
Record File : Type := mkFile {
  patterns : list Pattern
}.

(** [NewFromLines(lines)] *)
Definition NewFromLines (lines : list string) : result error File :=
  let r := xstrings.JoinWithSeparator (String bufio.LF EmptyString) lines in
  match pattern.Parse r with
  | Fails err =>
      match err with
      | ErrInvalidRegex _ _ _ => Fails (ErrRegexCompile err)
      | _ => Fails (Wrapped err)
      end
  | OutsideModel => OutsideModel
  | Returns patterns => Returns (mkFile patterns)
  end.

(** The loop of [Match]; [matched] is the variable [match]. *)
Fixpoint matchLoop (pats : list Pattern) (path : string) (matched : bool) : bool :=
  match pats with
  | [] => matched
  | pat :: rest =>
      if regexp.MatchString (Regex pat) path then
        if Negate pat then false
        else matchLoop rest path true
      else matchLoop rest path matched
  end.

(** [f.Match(path)] *)
Definition Match (goos : os.GOOS) (f : File) (path : string) : bool :=
  let path :=
    strings.ReplaceAll path (String (os.PathSeparator goos) EmptyString) "/" in
  matchLoop (patterns f) path false.

End gitignore.

(** ** Vocabulary of the statements *)

Module Spec.

Import syntax pattern gitignore.

(** The path as [Match] presents it to the rules. *)
Definition normalize (goos : os.GOOS) (path : string) : string :=
  strings.ReplaceAll path (String (os.PathSeparator goos) EmptyString) "/".

(** The matcher of a rule accepts a path. *)
Definition accepts (pat : Pattern) (path : string) : bool :=
  regexp.MatchString (Regex pat) path.

Definition positiveHit (path : string) (pat : Pattern) : bool :=
  negb (Negate pat) && accepts pat path.

Definition negativeHit (path : string) (pat : Pattern) : bool :=
  Negate pat && accepts pat path.

(** The verdict without reference to the order of the rules. *)
Definition orderFreeVerdict (pats : list Pattern) (path : string) : bool :=
  existsb (positiveHit path) pats && negb (existsb (negativeHit path) pats).

(** Replacement of one byte by another throughout a string. *)
Fixpoint mapBytes (f : ascii -> ascii) (s : string) : string :=
  match s with
  | EmptyString => EmptyString
  | String c s' => String (f c) (mapBytes f s')
  end.

(** The verdict for a path under the rule set compiled from [lines];
    [None] when the compilation does not return a rule set. *)
Definition verdict (goos : os.GOOS) (lines : list string) (path : string)
    : option bool :=
  match NewFromLines lines with
  | Returns f => Some (Match goos f path)
  | _ => None
  end.

(** The line is skipped or its expression compiles. *)
Definition lineCompiles (line : string) : bool :=
  match assemble line with
  | None => true
  | Some (_, expr) =>
      match regexp.Compile expr with
      | Ok _ => true
      | _ => false
      end
  end.

(** The expression of the line is rejected by [regexp.Compile]. *)
Definition lineRejected (line : string) : bool :=
  match assemble line with
  | None => false
  | Some (_, expr) =>
      match regexp.Compile expr with
      | Error _ => true
      | _ => false
      end
  end.

Definition backslashToSlash (c : ascii) : ascii :=
  if Ascii.eqb c "\" then "/"%char else c.

(** The bytes of a string as numbers. *)
Fixpoint bytesZ (s : string) : list Z :=
  match s with
  | EmptyString => []
  | String c s' => utf8.byteZ c :: bytesZ s'
  end.

Fixpoint allBytes (f : ascii -> bool) (s : string) : bool :=
  match s with
  | EmptyString => true
  | String c s' => f c && allBytes f s'
  end.

Definition firstByte (s : string) : option ascii :=
  match s with
  | EmptyString => None
  | String c _ => Some c
  end.

Fixpoint lastByte (s : string) : option ascii :=
  match s with
  | EmptyString => None
  | String c EmptyString => Some c
  | String _ s' => lastByte s'
  end.

Definition isAscii (c : ascii) : bool := (utf8.byteZ c <? utf8.RuneSelf)%Z.

(** A byte that [Parse] and [regexp] take for itself: an ASCII byte other
    than the line feed, the star and the characters that are operators of
    regular expressions once [Parse] has escaped the dot and the question
    mark. *)
Definition plainByte (c : ascii) : bool :=
  isAscii c
  && negb (strings.contains_byte "\+*()|[{^$" c)
  && negb (Ascii.eqb c bufio.LF).

(** A text of plain bytes that [Parse] takes as it is: it neither begins
    with a blank or a comment or negation mark nor ends with a blank or a
    carriage return. *)
Definition plainText (p : string) : bool :=
  allBytes plainByte p
  && match firstByte p, lastByte p with
     | Some a, Some z =>
         negb (strings.contains_byte "#! " a)
         && negb (Ascii.eqb z " ")
         && negb (Ascii.eqb z bufio.CR)
     | _, _ => false
     end.

Definition beginsWithSlash (p : string) : bool :=
  match firstByte p with
  | Some a => Ascii.eqb a "/"
  | None => false
  end.

Definition endsWithSlash (p : string) : bool :=
  match lastByte p with
  | Some z => Ascii.eqb z "/"
  | None => false
  end.

(** The rule without its leading slash: the text that its expression
    holds. *)
Definition ruleBody (p : string) : string :=
  if beginsWithSlash p then strings.drop 1 p else p.

(** A literal rule: a plain text with something after its leading slash,
    if it has one. *)
Definition literalRule (p : string) : bool :=
  plainText p && negb (String.eqb (ruleBody p) "").

(** A literal rule that is a name or a relative path. *)
Definition relativeRule (p : string) : bool :=
  literalRule p && negb (beginsWithSlash p) && negb (endsWithSlash p).

(** A literal rule that is a relative path ending with a slash. *)
Definition directoryRule (p : string) : bool :=
  literalRule p && negb (beginsWithSlash p) && endsWithSlash p.

(** The string without line feed. *)
Definition lineFree (s : string) : bool :=
  negb (strings.contains_byte s bufio.LF).

(** What may precede a literal rule in an ignored path: nothing, or text
    of one line that ends with a slash. *)
Definition segmentEnd (before : string) : bool :=
  match before with
  | EmptyString => true
  | _ =>
      match lastByte before with
      | Some c => Ascii.eqb c "/" && lineFree before
      | None => false
      end
  end.

(** What may follow it: nothing, or a slash and text of one line. *)
Definition segmentStart (after : string) : bool :=
  match after with
  | EmptyString => true
  | String c _ => Ascii.eqb c "/" && lineFree after
  end.

(** What may follow a rule that ends with a slash: text of one line. *)
Definition below (directory : bool) (after : string) : bool :=
  if directory then lineFree after else segmentStart after.

(** What may precede a rule that begins with a slash: nothing, or the
    slash of the root. *)
Definition atRoot (before : string) : bool :=
  String.eqb before "" || String.eqb before "/".

Definition above (anchored : bool) (before : string) : bool :=
  if anchored then atRoot before else segmentEnd before.

(** The path holds the body of the literal rule [p] where the slashes of
    [p] allow it. *)
Definition holdsRule (p path : string) : Prop :=
  exists before after,
    path = (before ++ ruleBody p ++ after)%string /\
    above (beginsWithSlash p) before = true /\
    below (endsWithSlash p) after = true.

(** The path holds the text [p] as a run of whole segments. *)
Definition holdsSegments (p path : string) : Prop :=
  exists before after,
    path = (before ++ p ++ after)%string /\
    segmentEnd before = true /\ segmentStart after = true.

(** The path holds [a], a run of bytes without slash and [c] as whole
    segments. *)
Definition holdsRunBetween (a c path : string) : Prop :=
  exists before run after,
    path = (before ++ a ++ run ++ c ++ after)%string /\
    segmentEnd before = true /\
    strings.contains_byte run "/" = false /\
    segmentStart after = true.

(** The path holds the directory [p], slash included, after whole
    segments. *)
Definition holdsDirectory (p path : string) : Prop :=
  exists before after,
    path = (before ++ p ++ after)%string /\
    segmentEnd before = true /\ lineFree after = true.

(** A byte that a literal rule may hold: any byte other than the line
    feed, the star and the characters that are operators of regular
    expressions once [Parse] has escaped the dot and the question mark. *)
Definition literalByte (c : ascii) : bool :=
  negb (strings.contains_byte "\+*()|[{^$" c)
  && negb (Ascii.eqb c bufio.LF).

(** The text is well-formed UTF-8 and holds no replacement character: none
    of its runes reads as U+FFFD. *)
Definition wellEncoded (p : string) : bool :=
  forallb (fun r => negb (r =? utf8.RuneError)%Z) (regexp.runes p).

(** The replacement character U+FFFD in UTF-8. *)
Definition replacementCharacter : string :=
  String (ascii_of_nat 239) (String (ascii_of_nat 191)
    (String (ascii_of_nat 189) "")).

(** The text holds the replacement character. *)
Fixpoint holdsReplacement (s : string) : bool :=
  match s with
  | EmptyString => false
  | String c t =>
      String.prefix replacementCharacter (String c t) || holdsReplacement t
  end.

(** A literal rule, ASCII or not: a text of such bytes, without the
    replacement character, that [Parse] takes as it is: it neither begins
    with a blank or a comment or negation mark nor ends with a blank or a
    carriage return. *)
Definition literalPattern (p : string) : bool :=
  allBytes literalByte p && negb (holdsReplacement p)
  && match firstByte p, lastByte p with
     | Some a, Some z =>
         negb (strings.contains_byte "#! " a)
         && negb (Ascii.eqb z " ")
         && negb (Ascii.eqb z bufio.CR)
     | _, _ => false
     end.

(** The name [cafe] with an acute accent on its last letter, in UTF-8, and
    a byte that no well-formed text holds. *)
Definition cafe : string :=
  "caf" ++ String (ascii_of_nat 195) (String (ascii_of_nat 169) "").

Definition strayByte : string := String (ascii_of_nat 255) "".

(** Replaces every byte [a] of [s] by the text [new]. *)
Fixpoint substByte (a : ascii) (new : string) (s : string) : string :=
  match s with
  | EmptyString => EmptyString
  | String c s' =>
      if Ascii.eqb c a then (new ++ substByte a new s')%string
      else String c (substByte a new s')
  end.

(** The text of a literal rule inside its expression: the dot and the
    question mark escaped. *)
Definition escapeLiteral (p : string) : string :=
  substByte "?" "\?" (substByte "." "\." p).

End Spec.

(** ** Auxiliary definitions of the proofs *)

(** The UTF-8 decoder by cases on the bytes that are present; it is shown
    to agree with [utf8.DecodeRuneInString]. *)
Module Utf8Spec.

Import utf8.
Local Open Scope Z_scope.

(** Length of the sequence a leading byte announces and bounds of its
    second byte; [None] for a byte that cannot lead. *)
Definition lead (z : Z) : option (Z * Z * Z) :=
  if z <? 0xC2 then None
  else if z <? 0xE0 then Some (2, 0x80, 0xBF)
  else if z =? 0xE0 then Some (3, 0xA0, 0xBF)
  else if z <? 0xED then Some (3, 0x80, 0xBF)
  else if z =? 0xED then Some (3, 0x80, 0x9F)
  else if z <? 0xF0 then Some (3, 0x80, 0xBF)
  else if z =? 0xF0 then Some (4, 0x90, 0xBF)
  else if z <? 0xF4 then Some (4, 0x80, 0xBF)
  else if z =? 0xF4 then Some (4, 0x80, 0x8F)
  else None.

(** The decoder by cases on the bytes present. *)
Definition decode (s : string) : Z * nat :=
  match s with
  | EmptyString => (RuneError, 0%nat)
  | String c0 t0 =>
      let z := byteZ c0 in
      if z <? 0x80 then (z, 1%nat)
      else
        match lead z with
        | None => (RuneError, 1%nat)
        | Some (sz, lo, hi) =>
            match t0 with
            | EmptyString => (RuneError, 1%nat)
            | String c1 t1 =>
                let b1 := byteZ c1 in
                if (b1 <? lo) || (hi <? b1) then (RuneError, 1%nat)
                else if sz <=? 2 then
                  (Z.lor (Z.shiftl (Z.land z mask2) 6) (Z.land b1 maskx), 2%nat)
                else
                  match t1 with
                  | EmptyString => (RuneError, 1%nat)
                  | String c2 t2 =>
                      let b2 := byteZ c2 in
                      if (b2 <? locb) || (hicb <? b2) then (RuneError, 1%nat)
                      else if sz <=? 3 then
                        (Z.lor (Z.lor (Z.shiftl (Z.land z mask3) 12)
                                      (Z.shiftl (Z.land b1 maskx) 6))
                               (Z.land b2 maskx), 3%nat)
                      else
                        match t2 with
                        | EmptyString => (RuneError, 1%nat)
                        | String c3 _ =>
                            let b3 := byteZ c3 in
                            if (b3 <? locb) || (hicb <? b3) then (RuneError, 1%nat)
                            else
                              (Z.lor (Z.lor (Z.lor (Z.shiftl (Z.land z mask4) 18)
                                                   (Z.shiftl (Z.land b1 maskx) 12))
                                            (Z.shiftl (Z.land b2 maskx) 6))
                                     (Z.land b3 maskx), 4%nat)
                        end
                  end
            end
        end
  end.

(** The well-formed sequences of bytes and the runes they encode. *)
Inductive encodes : string -> Z -> Prop :=
| encodes1 (c0 : ascii) :
    byteZ c0 < 128 ->
    encodes (String c0 "") (byteZ c0)
| encodes2 (c0 c1 : ascii) :
    194 <= byteZ c0 < 224 -> 128 <= byteZ c1 < 192 ->
    encodes (String c0 (String c1 ""))
            ((byteZ c0 - 192) * 64 + (byteZ c1 - 128))
| encodes3 (c0 c1 c2 : ascii) :
    224 <= byteZ c0 < 240 -> 128 <= byteZ c1 < 192 ->
    (byteZ c0 = 224 -> 160 <= byteZ c1) ->
    (byteZ c0 = 237 -> byteZ c1 < 160) ->
    128 <= byteZ c2 < 192 ->
    encodes (String c0 (String c1 (String c2 "")))
            ((byteZ c0 - 224) * 4096 + (byteZ c1 - 128) * 64 + (byteZ c2 - 128))
| encodes4 (c0 c1 c2 c3 : ascii) :
    240 <= byteZ c0 < 245 -> 128 <= byteZ c1 < 192 ->
    (byteZ c0 = 240 -> 144 <= byteZ c1) ->
    (byteZ c0 = 244 -> byteZ c1 < 144) ->
    128 <= byteZ c2 < 192 -> 128 <= byteZ c3 < 192 ->
    encodes (String c0 (String c1 (String c2 (String c3 ""))))
            ((byteZ c0 - 240) * 262144 + (byteZ c1 - 128) * 4096
             + (byteZ c2 - 128) * 64 + (byteZ c3 - 128)).

End Utf8Spec.

(** Shapes of the expressions that [Parse] assembles and of their
    languages. *)

Module Shapes.

Import syntax.

(** The two groups of an expression that is anchored neither way. *)
Definition anySegments : Regexp :=
  Capture (Alternate EmptyMatch (Concat (Star AnyCharNotNL) (Literal 47))).

Definition anyBelow : Regexp :=
  Capture (Alternate EmptyMatch (Concat (Literal 47) (Star AnyCharNotNL))).

Definition anyBelowDirectory : Regexp :=
  Capture (Alternate EmptyMatch (Star AnyCharNotNL)).

Definition rootSlash : Regexp :=
  Capture (Alternate EmptyMatch (Literal 47)).

Definition endsSegment (u : list Z) : Prop :=
  u = [] \/ exists u', u = u' ++ [47%Z] /\ Forall (fun x => x <> 10%Z) u'.

Definition startsBelow (v : list Z) : Prop :=
  v = [] \/ exists v', v = 47%Z :: v' /\ Forall (fun x => x <> 10%Z) v'.

(** What [Parse] makes of one byte of a literal rule. *)
Definition escapeByte (c : ascii) : string :=
  if Ascii.eqb c "." then "\."
  else if Ascii.eqb c "?" then "\?"
  else String c "".

(** The stack of the literals of a text, the last one on top. *)
Definition litStack (P : list Z) : stack :=
  map Node (rev (map Literal P)).

(** The expression of the rule [a*c]: the star is a run of runes other
    than the slash. *)
Definition noSlashRun : Regexp :=
  Capture (Star (CharClass true [(47, 47)]%Z)).

Definition aStarC : Regexp :=
  collapseConcat
    [BeginText; anySegments; Literal 97; noSlashRun; Literal 99; anyBelow;
     EndText].

(** The expression of the rule [a\?c]: the question mark makes the
    backslash before it optional. *)
Definition aQuestC : Regexp :=
  collapseConcat
    [BeginText; anySegments; Literal 97; Quest (Literal 92); Literal 99;
     anyBelow; EndText].

(** The suffix of the expression and its group. *)
Definition suffixText (directory : bool) : string :=
  if directory then "(|.*)$" else "(|/.*)$".

Definition suffixGroup (directory : bool) : Regexp :=
  if directory then anyBelowDirectory else anyBelow.

Definition suffixWords (directory : bool) (v : list Z) : Prop :=
  if directory then Forall (fun x => x <> 10%Z) v else startsBelow v.

(** The prefix of the expression and its group. *)
Definition prefixText (anchored : bool) : string :=
  if anchored then "^(|/)" else "^(|.*/)".

Definition prefixGroup (anchored : bool) : Regexp :=
  if anchored then rootSlash else anySegments.

Definition prefixWords (anchored : bool) (u : list Z) : Prop :=
  if anchored then u = [] \/ u = [47%Z] else endsSegment u.

(** The expression that [Parse] compiles for a literal rule. *)
Definition plainExpr (p : string) : Regexp :=
  collapseConcat
    (BeginText :: prefixGroup (Spec.beginsWithSlash p)
       :: map Literal (Spec.bytesZ (Spec.ruleBody p))
       ++ [suffixGroup (Spec.endsWithSlash p); EndText]).

(** The same for a literal rule that need not be ASCII: one literal for
    each rune of the text. *)
Definition literalExpr (p : string) : Regexp :=
  collapseConcat
    (BeginText :: prefixGroup (Spec.beginsWithSlash p)
       :: map Literal (regexp.runes (Spec.ruleBody p))
       ++ [suffixGroup (Spec.endsWithSlash p); EndText]).

(** Facts that [literalRule] gathers. *)
Record PlainFacts (p : string) (a z : ascii) : Prop := {
  pf_plain : Spec.allBytes Spec.plainByte p = true;
  pf_first : Spec.firstByte p = Some a;
  pf_last : Spec.lastByte p = Some z;
  pf_first_ok : strings.contains_byte "#! " a = false;
  pf_last_sp : Ascii.eqb z " " = false;
  pf_last_cr : Ascii.eqb z bufio.CR = false;
  pf_body : Spec.ruleBody p <> EmptyString
}.

(** The steps of [assemble] on a line that is kept, once the carriage
    returns, the blanks and the negation mark are removed. *)
Definition unmark (line : string) : string :=
  if regexp.MatchString (regexp.MustCompile "^([#!])") line
  then strings.drop 1 line else line.

Definition anchor (line : string) : string :=
  if regexp.MatchString (regexp.MustCompile "([^/+])/.*\*\.") line
     && negb (strings.HasPrefix line "/")
  then ("/" ++ line)%string else line.

Definition translate (line : string) : string :=
  let line := regexp.ReplaceAllString (regexp.MustCompile "\.") line "\." in
  let line := if strings.HasPrefix line "/**/" then strings.drop 1 line else line in
  let line := regexp.ReplaceAllString (regexp.MustCompile "/\*\*/") line "(/|/.+/)" in
  let line := regexp.ReplaceAllString (regexp.MustCompile "\*\*/") line
                ("(|." ++ pattern.magicStar ++ "/)")%string in
  let line := regexp.ReplaceAllString (regexp.MustCompile "/\*\*") line
                ("(|/." ++ pattern.magicStar ++ ")")%string in
  let line := regexp.ReplaceAllString (regexp.MustCompile "\\\*") line
                ("\" ++ pattern.magicStar)%string in
  let line := regexp.ReplaceAllString (regexp.MustCompile "\*") line "([^/]*)" in
  let line := strings.ReplaceAll line "?" "\?" in
  strings.ReplaceAll line pattern.magicStar "*".

Definition wrap (line : string) : string :=
  let expr :=
    if strings.HasSuffix line "/" then (line ++ "(|.*)$")%string
    else (line ++ "(|/.*)$")%string in
  if strings.HasPrefix expr "/" then ("^(|/)" ++ strings.drop 1 expr)%string
  else ("^(|.*/)" ++ expr)%string.

End Shapes.

Example ReplaceAll_ex1 :
  strings.ReplaceAll "a/**/b/**/c" "/**/" "X" = "aXbXc".
Proof. reflexivity. Qed.

Example ReplaceAll_ex2 : strings.ReplaceAll "aaa" "aa" "b" = "ba".
Proof. reflexivity. Qed.

Example Trim_ex : strings.Trim "  a b  " " " = "a b".
Proof. reflexivity. Qed.

Example HasSuffix_ex : strings.HasSuffix "foo/" "/" = true.
Proof. reflexivity. Qed.

Example Decode_ascii : utf8.DecodeRuneInString "a/" = (97%Z, 1%nat).
Proof. reflexivity. Qed.

(** U+00E9 is encoded C3 A9. *)
Example Decode_two_bytes :
  utf8.DecodeRuneInString
    (String (ascii_of_nat 195) (String (ascii_of_nat 169) "x")) = (233%Z, 2%nat).
Proof. reflexivity. Qed.

(** A continuation byte that starts a sequence is an encoding error of
    width one. *)
Example Decode_invalid :
  utf8.DecodeRuneInString (String (ascii_of_nat 169) "x") = (utf8.RuneError, 1%nat).
Proof. reflexivity. Qed.
Example parse_ex1 :
  syntax.Parse "^(|.*/)foo(|/.*)$" =
  syntax.Ok (syntax.Concat syntax.BeginText
    (syntax.Concat
      (syntax.Capture (syntax.Alternate syntax.EmptyMatch
         (syntax.Concat (syntax.Star syntax.AnyCharNotNL) (syntax.Literal 47))))
      (syntax.Concat (syntax.Literal 102) (syntax.Concat (syntax.Literal 111)
        (syntax.Concat (syntax.Literal 111)
          (syntax.Concat
            (syntax.Capture (syntax.Alternate syntax.EmptyMatch
              (syntax.Concat (syntax.Literal 47) (syntax.Star syntax.AnyCharNotNL))))
            syntax.EndText)))))).
Proof. vm_compute. reflexivity. Qed.

Example assemble_ex1 : pattern.assemble "!important/*.txt" =
  Some (true, "^(|/)important/([^/]*)\.txt(|/.*)$").
Proof. vm_compute. reflexivity. Qed.

Example assemble_ex2 : pattern.assemble "**/foo" =
  Some (false, "^(|.*/)(|.*/)foo(|/.*)$").
Proof. vm_compute. reflexivity. Qed.

Example assemble_ex3 : pattern.assemble "foo/**/*.bar" =
  Some (false, "^(|/)foo(/|/.+/)([^/]*)\.bar(|/.*)$").
Proof. vm_compute. reflexivity. Qed.

(** * UTF-8 decoding *)

(** Case analysis on the tests of a goal. *)
Ltac break_if :=
  match goal with
  | |- context [if ?b then _ else _] => destruct b eqn:?
  end.

Ltac to_props :=
  repeat match goal with
  | H : (_ <? _)%Z = true |- _ => apply Z.ltb_lt in H
  | H : (_ <? _)%Z = false |- _ => apply Z.ltb_ge in H
  | H : (_ <=? _)%Z = true |- _ => apply Z.leb_le in H
  | H : (_ <=? _)%Z = false |- _ => apply Z.leb_gt in H
  | H : (_ =? _)%Z = true |- _ => apply Z.eqb_eq in H
  | H : (_ =? _)%Z = false |- _ => apply Z.eqb_neq in H
  | H : (_ || _) = false |- _ => apply orb_false_iff in H as [? ?]
  | H : (_ || _) = true |- _ => apply orb_true_iff in H
  end.

Section Utf8Facts.

Import Utf8Spec.
Local Open Scope Z_scope.



Lemma byteZ_range (c : ascii) : 0 <= utf8.byteZ c < 256.
Proof.
  unfold utf8.byteZ. pose proof (N_ascii_bounded c). lia.
Qed.

Lemma first_ascii (z : Z) : z < 128 -> utf8.first z = utf8.as_.
Proof.
  intros H. unfold utf8.first.
  destruct (Z.ltb_spec z 128); [reflexivity|lia].
Qed.

Lemma first_lead (z : Z) :
  128 <= z ->
  match lead z with
  | None => utf8.first z = utf8.xx
  | Some (sz, lo, hi) =>
      (utf8.as_ <=? utf8.first z) = false /\
      Z.land (utf8.first z) 7 = sz /\
      utf8.acceptRanges (Z.shiftr (utf8.first z) 4) = (lo, hi) /\
      (sz = 2 \/ sz = 3 \/ sz = 4)
  end.
Proof.
  intros Hz. unfold lead, utf8.first.
  destruct (Z.ltb_spec z 128); [lia|].
  repeat break_if; repeat split; auto.
Qed.

Lemma decode_eq (s : string) : utf8.DecodeRuneInString s = decode s.
Proof.
  destruct s as [|c0 t0]; [reflexivity|].
  unfold utf8.DecodeRuneInString, decode.
  set (z := utf8.byteZ c0).
  destruct (Z.ltb_spec z 128) as [Hlt|Hge].
  - rewrite (first_ascii z Hlt).
    change (utf8.as_ <=? utf8.as_) with true. cbv iota.
    change (- Z.land utf8.as_ 1) with 0.
    change (Z.lnot 0) with (-1).
    now rewrite Z.land_m1_r, Z.land_0_r, Z.lor_0_r.
  - pose proof (first_lead z Hge) as Hl.
    destruct (lead z) as [[[sz lo] hi]|].
    + destruct Hl as (-> & -> & -> & Hsz).
      cbn [fst snd].
      destruct t0 as [|c1 t1].
      { cbn [String.length]. break_if; reflexivity. }
      destruct ((utf8.byteZ c1 <? lo) || (hi <? utf8.byteZ c1)) eqn:Ho1.
      { break_if; reflexivity. }
      destruct t1 as [|c2 t2].
      { cbn [String.length]. destruct Hsz as [-> | [-> | ->]]; reflexivity. }
      destruct ((utf8.byteZ c2 <? utf8.locb) || (utf8.hicb <? utf8.byteZ c2)) eqn:Ho2.
      { destruct Hsz as [-> | [-> | ->]]; cbn [String.length]; repeat break_if;
          try reflexivity; to_props; lia. }
      destruct t2 as [|c3 t3].
      { cbn [String.length]. destruct Hsz as [-> | [-> | ->]]; reflexivity. }
      destruct Hsz as [-> | [-> | ->]]; cbn [String.length]; repeat break_if;
        try reflexivity; to_props; lia.
    + rewrite Hl. change (utf8.as_ <=? utf8.xx) with true. cbv iota.
      change (- Z.land utf8.xx 1) with (-1).
      change (Z.lnot (-1)) with 0.
      now rewrite Z.land_m1_r, Z.land_0_r, Z.lor_0_l.
Qed.

Lemma lor_lower_l (a b : Z) : 0 <= a -> 0 <= b -> a <= Z.lor a b.
Proof.
  intros Ha Hb.
  pose proof (Z.add_lor_land a b) as H1.
  pose proof (Z.sub_land_same_l b a) as H2.
  assert (0 <= Z.land b (Z.lnot a)) by (apply Z.land_nonneg; now left).
  rewrite (Z.land_comm b a) in H2. lia.
Qed.

Lemma lor_lower_r (a b : Z) : 0 <= a -> 0 <= b -> b <= Z.lor a b.
Proof. intros. rewrite Z.lor_comm. now apply lor_lower_l. Qed.

Lemma field_nonneg (z m k : Z) : 0 <= m -> 0 <= Z.shiftl (Z.land z m) k.
Proof.
  intros. apply Z.shiftl_nonneg. apply Z.land_nonneg. now right.
Qed.

Lemma land_nonneg_r (z m : Z) : 0 <= m -> 0 <= Z.land z m.
Proof. intros. apply Z.land_nonneg. now right. Qed.

Lemma field_lower (z n k lo : Z) :
  0 <= n -> 0 <= k -> lo <= (z mod 2 ^ n) * 2 ^ k ->
  lo <= Z.shiftl (Z.land z (Z.ones n)) k.
Proof.
  intros Hn Hk H. rewrite Z.land_ones by lia.
  now rewrite Z.shiftl_mul_pow2 by lia.
Qed.

Lemma head2 (z : Z) : 194 <= z < 224 -> 128 <= Z.shiftl (Z.land z utf8.mask2) 6.
Proof.
  intros Hz. apply (field_lower z 5 6); try lia.
  change (2 ^ 5) with 32. change (2 ^ 6) with 64. Z.div_mod_to_equations. lia.
Qed.

Lemma head3 (z : Z) : 225 <= z < 240 -> 128 <= Z.shiftl (Z.land z utf8.mask3) 12.
Proof.
  intros Hz. apply (field_lower z 4 12); try lia.
  change (2 ^ 4) with 16. change (2 ^ 12) with 4096. Z.div_mod_to_equations. lia.
Qed.

Lemma head4 (z : Z) : 241 <= z < 245 -> 128 <= Z.shiftl (Z.land z utf8.mask4) 18.
Proof.
  intros Hz. apply (field_lower z 3 18); try lia.
  change (2 ^ 3) with 8. change (2 ^ 18) with 262144. Z.div_mod_to_equations. lia.
Qed.

Lemma cont6 (z : Z) : 160 <= z < 192 -> 128 <= Z.shiftl (Z.land z utf8.maskx) 6.
Proof.
  intros Hz. apply (field_lower z 6 6); try lia.
  change (2 ^ 6) with 64. Z.div_mod_to_equations. lia.
Qed.

Lemma cont12 (z : Z) : 144 <= z < 192 -> 128 <= Z.shiftl (Z.land z utf8.maskx) 12.
Proof.
  intros Hz. apply (field_lower z 6 12); try lia.
  change (2 ^ 6) with 64. change (2 ^ 12) with 4096. Z.div_mod_to_equations. lia.
Qed.

(** What [lead] says about the byte. *)
Lemma lead_ranges (z sz lo hi : Z) :
  128 <= z -> lead z = Some (sz, lo, hi) ->
  128 <= lo /\
  ((sz = 2 /\ 194 <= z < 224) \/
   (sz = 3 /\ z = 224 /\ lo = 160 /\ hi = 191) \/
   (sz = 3 /\ 225 <= z < 240) \/
   (sz = 4 /\ z = 240 /\ lo = 144 /\ hi = 191) \/
   (sz = 4 /\ 241 <= z < 245)).
Proof.
  intros Hz. unfold lead.
  repeat break_if; intros H; try discriminate; injection H as <- <- <-;
    to_props; split; try lia.
Qed.

Ltac nonneg :=
  repeat first
    [ apply Z.lor_nonneg; split
    | apply field_nonneg; unfold utf8.maskx, utf8.mask2, utf8.mask3, utf8.mask4; lia
    | apply land_nonneg_r; unfold utf8.maskx; lia ].

Lemma decode_multi_ge (c : ascii) (s : string) :
  128 <= utf8.byteZ c -> 128 <= fst (decode (String c s)).
Proof.
  intros Hc. unfold decode.
  destruct (Z.ltb_spec (utf8.byteZ c) 128); [lia|].
  destruct (lead (utf8.byteZ c)) as [[[sz lo] hi]|] eqn:Hl;
    [|unfold utf8.RuneError; simpl; lia].
  apply lead_ranges in Hl as [Hlo Hcases]; [|assumption].
  assert (Herr : 128 <= utf8.RuneError) by (unfold utf8.RuneError; lia).
  destruct s as [|c1 t1]; [exact Herr|]. cbv zeta.
  destruct ((utf8.byteZ c1 <? lo) || (hi <? utf8.byteZ c1)) eqn:Ho1; [exact Herr|].
  to_props.
  destruct (Z.leb_spec sz 2).
  { cbn [fst]. destruct Hcases as [[-> Hz]|[[-> _]|[[-> _]|[[-> _]|[-> _]]]]]; try lia.
    etransitivity; [apply (head2 _ Hz)|]. apply lor_lower_l; nonneg. }
  destruct t1 as [|c2 t2]; [exact Herr|].
  destruct ((utf8.byteZ c2 <? utf8.locb) || (utf8.hicb <? utf8.byteZ c2)); [exact Herr|].
  destruct (Z.leb_spec sz 3).
  { cbn [fst].
    destruct Hcases as [[-> Hz]|[(-> & Hz & -> & ->)|[[-> Hz]|[[-> _]|[-> _]]]]]; try lia.
    - etransitivity; [apply (cont6 (utf8.byteZ c1)); lia|].
      etransitivity; [|apply lor_lower_l; nonneg]. apply lor_lower_r; nonneg.
    - etransitivity; [apply (head3 _ Hz)|].
      etransitivity; [|apply lor_lower_l; nonneg]. apply lor_lower_l; nonneg. }
  destruct t2 as [|c3 t3]; [exact Herr|].
  destruct ((utf8.byteZ c3 <? utf8.locb) || (utf8.hicb <? utf8.byteZ c3)); [exact Herr|].
  cbn [fst].
  destruct Hcases as [[-> Hz]|[(-> & _)|[[-> Hz]|[(-> & Hz & -> & ->)|[-> Hz]]]]]; try lia.
  - etransitivity; [apply (cont12 (utf8.byteZ c1)); lia|].
    etransitivity; [|apply lor_lower_l; nonneg].
    etransitivity; [|apply lor_lower_l; nonneg]. apply lor_lower_r; nonneg.
  - etransitivity; [apply (head4 _ Hz)|].
    etransitivity; [|apply lor_lower_l; nonneg].
    etransitivity; [|apply lor_lower_l; nonneg]. apply lor_lower_l; nonneg.
Qed.

Lemma decode_ascii (c : ascii) (s : string) :
  utf8.byteZ c < 128 -> decode (String c s) = (utf8.byteZ c, 1%nat).
Proof.
  intros H. unfold decode. destruct (Z.ltb_spec (utf8.byteZ c) 128); [reflexivity|lia].
Qed.

Lemma decode_width (c : ascii) (s : string) :
  (1 <= snd (decode (String c s)) <= S (String.length s))%nat.
Proof.
  unfold decode. cbv zeta.
  repeat (break_if || match goal with
          | |- context [match ?x with _ => _ end] => destruct x
          end); cbn [snd String.length]; lia.
Qed.

Lemma decode_boundary (c0 : ascii) (a : string) (c' : ascii) (s2 : string) :
  utf8.byteZ c' < 128 ->
  decode (String c0 (a ++ String c' s2)%string) = decode (String c0 a).
Proof.
  intros Hc. unfold decode. cbv zeta.
  destruct (Z.ltb_spec (utf8.byteZ c0) 128) as [|Hge]; [reflexivity|].
  destruct (lead (utf8.byteZ c0)) as [[[sz lo] hi]|] eqn:Hl; [|reflexivity].
  apply lead_ranges in Hl as [Hlo _]; [|assumption].
  assert (H1 : (utf8.byteZ c' <? lo) = true) by (apply Z.ltb_lt; lia).
  assert (H2 : (utf8.byteZ c' <? utf8.locb) = true)
    by (apply Z.ltb_lt; unfold utf8.locb; lia).
  destruct a as [|a1 [|a2 [|a3 a']]]; cbn [String.append].
  - now rewrite H1.
  - rewrite H2. cbn [orb]. repeat break_if; reflexivity.
  - rewrite H2. cbn [orb]. repeat break_if; reflexivity.
  - reflexivity.
Qed.

(** [step] of a non-empty text. *)
Lemma step_decode (c : ascii) (s : string) :
  regexp.step (String c s) = decode (String c s).
Proof.
  unfold regexp.step. rewrite decode_eq.
  destruct (Z.ltb_spec (utf8.byteZ c) utf8.RuneSelf) as [H|H]; [|reflexivity].
  unfold utf8.RuneSelf in H. now rewrite decode_ascii.
Qed.

Lemma drop_length (n : nat) (s : string) :
  String.length (strings.drop n s) = (String.length s - n)%nat.
Proof.
  revert s. induction n as [|n IH]; intros [|c s]; simpl; auto.
Qed.

Lemma runes_fuel_enough (n m : nat) (s : string) :
  (String.length s <= n)%nat -> (String.length s <= m)%nat ->
  regexp.runes_fuel n s = regexp.runes_fuel m s.
Proof.
  revert m s. induction n as [|n IH]; intros m s Hn Hm.
  - destruct s; [|simpl in Hn; lia]. destruct m; reflexivity.
  - destruct s as [|c s]; [destruct m; reflexivity|].
    destruct m as [|m]; [simpl in Hm; lia|].
    cbn [regexp.runes_fuel]. rewrite step_decode.
    pose proof (decode_width c s) as Hw.
    destruct (decode (String c s)) as [r w]. cbn [snd] in Hw.
    cbn [String.length] in *.
    f_equal. apply IH; rewrite drop_length; cbn [String.length]; lia.
Qed.

Lemma runes_cons (c : ascii) (s : string) :
  regexp.runes (String c s) =
  fst (decode (String c s))
  :: regexp.runes (strings.drop (snd (decode (String c s))) (String c s)).
Proof.
  unfold regexp.runes at 1. cbn [String.length regexp.runes_fuel].
  rewrite step_decode.
  pose proof (decode_width c s) as Hw.
  destruct (decode (String c s)) as [r w]. cbn [fst snd] in *.
  f_equal. apply runes_fuel_enough; rewrite ?drop_length; cbn [String.length]; lia.
Qed.

Lemma runes_cons_ascii (c : ascii) (s : string) :
  utf8.byteZ c < 128 -> regexp.runes (String c s) = utf8.byteZ c :: regexp.runes s.
Proof.
  intros H. rewrite runes_cons, decode_ascii by assumption. reflexivity.
Qed.

Lemma runes_nil : regexp.runes ""%string = [].
Proof. reflexivity. Qed.

Lemma runes_nil_inv (s : string) : regexp.runes s = [] -> s = ""%string.
Proof. destruct s; [reflexivity|]. rewrite runes_cons. discriminate. Qed.

(** ** Strings *)

Lemma append_nil_r (s : string) : (s ++ "")%string = s.
Proof. induction s as [|c s IH]; simpl; [reflexivity|now rewrite IH]. Qed.

Lemma append_assoc (a b c : string) :
  ((a ++ b) ++ c)%string = (a ++ (b ++ c))%string.
Proof. induction a as [|x a IH]; simpl; [reflexivity|now rewrite IH]. Qed.

Lemma length_append (a b : string) :
  String.length (a ++ b) = (String.length a + String.length b)%nat.
Proof. induction a as [|x a IH]; simpl; [reflexivity|now rewrite IH]. Qed.

Lemma take_drop (n : nat) (s : string) :
  (strings.take n s ++ strings.drop n s)%string = s.
Proof.
  revert s. induction n as [|n IH]; intros [|c s]; simpl; try reflexivity.
  now rewrite IH.
Qed.

Lemma length_take (n : nat) (s : string) :
  (n <= String.length s)%nat -> String.length (strings.take n s) = n.
Proof.
  revert s. induction n as [|n IH]; intros [|c s] H; simpl in *; try lia.
  now rewrite IH by lia.
Qed.

Lemma drop_append (a b : string) :
  strings.drop (String.length a) (a ++ b) = b.
Proof. induction a as [|x a IH]; simpl; [now destruct b|exact IH]. Qed.

Lemma drop_append_le (n : nat) (a b : string) :
  (n <= String.length a)%nat ->
  strings.drop n (a ++ b) = (strings.drop n a ++ b)%string.
Proof.
  revert a. induction n as [|n IH]; intros a H.
  - now destruct a; destruct b.
  - destruct a as [|x a]; simpl in *; [lia|]. apply IH. lia.
Qed.

Lemma drop_0 (s : string) : strings.drop 0 s = s.
Proof. now destruct s. Qed.

(** ** Runes of a text and its bytes *)

Lemma runes_app_boundary (a : string) (c' : ascii) (s2 : string) :
  utf8.byteZ c' < 128 ->
  regexp.runes (a ++ String c' s2) = regexp.runes a ++ regexp.runes (String c' s2).
Proof.
  intros Hc.
  remember (String.length a) as n eqn:Hn.
  assert (Hle : (String.length a <= n)%nat) by lia. clear Hn.
  revert a Hle. induction n as [|n IH]; intros a Hle.
  - destruct a; [reflexivity|simpl in Hle; lia].
  - destruct a as [|c0 a0]; [reflexivity|].
    cbn [String.append]. rewrite (runes_cons c0 (a0 ++ _)), (runes_cons c0 a0).
    rewrite decode_boundary by assumption.
    pose proof (decode_width c0 a0) as Hw.
    destruct (decode (String c0 a0)) as [r w]. cbn [fst snd] in *.
    destruct w as [|w]; [lia|]. cbn [strings.drop].
    rewrite drop_append_le by lia.
    cbn [String.length] in Hle.
    rewrite IH by (rewrite drop_length; lia). reflexivity.
Qed.

Lemma byteZ_inj (c c' : ascii) : utf8.byteZ c = utf8.byteZ c' -> c = c'.
Proof.
  unfold utf8.byteZ. intros H. apply N2Z.inj in H.
  rewrite <- (ascii_N_embedding c), <- (ascii_N_embedding c'). now rewrite H.
Qed.

Lemma runes_split (s : string) (u : list Z) (x : Z) (v : list Z) :
  regexp.runes s = u ++ x :: v -> x < 128 ->
  exists s1 c s2,
    s = (s1 ++ String c s2)%string /\ utf8.byteZ c = x /\
    regexp.runes s1 = u /\ regexp.runes s2 = v.
Proof.
  intros H Hx.
  remember (String.length s) as n eqn:Hn.
  assert (Hle : (String.length s <= n)%nat) by lia. clear Hn.
  revert s u Hle H. induction n as [|n IH]; intros s u Hle H.
  - destruct s; [|simpl in Hle; lia]. destruct u; discriminate.
  - destruct s as [|c0 s']; [destruct u; discriminate|].
    rewrite runes_cons in H.
    pose proof (decode_width c0 s') as Hw.
    destruct (decode (String c0 s')) as [r w] eqn:Hd. cbn [fst snd] in *.
    destruct w as [|w]; [lia|]. cbn [strings.drop] in H.
    destruct u as [|r' u'].
    + injection H as Hr Hv. subst r.
      destruct (Z.ltb_spec (utf8.byteZ c0) 128) as [Hlt|Hge].
      * rewrite decode_ascii in Hd by assumption. injection Hd as Hx' Hw'.
        subst. exists ""%string, c0, s'. rewrite drop_0. auto.
      * pose proof (decode_multi_ge c0 s' Hge) as Hr. rewrite Hd in Hr.
        cbn [fst] in Hr. lia.
    + injection H as Hr Hrest. subst r'.
      cbn [String.length] in Hle.
      apply IH in Hrest as (s1' & c & s2 & Hs & Hc & Hu & Hv);
        [|rewrite drop_length; lia].
      exists (String c0 (strings.take w s' ++ s1')), c, s2.
      assert (Hs' : String c0 s' =
                    String c0 ((strings.take w s' ++ s1') ++ String c s2)).
      { f_equal. rewrite append_assoc, <- Hs. symmetry. apply take_drop. }
      split; [exact Hs'|]. split; [exact Hc|]. split; [|exact Hv].
      rewrite runes_cons.
      rewrite Hs' in Hd. rewrite decode_boundary in Hd by lia.
      rewrite Hd. cbn [fst snd strings.drop].
      replace w with (String.length (strings.take w s')) at 1
        by (apply length_take; lia).
      now rewrite drop_append, Hu.
Qed.

End Utf8Facts.

(** * The matcher computes the language *)

Import Language.

Lemma isNil_app {A : Type} (l1 l2 : list A) :
  isNil (l1 ++ l2) = isNil l1 && isNil l2.
Proof. destruct l1; reflexivity. Qed.

Section MatcherCorrect.

Import syntax regexp.

Lemma matchOne_sound (k : bool -> list Z -> bool) (p : Z -> bool) (s : list Z) :
  matchOne k p s = true ->
  exists x rest, s = x :: rest /\ p x = true /\ k false rest = true.
Proof.
  destruct s as [|x s']; simpl; [discriminate|].
  intros H. apply andb_true_iff in H as [Hp Hk]. eauto.
Qed.

Lemma starLoop_sound (sub : Regexp) msub (k : bool -> list Z -> bool) :
  SoundAt sub msub ->
  forall n b s, starLoop k msub n b s = true ->
    exists w rest, s = w ++ rest /\ Matches (Star sub) b w rest /\
                   k (b && isNil w) rest = true.
Proof.
  intros Hsub. induction n as [|n IH]; intros b s H; simpl in H.
  - exists [], s. rewrite andb_true_r. repeat split; [constructor | exact H].
  - apply orb_true_iff in H as [H|H].
    + apply Hsub in H as (w1 & rest1 & -> & Hm1 & Hk).
      apply andb_true_iff in Hk as [_ Hk].
      apply IH in Hk as (w2 & rest & -> & Hm2 & Hk).
      exists (w1 ++ w2), rest. rewrite app_assoc. split; [reflexivity|].
      split; [now constructor|].
      now rewrite isNil_app, andb_assoc.
    + exists [], s. rewrite andb_true_r. repeat split; [constructor | exact H].
Qed.

Lemma starLoop_complete (sub : Regexp) msub (k : bool -> list Z -> bool) :
  CompleteAt sub msub ->
  forall b w rest, Matches (Star sub) b w rest ->
  forall n, (List.length (w ++ rest) <= n)%nat ->
    k (b && isNil w) rest = true ->
    starLoop k msub n b (w ++ rest) = true.
Proof.
  intros Hsub b w rest Hm.
  remember (Star sub) as re eqn:Ere.
  induction Hm; try discriminate Ere; injection Ere as ->.
  - intros n _ Hk. rewrite andb_true_r in Hk.
    destruct n; simpl; [exact Hk|]. rewrite Hk. apply orb_true_r.
  - intros n Hlen Hk. clear IHHm1. specialize (IHHm2 eq_refl).
    destruct w1 as [|x w1].
    + simpl in *. rewrite andb_true_r in IHHm2. now apply IHHm2.
    + destruct n as [|n]; [simpl in Hlen; lia|].
      cbn [starLoop]. apply orb_true_iff. left.
      rewrite <- app_assoc. apply Hsub; [exact Hm1|].
      apply andb_true_iff. split.
      * apply Nat.ltb_lt. rewrite !length_app. simpl. lia.
      * apply IHHm2.
        -- simpl in Hlen. rewrite !length_app in *. simpl in *. lia.
        -- now rewrite isNil_app, andb_assoc in Hk.
Qed.

Lemma matchHere_sound (re : Regexp) : SoundAt re (matchHere re).
Proof.
  induction re; intros b s k H; simpl in H.
  - exists [], s. rewrite andb_true_r. repeat split; [constructor|exact H].
  - discriminate.
  - apply matchOne_sound in H as (x & rest & -> & Hp & Hk).
    apply Z.eqb_eq in Hp. subst x.
    exists [r], rest. rewrite andb_false_r. repeat split; [constructor|exact Hk].
  - apply matchOne_sound in H as (x & rest & -> & Hp & Hk).
    exists [x], rest. rewrite andb_false_r.
    repeat split; [now constructor|exact Hk].
  - apply matchOne_sound in H as (x & rest & -> & Hp & Hk).
    apply negb_true_iff, Z.eqb_neq in Hp.
    exists [x], rest. rewrite andb_false_r.
    repeat split; [now constructor|exact Hk].
  - apply andb_true_iff in H as [-> Hk].
    exists [], s. repeat split; [constructor|exact Hk].
  - destruct s; [|discriminate].
    exists [], []. rewrite andb_true_r. repeat split; [constructor|exact H].
  - apply IHre in H as (w & rest & -> & Hm & Hk).
    exists w, rest. repeat split; [now constructor|exact Hk].
  - apply (starLoop_sound _ _ _ IHre) in H as (w & rest & -> & Hm & Hk).
    now exists w, rest.
  - apply IHre in H as (w1 & rest1 & -> & Hm1 & Hk).
    apply (starLoop_sound _ _ _ IHre) in Hk as (w2 & rest & -> & Hm2 & Hk).
    exists (w1 ++ w2), rest. rewrite app_assoc. split; [reflexivity|].
    split; [now constructor|]. now rewrite isNil_app, andb_assoc.
  - apply orb_true_iff in H as [H|H].
    + apply IHre in H as (w & rest & -> & Hm & Hk).
      exists w, rest. repeat split; [now constructor|exact Hk].
    + exists [], s. rewrite andb_true_r.
      repeat split; [apply MQuestNone|exact H].
  - apply IHre1 in H as (w1 & rest1 & -> & Hm1 & Hk).
    apply IHre2 in Hk as (w2 & rest & -> & Hm2 & Hk).
    exists (w1 ++ w2), rest. rewrite app_assoc. split; [reflexivity|].
    split; [now constructor|]. now rewrite isNil_app, andb_assoc.
  - apply orb_true_iff in H as [H|H].
    + apply IHre1 in H as (w & rest & -> & Hm & Hk).
      exists w, rest. repeat split; [now apply MAlternateL|exact Hk].
    + apply IHre2 in H as (w & rest & -> & Hm & Hk).
      exists w, rest. repeat split; [now apply MAlternateR|exact Hk].
Qed.

Lemma matchHere_complete (re : Regexp) : CompleteAt re (matchHere re).
Proof.
  induction re; intros b w rest k Hm Hk; inversion Hm; subst; simpl;
    rewrite ?isNil_app, ?andb_assoc in Hk; cbn [isNil] in Hk;
    rewrite ?andb_true_r, ?andb_false_r in Hk.
  - exact Hk.
  - now rewrite Z.eqb_refl.
  - match goal with H : inClass _ _ _ = true |- _ => now rewrite H end.
  - match goal with H : _ <> 10%Z |- _ =>
      apply Z.eqb_neq in H; now rewrite H end.
  - exact Hk.
  - exact Hk.
  - now apply IHre.
  - apply (starLoop_complete _ _ _ IHre b [] rest Hm);
      [reflexivity | now rewrite andb_true_r].
  - apply (starLoop_complete _ _ _ IHre b (w1 ++ w2) rest Hm);
      [reflexivity | now rewrite isNil_app, andb_assoc].
  - rewrite <- app_assoc. apply IHre; [assumption|].
    apply (starLoop_complete _ _ _ IHre _ w2 rest);
      [assumption | reflexivity | exact Hk].
  - apply orb_true_iff. left. now apply IHre.
  - rewrite Hk. apply orb_true_r.
  - rewrite <- app_assoc. apply IHre1; [assumption|].
    now apply IHre2.
  - apply orb_true_iff. left. now apply IHre1.
  - apply orb_true_iff. right. now apply IHre2.
Qed.

Lemma search_sound (re : Regexp) (s : list Z) (b : bool) :
  search re b s = true ->
  exists before w rest,
    s = before ++ w ++ rest /\ Matches re (b && isNil before) w rest.
Proof.
  revert b. induction s as [|x s IH]; intros b H; simpl in H.
  - rewrite orb_false_r in H.
    apply matchHere_sound in H as (w & rest & -> & Hm & _).
    exists [], w, rest. now rewrite andb_true_r.
  - apply orb_true_iff in H as [H|H].
    + apply matchHere_sound in H as (w & rest & -> & Hm & _).
      exists [], w, rest. now rewrite andb_true_r.
    + apply IH in H as (before & w & rest & -> & Hm).
      exists (x :: before), w, rest. split; [reflexivity|].
      now rewrite andb_false_r.
Qed.

Lemma search_complete (re : Regexp) (before w rest : list Z) (b : bool) :
  Matches re (b && isNil before) w rest ->
  search re b (before ++ w ++ rest) = true.
Proof.
  revert b. induction before as [|x before IH]; intros b Hm.
  - rewrite andb_true_r in Hm. simpl.
    pose proof (matchHere_complete re b w rest (fun _ _ => true) Hm eq_refl)
      as Hc.
    destruct (w ++ rest); simpl; rewrite Hc; reflexivity.
  - simpl. apply orb_true_iff. right. apply IH.
    now rewrite andb_false_r in Hm.
Qed.

(** [MatchString] decides whether some part of the text belongs to the
    language of the expression. *)
Theorem MatchString_Found (re : Regexp) (s : string) :
  MatchString re s = true <-> Found re (runes s).
Proof.
  unfold MatchString, Found. split.
  - intros H. apply search_sound in H as (before & w & rest & E & Hm).
    now exists before, w, rest.
  - intros (before & w & rest & E & Hm). rewrite E.
    now apply search_complete.
Qed.

End MatcherCorrect.

(** * Text, runes and the language of a literal rule *)

Import syntax pattern gitignore Spec Shapes.

(** * Runes of ASCII text *)

Lemma isAscii_lt (c : ascii) : isAscii c = true <-> (utf8.byteZ c < 128)%Z.
Proof. unfold isAscii, utf8.RuneSelf. apply Z.ltb_lt. Qed.

Lemma runes_ascii_app (p t : string) :
  allBytes isAscii p = true ->
  regexp.runes (p ++ t) = bytesZ p ++ regexp.runes t.
Proof.
  induction p as [|c p IH]; intros H; simpl in *; [reflexivity|].
  apply andb_true_iff in H as [Hc Hp]. apply isAscii_lt in Hc.
  rewrite runes_cons_ascii by assumption. now rewrite IH.
Qed.

Lemma runes_ascii (p : string) :
  allBytes isAscii p = true -> regexp.runes p = bytesZ p.
Proof.
  intros H. rewrite <- (append_nil_r p) at 1.
  rewrite runes_ascii_app by assumption. simpl. apply app_nil_r.
Qed.

Lemma runes_ascii_inv (p s : string) (v : list Z) :
  allBytes isAscii p = true ->
  regexp.runes s = bytesZ p ++ v ->
  exists t, s = (p ++ t)%string /\ regexp.runes t = v.
Proof.
  revert s. induction p as [|c p IH]; intros s Hp H; simpl in *.
  - now exists s.
  - apply andb_true_iff in Hp as [Hc Hp]. apply isAscii_lt in Hc.
    apply (runes_split s [] _ _) in H as (s1 & c' & s2 & -> & Hc' & Hs1 & Hs2);
      [|assumption].
    apply runes_nil_inv in Hs1. subst s1. apply byteZ_inj in Hc'. subst c'.
    apply IH in Hs2 as (t & -> & Ht); [|assumption].
    now exists t.
Qed.

(** Line feeds among the bytes and among the runes. *)

Lemma contains_byte_split (s : string) (d : ascii) :
  strings.contains_byte s d = true ->
  exists a b, s = (a ++ String d b)%string.
Proof.
  induction s as [|c s IH]; simpl; [discriminate|].
  intros H. apply orb_true_iff in H as [H|H].
  - apply Ascii.eqb_eq in H. subst c. now exists "", s.
  - apply IH in H as (a & b & ->). now exists (String c a), b.
Qed.

Lemma contains_byte_app (a b : string) (d : ascii) :
  strings.contains_byte (a ++ b) d =
  strings.contains_byte a d || strings.contains_byte b d.
Proof.
  induction a as [|c a IH]; simpl; [reflexivity|].
  now rewrite IH, orb_assoc.
Qed.

Lemma byteZ_LF : utf8.byteZ bufio.LF = 10%Z.
Proof. reflexivity. Qed.

Lemma byteFree_runes (d : ascii) (s : string) :
  (utf8.byteZ d < 128)%Z ->
  strings.contains_byte s d = false <->
  Forall (fun x => x <> utf8.byteZ d) (regexp.runes s).
Proof.
  intros Hd. split.
  - intros H. apply Forall_forall. intros x Hin ->.
    apply in_split in Hin as (u & v & Hr).
    apply runes_split in Hr as (s1 & c & s2 & -> & Hc & _); [|exact Hd].
    apply byteZ_inj in Hc. subst c.
    rewrite contains_byte_app in H. apply orb_false_iff in H as [_ H].
    cbn [strings.contains_byte] in H. rewrite Ascii.eqb_refl in H. discriminate.
  - intros H.
    destruct (strings.contains_byte s d) eqn:Hc; [|reflexivity].
    apply contains_byte_split in Hc as (a & b & ->).
    rewrite runes_app_boundary in H by exact Hd.
    rewrite runes_cons_ascii in H by exact Hd.
    apply Forall_app in H as [_ H]. inversion H; subst. congruence.
Qed.

Lemma lineFree_runes (s : string) :
  lineFree s = true <-> Forall (fun x => x <> 10%Z) (regexp.runes s).
Proof.
  unfold lineFree. rewrite negb_true_iff.
  apply (byteFree_runes bufio.LF). rewrite byteZ_LF. lia.
Qed.

(** * Inversion of [Matches] *)

Lemma Matches_Empty b w rest : Matches EmptyMatch b w rest <-> w = [].
Proof. split; [now inversion 1|intros ->; constructor]. Qed.

Lemma Matches_Literal r b w rest : Matches (Literal r) b w rest <-> w = [r].
Proof. split; [now inversion 1|intros ->; constructor]. Qed.

Lemma Matches_Class negated ranges b w rest :
  Matches (CharClass negated ranges) b w rest <->
  exists x, w = [x] /\ regexp.inClass negated ranges x = true.
Proof.
  split.
  - inversion 1; subst. eauto.
  - intros (x & -> & H). now constructor.
Qed.

Lemma Matches_Any b w rest :
  Matches AnyCharNotNL b w rest <-> exists x, w = [x] /\ x <> 10%Z.
Proof.
  split.
  - inversion 1; subst. eauto.
  - intros (x & -> & H). now constructor.
Qed.

Lemma Matches_Begin b w rest : Matches BeginText b w rest <-> b = true /\ w = [].
Proof. split; [now inversion 1|intros [-> ->]; constructor]. Qed.

Lemma Matches_End b w rest : Matches EndText b w rest <-> w = [] /\ rest = [].
Proof. split; [now inversion 1|intros [-> ->]; constructor]. Qed.

Lemma Matches_Capture sub b w rest :
  Matches (Capture sub) b w rest <-> Matches sub b w rest.
Proof. split; [now inversion 1|now constructor]. Qed.

Lemma Matches_Concat re1 re2 b w rest :
  Matches (Concat re1 re2) b w rest <->
  exists w1 w2, w = w1 ++ w2 /\ Matches re1 b w1 (w2 ++ rest) /\
                Matches re2 (b && isNil w1) w2 rest.
Proof.
  split.
  - inversion 1; subst. eauto.
  - intros (w1 & w2 & -> & H1 & H2). now constructor.
Qed.

Lemma Matches_Alternate re1 re2 b w rest :
  Matches (Alternate re1 re2) b w rest <->
  Matches re1 b w rest \/ Matches re2 b w rest.
Proof.
  split.
  - inversion 1; subst; auto.
  - intros [H|H]; [now apply MAlternateL|now apply MAlternateR].
Qed.

Lemma Matches_Star_Any b w rest :
  Matches (Star AnyCharNotNL) b w rest <-> Forall (fun x => x <> 10%Z) w.
Proof.
  split.
  - intros H. remember (Star AnyCharNotNL) as re eqn:E.
    induction H; try discriminate E; injection E as ->.
    + constructor.
    + apply Forall_app. split; [|now apply IHMatches2].
      apply Matches_Any in H as (x & -> & Hx). now repeat constructor.
  - revert b. induction w as [|x w IH]; intros b H.
    + constructor.
    + inversion H; subst. change (x :: w) with ([x] ++ w).
      apply MStarMore; [now constructor|now apply IH].
Qed.

Lemma Matches_collapseConcat_cons re res b w rest :
  Matches (collapseConcat (re :: res)) b w rest <->
  exists w1 w2, w = w1 ++ w2 /\ Matches re b w1 (w2 ++ rest) /\
                Matches (collapseConcat res) (b && isNil w1) w2 rest.
Proof.
  destruct res as [|re' res].
  - cbn [collapseConcat]. split.
    + intros H. exists w, []. rewrite app_nil_r. repeat split; [exact H|constructor].
    + intros (w1 & w2 & -> & H1 & H2). apply Matches_Empty in H2. subst w2.
      now rewrite app_nil_r.
  - cbn [collapseConcat]. apply Matches_Concat.
Qed.

Lemma Matches_literals (P : list Z) res b w rest :
  Matches (collapseConcat (map Literal P ++ res)) b w rest <->
  exists w2, w = P ++ w2 /\ Matches (collapseConcat res) (b && isNil P) w2 rest.
Proof.
  revert b w. induction P as [|x P IH]; intros b w.
  - simpl. rewrite andb_true_r. split; [intros H; now exists w|now intros (w2 & -> & H)].
  - cbn [map app]. rewrite Matches_collapseConcat_cons. split.
    + intros (w1 & w2 & -> & H1 & H2). apply Matches_Literal in H1. subst w1.
      apply IH in H2 as (w3 & -> & H3). exists w3. split; [reflexivity|].
      simpl in *. now rewrite andb_false_r in *.
    + intros (w2 & -> & H). exists [x], (P ++ w2). split; [reflexivity|].
      split; [constructor|]. apply IH. exists w2. split; [reflexivity|].
      simpl in *. now rewrite andb_false_r in *.
Qed.

(** The language of the expression of a literal rule: a word of the
    prefix group, the text, a word of the suffix group, and nothing else in
    the text. *)
Lemma Found_literal_rule (PRE SUF : Regexp) (Lpre Lsuf : list Z -> Prop)
    (P : list Z) :
  (forall b w rest, Matches PRE b w rest <-> Lpre w) ->
  (forall b w rest, Matches SUF b w rest <-> Lsuf w) ->
  forall s,
    Found (collapseConcat (BeginText :: PRE :: map Literal P ++ [SUF; EndText])) s
    <-> exists u v, s = u ++ P ++ v /\ Lpre u /\ Lsuf v.
Proof.
  intros Hpre Hsuf s. unfold Found. split.
  - intros (before & w & rest & -> & H).
    apply Matches_collapseConcat_cons in H as (w0 & w1 & -> & H0 & H).
    apply Matches_Begin in H0 as [Hb ->]. destruct before; [|discriminate].
    apply Matches_collapseConcat_cons in H as (u & w2 & -> & Hu & H).
    apply Hpre in Hu.
    apply Matches_literals in H as (w3 & -> & H).
    apply Matches_collapseConcat_cons in H as (v & w4 & -> & Hv & H).
    apply Hsuf in Hv. cbn [collapseConcat] in H.
    apply Matches_End in H as [-> ->].
    exists u, v. simpl. rewrite !app_nil_r. auto.
  - intros (u & v & -> & Hu & Hv).
    exists [], (u ++ P ++ v), []. split; [now rewrite app_nil_r|].
    apply Matches_collapseConcat_cons. exists [], (u ++ P ++ v).
    split; [reflexivity|]. split; [now apply Matches_Begin|].
    apply Matches_collapseConcat_cons. exists u, (P ++ v).
    split; [reflexivity|]. split; [now apply Hpre|].
    apply Matches_literals. exists v. split; [reflexivity|].
    apply Matches_collapseConcat_cons. exists v, []. rewrite app_nil_r.
    split; [reflexivity|]. split; [now apply Hsuf|].
    cbn [collapseConcat]. now apply Matches_End.
Qed.

Lemma Matches_anySegments b w rest :
  Matches anySegments b w rest <-> endsSegment w.
Proof.
  unfold anySegments, endsSegment.
  rewrite Matches_Capture, Matches_Alternate, Matches_Empty, Matches_Concat.
  split; (intros [H|H]; [now left|right]).
  - destruct H as (w1 & w2 & -> & H1 & H2).
    apply Matches_Star_Any in H1. apply Matches_Literal in H2. subst. eauto.
  - destruct H as (u' & -> & H). exists u', [47%Z]. split; [reflexivity|].
    split; [now apply Matches_Star_Any|now apply Matches_Literal].
Qed.

Lemma Matches_anyBelow b w rest :
  Matches anyBelow b w rest <-> startsBelow w.
Proof.
  unfold anyBelow, startsBelow.
  rewrite Matches_Capture, Matches_Alternate, Matches_Empty, Matches_Concat.
  split; (intros [H|H]; [now left|right]).
  - destruct H as (w1 & w2 & -> & H1 & H2).
    apply Matches_Literal in H1. apply Matches_Star_Any in H2. subst.
    exists w2. now split.
  - destruct H as (v' & -> & H). exists [47%Z], v'. split; [reflexivity|].
    split; [now apply Matches_Literal|now apply Matches_Star_Any].
Qed.

(** * From runes back to bytes *)

Lemma lastByte_app (a : string) (c : ascii) :
  lastByte (a ++ String c "") = Some c.
Proof.
  induction a as [|x a IH]; [reflexivity|].
  cbn [String.append lastByte]. rewrite IH.
  now destruct (a ++ String c "")%string eqn:E; [destruct a; discriminate|].
Qed.

Lemma lastByte_split (s : string) (c : ascii) :
  lastByte s = Some c -> exists a, s = (a ++ String c "")%string.
Proof.
  induction s as [|x s IH]; [discriminate|].
  destruct s as [|y s].
  - intros H. injection H as ->. now exists "".
  - intros H. cbn [lastByte] in H. apply IH in H as (a & ->).
    now exists (String x a).
Qed.

Lemma byteZ_slash : utf8.byteZ "/" = 47%Z.
Proof. reflexivity. Qed.

Lemma segmentEnd_runes (s : string) :
  segmentEnd s = true <-> endsSegment (regexp.runes s).
Proof.
  unfold endsSegment. split.
  - intros H. destruct s as [|c s]; [now left|]. right.
    cbn [segmentEnd] in H.
    destruct (lastByte (String c s)) as [z|] eqn:Hl; [|discriminate].
    apply andb_true_iff in H as [Hz Hf]. apply Ascii.eqb_eq in Hz. subst z.
    apply lastByte_split in Hl as (a & Ha). rewrite Ha in *.
    apply lineFree_runes in Hf.
    rewrite runes_app_boundary in * by (rewrite byteZ_slash; lia).
    exists (regexp.runes a). split; [reflexivity|].
    now apply Forall_app in Hf as [Hf _].
  - intros [H|(u' & Hu & Hf)].
    + apply runes_nil_inv in H. now subst.
    + pose proof Hu as Hsplit.
      apply runes_split in Hsplit as (s1 & c & s2 & -> & Hc & Hs1 & Hs2); [|lia].
      apply runes_nil_inv in Hs2. subst s2.
      rewrite <- byteZ_slash in Hc. apply byteZ_inj in Hc. subst c.
      assert (Hfree : lineFree (s1 ++ "/") = true).
      { apply lineFree_runes. rewrite Hu. apply Forall_app. split; [exact Hf|].
        repeat constructor. lia. }
      unfold segmentEnd. rewrite lastByte_app, Hfree.
      now destruct s1.
Qed.

Lemma segmentStart_runes (s : string) :
  segmentStart s = true <-> startsBelow (regexp.runes s).
Proof.
  unfold startsBelow. split.
  - intros H. destruct s as [|c s]; [now left|]. right.
    cbn [segmentStart] in H.
    apply andb_true_iff in H as [Hz Hf]. apply Ascii.eqb_eq in Hz. subst c.
    apply lineFree_runes in Hf.
    rewrite runes_cons_ascii in * by (rewrite byteZ_slash; lia).
    exists (regexp.runes s). split; [reflexivity|].
    now inversion Hf.
  - intros [H|(v' & Hv & Hf)].
    + apply runes_nil_inv in H. now subst.
    + pose proof Hv as Hsplit.
      apply (runes_split s []) in Hsplit as (s1 & c & s2 & -> & Hc & Hs1 & Hs2);
        [|lia].
      apply runes_nil_inv in Hs1. subst s1.
      rewrite <- byteZ_slash in Hc. apply byteZ_inj in Hc. subst c.
      cbn [String.append segmentStart]. apply andb_true_iff. split; [reflexivity|].
      apply lineFree_runes. cbn [String.append] in Hv. rewrite Hv.
      constructor; [lia|exact Hf].
Qed.

Lemma Found_literal_bytes (PRE SUF : Regexp) (Lpre Lsuf : list Z -> Prop)
    (Bpre Bsuf : string -> bool) (p : string) :
  p <> "" -> allBytes isAscii p = true ->
  (forall b w rest, Matches PRE b w rest <-> Lpre w) ->
  (forall b w rest, Matches SUF b w rest <-> Lsuf w) ->
  (forall s, Bpre s = true <-> Lpre (regexp.runes s)) ->
  (forall s, Bsuf s = true <-> Lsuf (regexp.runes s)) ->
  forall path,
    Found (collapseConcat
             (BeginText :: PRE :: map Literal (bytesZ p) ++ [SUF; EndText]))
          (regexp.runes path)
    <-> exists before after,
          path = (before ++ p ++ after)%string /\
          Bpre before = true /\ Bsuf after = true.
Proof.
  intros Hne Hp HPRE HSUF HBpre HBsuf path.
  rewrite (Found_literal_rule PRE SUF Lpre Lsuf (bytesZ p) HPRE HSUF).
  destruct p as [|c0 p']; [contradiction|].
  cbn [allBytes] in Hp. apply andb_true_iff in Hp as [Hc0 Hp'].
  pose proof (proj1 (isAscii_lt c0) Hc0) as Hlt.
  split.
  - intros (u & v & Hr & Hu & Hv). cbn [bytesZ app] in Hr.
    apply runes_split in Hr as (s1 & c & s2 & -> & Hc & Hs1 & Hs2); [|exact Hlt].
    apply byteZ_inj in Hc. subst c.
    apply runes_ascii_inv in Hs2 as (t & -> & Ht); [|exact Hp'].
    exists s1, t. subst u v. split; [reflexivity|].
    split; [now apply HBpre|now apply HBsuf].
  - intros (before & after & -> & Hb & Ha).
    exists (regexp.runes before), (regexp.runes after).
    split; [|split; [now apply HBpre|now apply HBsuf]].
    cbn [String.append]. rewrite runes_app_boundary by exact Hlt.
    rewrite runes_cons_ascii by exact Hlt.
    now rewrite runes_ascii_app by exact Hp'.
Qed.

(** * Facts on the functions of [strings] *)

Lemma rev_append_spec (s acc : string) :
  strings.rev_append s acc = (strings.rev s ++ acc)%string.
Proof.
  unfold strings.rev. revert acc.
  induction s as [|c s IH]; intros acc; [reflexivity|].
  cbn [strings.rev_append]. rewrite IH, (IH (String c "")).
  now rewrite append_assoc.
Qed.

Lemma rev_cons (c : ascii) (s : string) :
  strings.rev (String c s) = (strings.rev s ++ String c "")%string.
Proof. unfold strings.rev at 1. cbn [strings.rev_append]. apply rev_append_spec. Qed.

Lemma rev_snoc (s : string) (c : ascii) :
  strings.rev (s ++ String c "") = String c (strings.rev s).
Proof.
  induction s as [|x s IH]; [reflexivity|].
  cbn [String.append]. now rewrite !rev_cons, IH.
Qed.

Lemma strings_rev_involutive (s : string) : strings.rev (strings.rev s) = s.
Proof.
  induction s as [|c s IH]; [reflexivity|].
  now rewrite rev_cons, rev_snoc, IH.
Qed.

Lemma firstByte_app (a b : string) :
  firstByte (a ++ b) = match firstByte a with Some c => Some c | None => firstByte b end.
Proof. now destruct a. Qed.

Lemma lastByte_cons (y : ascii) (s : string) :
  exists z, lastByte (String y s) = Some z.
Proof.
  revert y. induction s as [|x s IH]; intros y; [now exists y|].
  destruct (IH x) as (z & Hz). exists z. cbn [lastByte] in *. exact Hz.
Qed.

Lemma firstByte_rev (s : string) : firstByte (strings.rev s) = lastByte s.
Proof.
  induction s as [|c s IH]; [reflexivity|].
  rewrite rev_cons, firstByte_app, IH.
  destruct s as [|y s]; [reflexivity|].
  destruct (lastByte_cons y s) as (z & Hz).
  cbn [lastByte] in *. now rewrite Hz.
Qed.

Lemma prefix_byte (d : ascii) (s : string) :
  String.prefix (String d "") s =
  match firstByte s with
  | Some c => Ascii.eqb d c
  | None => false
  end.
Proof.
  destruct s as [|c s]; [reflexivity|]. cbn [String.prefix firstByte].
  destruct (ascii_dec d c) as [->|Hne].
  - rewrite Ascii.eqb_refl. now destruct s.
  - symmetry. now apply Ascii.eqb_neq.
Qed.

Lemma HasPrefix_byte (s : string) (d : ascii) :
  strings.HasPrefix s (String d "") =
  match firstByte s with
  | Some c => Ascii.eqb d c
  | None => false
  end.
Proof. apply prefix_byte. Qed.

Lemma HasSuffix_byte (s : string) (d : ascii) :
  strings.HasSuffix s (String d "") =
  match lastByte s with
  | Some c => Ascii.eqb d c
  | None => false
  end.
Proof.
  unfold strings.HasSuffix. change (strings.rev (String d "")) with (String d "").
  now rewrite prefix_byte, firstByte_rev.
Qed.

Lemma TrimLeft_id (s cutset : string) (c : ascii) :
  firstByte s = Some c -> strings.contains_byte cutset c = false ->
  strings.TrimLeft s cutset = s.
Proof.
  destruct s as [|x s]; [discriminate|]. intros H Hc. injection H as ->.
  cbn [strings.TrimLeft]. now rewrite Hc.
Qed.

Lemma TrimRight_id (s cutset : string) (c : ascii) :
  lastByte s = Some c -> strings.contains_byte cutset c = false ->
  strings.TrimRight s cutset = s.
Proof.
  intros H Hc. unfold strings.TrimRight.
  rewrite (TrimLeft_id _ _ c); [apply strings_rev_involutive| |exact Hc].
  now rewrite firstByte_rev.
Qed.

Lemma prefix_contains (a s : string) (d : ascii) :
  String.prefix a s = true -> strings.contains_byte a d = true ->
  strings.contains_byte s d = true.
Proof.
  revert s. induction a as [|x a IH]; intros s Hp Hc; [discriminate|].
  destruct s as [|y s]; [discriminate|]. cbn [String.prefix] in Hp.
  destruct (ascii_dec x y) as [->|]; [|discriminate].
  cbn [strings.contains_byte] in *.
  apply orb_true_iff in Hc as [Hc|Hc]; [now rewrite Hc|].
  rewrite (IH s Hp Hc). apply orb_true_r.
Qed.

Lemma ReplaceAll_absent (s old new : string) (d : ascii) :
  strings.contains_byte old d = true -> strings.contains_byte s d = false ->
  strings.ReplaceAll s old new = s.
Proof.
  intros Ho Hs. unfold strings.ReplaceAll.
  destruct old as [|o old]; [reflexivity|]. set (old' := String o old) in *.
  induction s as [|c s IH]; [reflexivity|].
  cbn [strings.ReplaceAll_from].
  destruct (String.prefix old' (String c s)) eqn:Hp.
  - rewrite (prefix_contains _ _ d Hp Ho) in Hs. discriminate.
  - cbn [strings.contains_byte] in Hs. apply orb_false_iff in Hs as [_ Hs].
    now rewrite IH.
Qed.

Lemma ReplaceAll_substByte (s : string) (a : ascii) (new : string) :
  strings.ReplaceAll s (String a "") new = substByte a new s.
Proof.
  unfold strings.ReplaceAll.
  induction s as [|c s IH]; [reflexivity|].
  cbn [strings.ReplaceAll_from substByte]. rewrite prefix_byte. cbn [firstByte].
  change (String.length (String a "") - 1)%nat with 0%nat.
  rewrite (Ascii.eqb_sym a c), IH. reflexivity.
Qed.

Lemma contains_byte_substByte (a : ascii) (new s : string) (d : ascii) :
  strings.contains_byte s d = false -> strings.contains_byte new d = false ->
  strings.contains_byte (substByte a new s) d = false.
Proof.
  intros Hs Hn. induction s as [|c s IH]; [reflexivity|].
  cbn [strings.contains_byte substByte] in *.
  apply orb_false_iff in Hs as [Hc Hs].
  destruct (Ascii.eqb c a).
  - rewrite contains_byte_app, Hn. now apply IH.
  - cbn [strings.contains_byte]. rewrite Hc. now apply IH.
Qed.

Lemma lastByte_cons_cons (x y : ascii) (s : string) :
  lastByte (String x (String y s)) = lastByte (String y s).
Proof. reflexivity. Qed.

Lemma lastByte_append (a b : string) :
  lastByte (a ++ b) = match lastByte b with Some c => Some c | None => lastByte a end.
Proof.
  destruct b as [|y b].
  - now rewrite append_nil_r.
  - destruct (lastByte_cons y b) as (z & Hz). rewrite Hz.
    induction a as [|x a IH]; [exact Hz|].
    cbn [String.append].
    destruct (a ++ String y b)%string eqn:E; [destruct a; discriminate|].
    now rewrite lastByte_cons_cons.
Qed.

Lemma lastByte_substByte (a : ascii) (new s : string) :
  lastByte new = Some a -> lastByte (substByte a new s) = lastByte s.
Proof.
  intros Hn. induction s as [|c s IH]; [reflexivity|].
  cbn [substByte].
  destruct (Ascii.eqb c a) eqn:E.
  - apply Ascii.eqb_eq in E. subst c.
    rewrite lastByte_append, IH.
    destruct s as [|y s]; [exact Hn|].
    destruct (lastByte_cons y s) as (z & Hz).
    now rewrite lastByte_cons_cons, Hz.
  - destruct s as [|y s]; [reflexivity|].
    destruct (lastByte_cons y s) as (z & Hz).
    rewrite lastByte_cons_cons, Hz. rewrite Hz in IH.
    destruct (substByte a new (String y s)) eqn:Es; [discriminate|].
    now rewrite lastByte_cons_cons.
Qed.

(** * Parsing the expression of a literal rule *)

Lemma nextRune_ascii (c : ascii) (t : string) :
  (utf8.byteZ c < 128)%Z -> nextRune (String c t) = Ok (utf8.byteZ c, t).
Proof.
  intros H. unfold nextRune. rewrite decode_eq, decode_ascii by assumption.
  replace (utf8.byteZ c =? utf8.RuneError)%Z with false
    by (symmetry; apply Z.eqb_neq; unfold utf8.RuneError; lia).
  cbn [andb strings.drop]. now destruct t.
Qed.

Lemma parseEscape_dot (t : string) :
  parseEscape (String "\" (String "." t)) = Ok (46%Z, t).
Proof.
  unfold parseEscape. cbn [strings.drop].
  rewrite nextRune_ascii by (vm_compute; reflexivity). reflexivity.
Qed.

Lemma parseEscape_quest (t : string) :
  parseEscape (String "\" (String "?" t)) = Ok (63%Z, t).
Proof.
  unfold parseEscape. cbn [strings.drop].
  rewrite nextRune_ascii by (vm_compute; reflexivity). reflexivity.
Qed.

Lemma plainByte_ascii (c : ascii) : plainByte c = true -> (utf8.byteZ c < 128)%Z.
Proof.
  unfold plainByte. intros H.
  apply andb_true_iff in H as [H _]. apply andb_true_iff in H as [H _].
  now apply isAscii_lt.
Qed.

Ltac not_that_byte H :=
  match goal with
  | |- context [Ascii.eqb ?c ?d] =>
      let E := fresh "E" in
      destruct (Ascii.eqb c d) eqn:E;
      [apply Ascii.eqb_eq in E; subst c; vm_compute in H; discriminate H|]
  end.

Lemma parseLoop_plain (fuel : nat) (st : stack) (lr : bool) (c : ascii) (t : string) :
  plainByte c && negb (strings.contains_byte ".?" c) = true ->
  parseLoop (S fuel) st lr (String c t) =
  parseLoop fuel (Node (Literal (utf8.byteZ c)) :: st) false t.
Proof.
  intros H. cbn [parseLoop].
  repeat not_that_byte H.
  apply andb_true_iff in H as [H _]. apply plainByte_ascii in H.
  now rewrite nextRune_ascii.
Qed.

Lemma parseLoop_dot (fuel : nat) (st : stack) (lr : bool) (t : string) :
  parseLoop (S fuel) st lr (String "\" (String "." t)) =
  parseLoop fuel (Node (Literal 46%Z) :: st) false t.
Proof.
  cbn [parseLoop]. change (Ascii.eqb "\" "(") with false. cbv iota.
  cbn [Ascii.eqb Bool.eqb strings.contains_byte isClassEscape orb].
  now rewrite parseEscape_dot.
Qed.

Lemma parseLoop_quest (fuel : nat) (st : stack) (lr : bool) (t : string) :
  parseLoop (S fuel) st lr (String "\" (String "?" t)) =
  parseLoop fuel (Node (Literal 63%Z) :: st) false t.
Proof.
  cbn [parseLoop].
  cbn [Ascii.eqb Bool.eqb strings.contains_byte isClassEscape orb].
  now rewrite parseEscape_quest.
Qed.

Lemma substByte_app (a : ascii) (new s t : string) :
  substByte a new (s ++ t) = (substByte a new s ++ substByte a new t)%string.
Proof.
  induction s as [|c s IH]; [reflexivity|].
  cbn [String.append substByte]. rewrite IH.
  destruct (Ascii.eqb c a); [now rewrite append_assoc|reflexivity].
Qed.

Lemma escapeLiteral_cons (c : ascii) (p : string) :
  escapeLiteral (String c p) = (escapeByte c ++ escapeLiteral p)%string.
Proof.
  unfold escapeLiteral, escapeByte. cbn [substByte].
  destruct (Ascii.eqb c ".") eqn:Ed.
  - apply Ascii.eqb_eq in Ed. subst c. now rewrite substByte_app.
  - cbn [substByte]. now destruct (Ascii.eqb c "?").
Qed.

Lemma litStack_cons (x : Z) (P : list Z) (st : stack) :
  litStack (x :: P) ++ st = litStack P ++ Node (Literal x) :: st.
Proof.
  unfold litStack. cbn [map rev]. rewrite map_app, <- app_assoc. reflexivity.
Qed.

Lemma parseLoop_literal (p : string) :
  allBytes plainByte p = true ->
  forall fuel st tail,
    (String.length (escapeLiteral p) + String.length tail < fuel)%nat ->
    exists fuel',
      (String.length tail < fuel')%nat /\
      parseLoop fuel st false (escapeLiteral p ++ tail) =
      parseLoop fuel' (litStack (bytesZ p) ++ st) false tail.
Proof.
  induction p as [|c p IH]; intros Hp fuel st tail Hfuel.
  - exists fuel. split; [exact Hfuel|reflexivity].
  - cbn [allBytes] in Hp. apply andb_true_iff in Hp as [Hc Hp].
    rewrite escapeLiteral_cons in *. rewrite append_assoc.
    rewrite length_append in Hfuel.
    cbn [bytesZ]. rewrite litStack_cons.
    unfold escapeByte in *.
    destruct (Ascii.eqb c ".") eqn:Ed.
    { apply Ascii.eqb_eq in Ed. subst c. cbn [String.length] in Hfuel.
      destruct fuel as [|fuel]; [lia|].
      cbn [String.append]. rewrite parseLoop_dot.
      apply IH; [exact Hp|lia]. }
    destruct (Ascii.eqb c "?") eqn:Eq.
    { apply Ascii.eqb_eq in Eq. subst c. cbn [String.length] in Hfuel.
      destruct fuel as [|fuel]; [lia|].
      cbn [String.append]. rewrite parseLoop_quest.
      apply IH; [exact Hp|lia]. }
    cbn [String.length] in Hfuel.
    destruct fuel as [|fuel]; [lia|].
    cbn [String.append]. rewrite parseLoop_plain.
    + apply IH; [exact Hp|lia].
    + rewrite Hc. cbn [strings.contains_byte]. now rewrite Ed, Eq.
Qed.

Lemma popNodes_nodes (res : list Regexp) (st : stack) (acc : list Regexp) :
  popNodes (map Node res ++ st) acc = popNodes st (rev res ++ acc).
Proof.
  revert acc. induction res as [|re res IH]; intros acc; [reflexivity|].
  cbn [map app popNodes rev]. rewrite IH, <- app_assoc. reflexivity.
Qed.

Lemma popNodes_litStack (P : list Z) (st : stack) (acc : list Regexp) :
  popNodes (litStack P ++ st) acc = popNodes st (map Literal P ++ acc).
Proof. unfold litStack. now rewrite popNodes_nodes, rev_involutive. Qed.

(** The end of the expression on top of the literals. *)
Lemma parseLoop_close (fuel : nat) (PRE SUF : Regexp) (P : list Z) :
  parseLoop (S fuel)
    (Node EndText :: Node SUF :: litStack P ++ [Node PRE; Node BeginText])
    false "" =
  Ok (collapseConcat (BeginText :: PRE :: map Literal P ++ [SUF; EndText])).
Proof.
  cbn [parseLoop]. unfold closeAlternation, concat.
  cbn [popNodes]. rewrite popNodes_litStack. cbn [popNodes].
  reflexivity.
Qed.


(** * [assemble] on a literal rule *)

Lemma assemble_steps (line : string) :
  assemble line =
  let line := strings.TrimRight line (String bufio.CR "") in
  if strings.HasPrefix line "#" then None else
  let line := strings.Trim line " " in
  if String.eqb line "" then None else
  let negatePattern := strings.HasPrefix line "!" in
  let line := if negatePattern then strings.drop 1 line else line in
  Some (negatePattern, wrap (translate (anchor (unmark line)))).
Proof. reflexivity. Qed.

Lemma allBytes_contains (f : ascii -> bool) (s : string) (c : ascii) :
  allBytes f s = true -> strings.contains_byte s c = true -> f c = true.
Proof.
  induction s as [|x s IH]; [discriminate|]. cbn [allBytes strings.contains_byte].
  intros H Hc. apply andb_true_iff in H as [Hx Hs].
  apply orb_true_iff in Hc as [Hc|Hc]; [|now apply IH].
  apply Ascii.eqb_eq in Hc. now subst.
Qed.

Lemma allBytes_absent (f : ascii -> bool) (s : string) (c : ascii) :
  allBytes f s = true -> f c = false -> strings.contains_byte s c = false.
Proof.
  intros H Hc. destruct (strings.contains_byte s c) eqn:E; [|reflexivity].
  rewrite (allBytes_contains f s c H E) in Hc. discriminate.
Qed.

Lemma allBytes_weaken (f g : ascii -> bool) (s : string) :
  (forall c, f c = true -> g c = true) -> allBytes f s = true -> allBytes g s = true.
Proof.
  intros Hfg. induction s as [|c s IH]; [reflexivity|]. cbn [allBytes].
  intros H. apply andb_true_iff in H as [Hc Hs]. now rewrite (Hfg c Hc), IH.
Qed.

Lemma plainByte_isAscii (c : ascii) : plainByte c = true -> isAscii c = true.
Proof.
  unfold plainByte. intros H.
  apply andb_true_iff in H as [H _]. now apply andb_true_iff in H as [H _].
Qed.

Lemma In_bytesZ (x : Z) (s : string) :
  In x (bytesZ s) ->
  exists c, utf8.byteZ c = x /\ strings.contains_byte s c = true.
Proof.
  induction s as [|c s IH]; [contradiction|]. cbn [bytesZ In strings.contains_byte].
  intros [H|H].
  - exists c. now rewrite Ascii.eqb_refl.
  - apply IH in H as (c' & Hc & Hin). exists c'. rewrite Hin. now rewrite orb_true_r.
Qed.

Lemma literalRule_facts (p : string) :
  literalRule p = true -> exists a z, PlainFacts p a z.
Proof.
  unfold literalRule, plainText. intros H.
  apply andb_true_iff in H as [H Hbody]. apply andb_true_iff in H as [Hp H].
  destruct (firstByte p) as [a|] eqn:Ha; [|discriminate].
  destruct (lastByte p) as [z|] eqn:Hz; [|discriminate].
  apply andb_true_iff in H as [H H3]. apply andb_true_iff in H as [H1 H2].
  apply negb_true_iff in H1, H2, H3, Hbody. apply String.eqb_neq in Hbody.
  exists a, z. now constructor.
Qed.

Lemma Matches_anyBelowDirectory b w rest :
  Matches anyBelowDirectory b w rest <-> Forall (fun x => x <> 10%Z) w.
Proof.
  unfold anyBelowDirectory.
  rewrite Matches_Capture, Matches_Alternate, Matches_Empty, Matches_Star_Any.
  split; [intros [->|H]; [constructor|exact H]|now right].
Qed.

Lemma Matches_suffixGroup (directory : bool) b w rest :
  Matches (suffixGroup directory) b w rest <-> suffixWords directory w.
Proof.
  destruct directory; [apply Matches_anyBelowDirectory|apply Matches_anyBelow].
Qed.

Lemma below_runes (directory : bool) (s : string) :
  below directory s = true <-> suffixWords directory (regexp.runes s).
Proof.
  destruct directory; [apply lineFree_runes|apply segmentStart_runes].
Qed.

Lemma Matches_rootSlash b w rest :
  Matches rootSlash b w rest <-> w = [] \/ w = [47%Z].
Proof.
  unfold rootSlash.
  now rewrite Matches_Capture, Matches_Alternate, Matches_Empty, Matches_Literal.
Qed.

Lemma Matches_prefixGroup (anchored : bool) b w rest :
  Matches (prefixGroup anchored) b w rest <-> prefixWords anchored w.
Proof.
  destruct anchored; [apply Matches_rootSlash|apply Matches_anySegments].
Qed.

Lemma atRoot_runes (s : string) :
  atRoot s = true <-> regexp.runes s = [] \/ regexp.runes s = [47%Z].
Proof.
  unfold atRoot. rewrite orb_true_iff, !String.eqb_eq. split.
  - intros [->| ->]; [now left|now right].
  - intros [H|H].
    + left. now apply runes_nil_inv.
    + right. apply (runes_split s []) in H as (s1 & c & s2 & -> & Hc & Hs1 & Hs2);
        [|lia].
      apply runes_nil_inv in Hs1, Hs2. subst s1 s2.
      rewrite <- byteZ_slash in Hc. apply byteZ_inj in Hc. now subst c.
Qed.

Lemma above_runes (anchored : bool) (s : string) :
  above anchored s = true <-> prefixWords anchored (regexp.runes s).
Proof.
  destruct anchored; [apply atRoot_runes|apply segmentEnd_runes].
Qed.

Lemma parseLoop_prefix (anchored : bool) (fuel : nat) (t : string) :
  parseLoop (7 + fuel) [] false (prefixText anchored ++ t) =
  parseLoop (if anchored then 2 + fuel else fuel)
    [Node (prefixGroup anchored); Node BeginText] false t.
Proof. destruct anchored; reflexivity. Qed.

Lemma parseLoop_suffix (directory : bool) (fuel : nat) (st : stack) :
  parseLoop (7 + fuel) st false (suffixText directory) =
  parseLoop (if directory then S fuel else fuel)
    (Node EndText :: Node (suffixGroup directory) :: st) false "".
Proof. destruct directory; reflexivity. Qed.

Lemma Compile_plain (p : string) (anchored directory : bool) :
  allBytes plainByte p = true ->
  regexp.Compile (prefixText anchored ++ escapeLiteral p ++ suffixText directory) =
  Ok (collapseConcat
        (BeginText :: prefixGroup anchored :: map Literal (bytesZ p)
           ++ [suffixGroup directory; EndText])).
Proof.
  intros Hp. unfold regexp.Compile, syntax.Parse.
  rewrite !length_append.
  set (m := String.length (prefixText anchored)).
  set (n := String.length (suffixText directory)).
  set (e := String.length (escapeLiteral p)).
  assert (Hm : (m = if anchored then 5 else 7)%nat)
    by (subst m; now destruct anchored).
  assert (Hn : (n = if directory then 6 else 7)%nat)
    by (subst n; now destruct directory).
  replace (m + (e + n) + 1)%nat
    with (7 + (m + e + n - 6))%nat by (destruct anchored, directory; lia).
  rewrite parseLoop_prefix.
  destruct (parseLoop_literal p Hp
              (if anchored then 2 + (m + e + n - 6) else m + e + n - 6)%nat
              [Node (prefixGroup anchored); Node BeginText]
              (suffixText directory))
    as (fuel' & Hf & ->).
  { fold e n. destruct anchored, directory; lia. }
  fold n in Hf.
  replace fuel' with (7 + (fuel' - 7))%nat by (destruct directory; lia).
  rewrite parseLoop_suffix.
  destruct directory.
  - apply parseLoop_close.
  - replace (fuel' - 7)%nat with (S (fuel' - 8)) by lia. apply parseLoop_close.
Qed.

Lemma re_marks :
  regexp.MustCompile "^([#!])" =
  Concat BeginText (Capture (CharClass false [(35, 35); (33, 33)]%Z)).
Proof. reflexivity. Qed.

Lemma re_folder :
  regexp.MustCompile "([^/+])/.*\*\." =
  Concat (Capture (CharClass true [(47, 47); (43, 43)]%Z))
    (Concat (Literal 47)
       (Concat (Star AnyCharNotNL) (Concat (Literal 42) (Literal 46)))).
Proof. reflexivity. Qed.

Section Plain.

Variables (p : string) (a z : ascii).
Hypothesis facts : PlainFacts p a z.

Lemma literal_ascii : allBytes isAscii p = true.
Proof. apply (allBytes_weaken plainByte); [apply plainByte_isAscii|apply facts]. Qed.

Lemma literal_nonempty : p <> "".
Proof. intros ->. pose proof (pf_first _ _ _ facts). discriminate. Qed.

Lemma literal_body_plain : allBytes plainByte (ruleBody p) = true.
Proof.
  pose proof (pf_plain _ _ _ facts) as Hp. unfold ruleBody.
  destruct (beginsWithSlash p); [|exact Hp].
  destruct p as [|c p']; [reflexivity|]. cbn [allBytes] in Hp.
  apply andb_true_iff in Hp as [_ Hp]. now destruct p'.
Qed.

Lemma literal_body_ascii : allBytes isAscii (ruleBody p) = true.
Proof.
  apply (allBytes_weaken plainByte);
    [apply plainByte_isAscii|apply literal_body_plain].
Qed.

Lemma literal_unmark : unmark p = p.
Proof.
  unfold unmark.
  destruct (regexp.MatchString _ p) eqn:Hm; [exfalso|reflexivity].
  rewrite re_marks in Hm. apply MatchString_Found in Hm.
  destruct Hm as (before & w & rest & Hr & Hm).
  apply Matches_Concat in Hm as (w1 & w2 & -> & H1 & H2).
  apply Matches_Begin in H1 as [Hb ->]. destruct before; [|discriminate].
  apply Matches_Capture, Matches_Class in H2 as (x & -> & Hx).
  pose proof (pf_plain _ _ _ facts) as Hp.
  pose proof (pf_first _ _ _ facts) as Ha.
  pose proof (pf_first_ok _ _ _ facts) as Hok.
  destruct p as [|c p']; [discriminate|]. injection Ha as ->.
  cbn [allBytes] in Hp. apply andb_true_iff in Hp as [Hc _].
  apply plainByte_ascii in Hc.
  rewrite runes_cons_ascii in Hr by assumption.
  injection Hr as Hx' _. subst x.
  unfold regexp.inClass, regexp.inRange in Hx. cbn [xorb existsb fst snd] in Hx.
  rewrite orb_false_r in Hx.
  assert (Hcases : utf8.byteZ a = 35%Z \/ utf8.byteZ a = 33%Z).
  { apply orb_true_iff in Hx as [Hx|Hx]; apply andb_true_iff in Hx as [H1 H2];
      apply Z.leb_le in H1, H2; lia. }
  destruct Hcases as [Hc'|Hc'].
  - change 35%Z with (utf8.byteZ "#") in Hc'. apply byteZ_inj in Hc'. now subst a.
  - change 33%Z with (utf8.byteZ "!") in Hc'. apply byteZ_inj in Hc'. now subst a.
Qed.

Lemma literal_no_star : strings.contains_byte p "*" = false.
Proof. apply (allBytes_absent plainByte); [apply facts|reflexivity]. Qed.

Lemma literal_anchor : anchor p = p.
Proof.
  unfold anchor.
  destruct (regexp.MatchString _ p) eqn:Hm; [exfalso|reflexivity].
  rewrite re_folder in Hm. apply MatchString_Found in Hm.
  destruct Hm as (before & w & rest & Hr & Hm).
  apply Matches_Concat in Hm as (w1 & w2 & -> & _ & Hm).
  apply Matches_Concat in Hm as (w3 & w4 & -> & _ & Hm).
  apply Matches_Concat in Hm as (w5 & w6 & -> & _ & Hm).
  apply Matches_Concat in Hm as (w7 & w8 & -> & Hm & _).
  apply Matches_Literal in Hm. subst w7.
  rewrite (runes_ascii p literal_ascii) in Hr.
  assert (Hin : In 42%Z (bytesZ p)).
  { rewrite Hr, !in_app_iff. simpl. tauto. }
  apply In_bytesZ in Hin as (c & Hc & Hin).
  change 42%Z with (utf8.byteZ "*") in Hc. apply byteZ_inj in Hc. subst c.
  rewrite literal_no_star in Hin. discriminate.
Qed.

Lemma ReplaceAllString_literal (pat text src repl : string) :
  regexp.literalText (regexp.MustCompile pat) = Some text ->
  regexp.ReplaceAllString (regexp.MustCompile pat) src repl =
  strings.ReplaceAll src text repl.
Proof. intros H. unfold regexp.ReplaceAllString. now rewrite H. Qed.

Lemma escaped_no_star : strings.contains_byte (substByte "." "\." p) "*" = false.
Proof. apply contains_byte_substByte; [apply literal_no_star|reflexivity]. Qed.

Lemma literal_escaped_absent (d : ascii) :
  plainByte d = false -> strings.contains_byte "\.?" d = false ->
  strings.contains_byte (escapeLiteral p) d = false.
Proof.
  intros Hd Hn. unfold escapeLiteral.
  cbn [strings.contains_byte] in Hn.
  apply orb_false_iff in Hn as [H1 Hn]. apply orb_false_iff in Hn as [H2 Hn].
  apply orb_false_iff in Hn as [H3 _].
  apply contains_byte_substByte; [apply contains_byte_substByte|].
  - now apply (allBytes_absent plainByte); [apply facts|].
  - cbn [strings.contains_byte]. now rewrite H1, H2.
  - cbn [strings.contains_byte]. now rewrite H1, H3.
Qed.

Lemma literal_translate : translate p = escapeLiteral p.
Proof.
  unfold translate. cbv zeta.
  rewrite (ReplaceAllString_literal "\." "." _ _ eq_refl).
  rewrite !ReplaceAll_substByte.
  pose proof escaped_no_star as Hs.
  replace (strings.HasPrefix (substByte "." "\." p) "/**/") with false.
  2:{ symmetry. unfold strings.HasPrefix.
      destruct (String.prefix "/**/" _) eqn:E; [|reflexivity].
      rewrite (prefix_contains _ _ "*" E eq_refl) in Hs. discriminate. }
  cbv iota.
  rewrite (ReplaceAllString_literal "/\*\*/" "/**/" _ _ eq_refl).
  rewrite (ReplaceAll_absent _ "/**/" _ "*" eq_refl Hs).
  rewrite (ReplaceAllString_literal "\*\*/" "**/" _ _ eq_refl).
  rewrite (ReplaceAll_absent _ "**/" _ "*" eq_refl Hs).
  rewrite (ReplaceAllString_literal "/\*\*" "/**" _ _ eq_refl).
  rewrite (ReplaceAll_absent _ "/**" _ "*" eq_refl Hs).
  rewrite (ReplaceAllString_literal "\\\*" "\*" _ _ eq_refl).
  rewrite (ReplaceAll_absent _ "\*" _ "*" eq_refl Hs).
  rewrite (ReplaceAllString_literal "\*" "*" _ _ eq_refl).
  rewrite (ReplaceAll_absent _ "*" _ "*" eq_refl Hs).
  fold (escapeLiteral p).
  apply (ReplaceAll_absent _ magicStar _ "$" eq_refl).
  now apply literal_escaped_absent.
Qed.

Lemma literal_escaped_last : lastByte (escapeLiteral p) = Some z.
Proof.
  unfold escapeLiteral. rewrite !lastByte_substByte by reflexivity. apply facts.
Qed.

Lemma literal_escaped_body :
  escapeLiteral p =
  ((if beginsWithSlash p then "/" else "") ++ escapeLiteral (ruleBody p))%string.
Proof.
  unfold ruleBody, beginsWithSlash.
  destruct p as [|c p']; [reflexivity|]. cbn [firstByte].
  destruct (Ascii.eqb c "/") eqn:E; [|reflexivity].
  apply Ascii.eqb_eq in E. subst c.
  rewrite escapeLiteral_cons. now destruct p'.
Qed.

Lemma literal_escaped_prefix (s : string) :
  strings.HasPrefix (escapeLiteral p ++ s) "/" = beginsWithSlash p.
Proof.
  pose proof (pf_first _ _ _ facts) as Ha.
  destruct p as [|c p']; [discriminate|]. injection Ha as ->.
  rewrite HasPrefix_byte, firstByte_app, escapeLiteral_cons, firstByte_app.
  unfold escapeByte, beginsWithSlash. cbn [firstByte].
  destruct (Ascii.eqb a ".") eqn:Ed;
    [apply Ascii.eqb_eq in Ed; now subst a|].
  destruct (Ascii.eqb a "?") eqn:Eq;
    [apply Ascii.eqb_eq in Eq; now subst a|].
  cbn [firstByte]. apply Ascii.eqb_sym.
Qed.

Lemma literal_wrap :
  wrap (escapeLiteral p) =
  (prefixText (beginsWithSlash p) ++ escapeLiteral (ruleBody p)
     ++ suffixText (endsWithSlash p))%string.
Proof.
  unfold wrap. cbv zeta.
  rewrite HasSuffix_byte, literal_escaped_last, (Ascii.eqb_sym "/" z).
  assert (He : endsWithSlash p = Ascii.eqb z "/")
    by (unfold endsWithSlash; now rewrite (pf_last _ _ _ facts)).
  rewrite <- He.
  replace (if endsWithSlash p
           then (escapeLiteral p ++ "(|.*)$")%string
           else (escapeLiteral p ++ "(|/.*)$")%string)
    with (escapeLiteral p ++ suffixText (endsWithSlash p))%string
    by now destruct (endsWithSlash p).
  rewrite literal_escaped_prefix.
  destruct (beginsWithSlash p) eqn:Hb; cbn [prefixText].
  - rewrite literal_escaped_body, Hb. reflexivity.
  - unfold ruleBody. now rewrite Hb.
Qed.

Lemma literal_assemble :
  assemble p =
  Some (false,
        (prefixText (beginsWithSlash p) ++ escapeLiteral (ruleBody p)
           ++ suffixText (endsWithSlash p))%string).
Proof.
  rewrite assemble_steps. cbv zeta.
  pose proof (pf_first _ _ _ facts) as Ha.
  pose proof (pf_last _ _ _ facts) as Hz.
  pose proof (pf_first_ok _ _ _ facts) as Hfirst.
  pose proof (pf_last_sp _ _ _ facts) as Hzsp.
  pose proof (pf_last_cr _ _ _ facts) as Hcr.
  cbn [strings.contains_byte] in Hfirst.
  apply orb_false_iff in Hfirst as [Hhash Hfirst].
  apply orb_false_iff in Hfirst as [Hbang Hfirst].
  apply orb_false_iff in Hfirst as [Hsp _].
  rewrite (TrimRight_id p _ z Hz)
    by (cbn [strings.contains_byte]; now rewrite Hcr).
  rewrite HasPrefix_byte, Ha, (Ascii.eqb_sym "#" a), Hhash.
  unfold strings.Trim.
  rewrite (TrimLeft_id p _ a Ha)
    by (cbn [strings.contains_byte]; now rewrite Hsp).
  rewrite (TrimRight_id p _ z Hz)
    by (cbn [strings.contains_byte]; now rewrite Hzsp).
  replace (String.eqb p "") with false
    by (symmetry; apply String.eqb_neq; apply literal_nonempty).
  rewrite HasPrefix_byte, Ha, (Ascii.eqb_sym "!" a), Hbang.
  now rewrite literal_unmark, literal_anchor, literal_translate, literal_wrap.
Qed.

(** The scanner on a literal rule. *)

Lemma literal_lineFree : strings.contains_byte p bufio.LF = false.
Proof. apply (allBytes_absent plainByte); [apply facts|reflexivity]. Qed.

Lemma rawLines_one (s : string) :
  s <> "" -> strings.contains_byte s bufio.LF = false -> bufio.rawLines s = [s].
Proof.
  induction s as [|c s IH]; [contradiction|]. intros _ H.
  cbn [strings.contains_byte] in H. apply orb_false_iff in H as [Hc Hs].
  cbn [bufio.rawLines]. rewrite Ascii.eqb_sym, Hc.
  destruct s as [|y s]; [reflexivity|].
  rewrite IH by (discriminate || assumption). reflexivity.
Qed.

Lemma literal_dropCR : bufio.dropCR p = p.
Proof.
  unfold bufio.dropCR. rewrite HasSuffix_byte, (pf_last _ _ _ facts).
  now rewrite (Ascii.eqb_sym bufio.CR z), (pf_last_cr _ _ _ facts).
Qed.

Lemma literal_Scan :
  bufio.Scan p =
  if (bufio.MaxScanTokenSize <=? Z.of_nat (String.length p))%Z
  then ([], Some bufio.ErrTooLong) else ([p], None).
Proof.
  unfold bufio.Scan. rewrite (rawLines_one p literal_nonempty literal_lineFree).
  cbn [bufio.scanLines]. now rewrite literal_dropCR.
Qed.

(** The rule set of a plain text. *)
Lemma literal_NewFromLines :
  NewFromLines [p] =
  if (bufio.MaxScanTokenSize <=? Z.of_nat (String.length p))%Z
  then Fails (Wrapped (ErrScanningFile bufio.ErrTooLong))
  else Returns (mkFile [mkPattern (plainExpr p) false]).
Proof.
  unfold NewFromLines, xstrings.JoinWithSeparator. cbn [strings.Join].
  unfold pattern.Parse. rewrite literal_Scan.
  destruct (bufio.MaxScanTokenSize <=? _)%Z; [reflexivity|].
  cbn [parseLines]. rewrite literal_assemble.
  rewrite Compile_plain by apply literal_body_plain. reflexivity.
Qed.

(** The paths that the expression of a literal rule accepts. *)
Lemma literal_accepts (path : string) :
  regexp.MatchString (plainExpr p) path = true <-> holdsRule p path.
Proof.
  rewrite MatchString_Found. unfold plainExpr, holdsRule.
  apply (Found_literal_bytes
           (prefixGroup (beginsWithSlash p)) (suffixGroup (endsWithSlash p))
           (prefixWords (beginsWithSlash p)) (suffixWords (endsWithSlash p))
           (above (beginsWithSlash p)) (below (endsWithSlash p))).
  - apply facts.
  - apply literal_body_ascii.
  - apply Matches_prefixGroup.
  - apply Matches_suffixGroup.
  - apply above_runes.
  - apply below_runes.
Qed.

Lemma literal_Match (f : File) (goos : os.GOOS) (path : string) :
  NewFromLines [p] = Returns f ->
  (Match goos f path = true <-> holdsRule p (normalize goos path)).
Proof.
  rewrite literal_NewFromLines.
  destruct (bufio.MaxScanTokenSize <=? _)%Z; [discriminate|].
  intros H. injection H as <-.
  unfold Match. fold (normalize goos path). cbn [patterns matchLoop Regex Negate].
  rewrite <- literal_accepts.
  now destruct (regexp.MatchString (plainExpr p) (normalize goos path)).
Qed.

End Plain.

(** * Properties *)

(** ** The evaluation loop *)

Lemma matchLoop_orderFree (pats : list Pattern) (path : string) (matched : bool) :
  matchLoop pats path matched =
  (matched || existsb (positiveHit path) pats)
  && negb (existsb (negativeHit path) pats).
Proof.
  revert matched.
  induction pats as [|pat rest IH]; intros matched; simpl.
  - now rewrite orb_false_r, andb_true_r.
  - unfold positiveHit, negativeHit, accepts in *.
    destruct (regexp.MatchString (Regex pat) path) eqn:Hm;
      destruct (Negate pat) eqn:Hn; simpl; rewrite ?IH; simpl.
    + now rewrite andb_false_r.
    + now rewrite orb_true_r.
    + reflexivity.
    + reflexivity.
Qed.

Lemma Match_orderFree (goos : os.GOOS) (f : File) (path : string) :
  Match goos f path = orderFreeVerdict (patterns f) (normalize goos path).
Proof.
  unfold Match, orderFreeVerdict. fold (normalize goos path).
  now rewrite matchLoop_orderFree.
Qed.

Lemma existsb_Permutation {A : Type} (p : A -> bool) (l l' : list A) :
  Permutation l l' -> existsb p l = existsb p l'.
Proof.
  induction 1; simpl.
  - reflexivity.
  - now rewrite IHPermutation.
  - now rewrite !orb_assoc, (orb_comm (p y) (p x)).
  - congruence.
Qed.

(** C10: the verdict of [Match] is the order-free one (some positive rule
    accepts the normalized path and no negation rule accepts it), hence it
    is the same for every permutation of the rules, and an empty rule set
    rejects every path. *)
Theorem C10_verdict_is_order_free (goos : os.GOOS) (path : string) :
  (forall f : File,
      Match goos f path = true <->
      (exists pat, In pat (patterns f) /\ Negate pat = false /\
                   accepts pat (normalize goos path) = true) /\
      (forall pat, In pat (patterns f) -> Negate pat = true ->
                   accepts pat (normalize goos path) = false)) /\
  (forall pats pats' : list Pattern,
      Permutation pats pats' ->
      Match goos (mkFile pats) path = Match goos (mkFile pats') path) /\
  Match goos (mkFile []) path = false.
Proof.
  split; [|split].
  - intros f. rewrite Match_orderFree. unfold orderFreeVerdict.
    rewrite andb_true_iff, negb_true_iff, existsb_exists.
    split.
    + intros [[pat [Hin Hpos]] Hneg]. split.
      * exists pat. unfold positiveHit in Hpos.
        apply andb_true_iff in Hpos as [Hn Ha].
        apply negb_true_iff in Hn. auto.
      * intros pat' Hin' Hn'.
        destruct (accepts pat' (normalize goos path)) eqn:Ha; [|reflexivity].
        assert (existsb (negativeHit (normalize goos path)) (patterns f) = true)
          as Habs.
        { apply existsb_exists. exists pat'. unfold negativeHit.
          now rewrite Hn', Ha. }
        congruence.
    + intros [[pat [Hin [Hn Ha]]] Hneg]. split.
      * exists pat. unfold positiveHit. now rewrite Hn, Ha.
      * destruct (existsb (negativeHit (normalize goos path)) (patterns f))
          eqn:He; [|reflexivity].
        apply existsb_exists in He as [pat' [Hin' Hh]].
        unfold negativeHit in Hh. apply andb_true_iff in Hh as [Hn' Ha'].
        rewrite (Hneg pat' Hin' Hn') in Ha'. discriminate.
  - intros pats pats' Hperm. rewrite !Match_orderFree. simpl.
    unfold orderFreeVerdict.
    now rewrite (existsb_Permutation _ _ _ Hperm),
                (existsb_Permutation (negativeHit _) _ _ Hperm).
  - reflexivity.
Qed.

(** ** Path normalization *)

Lemma ReplaceAll_byte (a b : ascii) (s : string) :
  strings.ReplaceAll s (String a EmptyString) (String b EmptyString) =
  mapBytes (fun c => if Ascii.eqb c a then b else c) s.
Proof.
  unfold strings.ReplaceAll.
  induction s as [|c s IH]; simpl; [reflexivity|].
  destruct (ascii_dec a c) as [->|Hne].
  - rewrite Ascii.eqb_refl.
    replace (if String.prefix "" s then _ else _)
      with (String b (strings.ReplaceAll_from 0 s (String c "") (String b "")))
      by (destruct s; reflexivity).
    now rewrite IH.
  - destruct (Ascii.eqb c a) eqn:He.
    + apply Ascii.eqb_eq in He. congruence.
    + now rewrite IH.
Qed.

Lemma mapBytes_id (f : ascii -> ascii) (s : string) :
  (forall c, f c = c) -> mapBytes f s = s.
Proof.
  intros Hf. induction s as [|c s IH]; simpl; [reflexivity|].
  now rewrite Hf, IH.
Qed.

Lemma normalize_unix (path : string) : normalize os.unix path = path.
Proof.
  unfold normalize. cbn [os.PathSeparator]. rewrite ReplaceAll_byte.
  apply mapBytes_id. intros c.
  destruct (Ascii.eqb c "/") eqn:He; [|reflexivity].
  apply Ascii.eqb_eq in He. now subst.
Qed.

Lemma normalize_windows (path : string) :
  normalize os.windows path = mapBytes backslashToSlash path.
Proof. unfold normalize. cbn [os.PathSeparator]. now rewrite ReplaceAll_byte. Qed.

(** ** The evaluation protocol *)

Lemma matchLoop_skip (pat : Pattern) (rest : list Pattern) (path : string) (m : bool) :
  accepts pat path = false ->
  matchLoop (pat :: rest) path m = matchLoop rest path m.
Proof. unfold accepts. intros H. simpl. now rewrite H. Qed.

Lemma matchLoop_negation (pre : list Pattern) (pat : Pattern)
    (post : list Pattern) (path : string) (m : bool) :
  accepts pat path = true -> Negate pat = true ->
  matchLoop (pre ++ pat :: post) path m = false.
Proof.
  intros Ha Hn. rewrite matchLoop_orderFree.
  replace (existsb (negativeHit path) (pre ++ pat :: post)) with true.
  - now rewrite andb_false_r.
  - symmetry. apply existsb_exists. exists pat. split.
    + apply in_or_app. right. now left.
    + unfold negativeHit. now rewrite Hn, Ha.
Qed.

Lemma existsb_all_false {A : Type} (p : A -> bool) (l : list A) :
  (forall x, In x l -> p x = false) -> existsb p l = false.
Proof.
  intros H. destruct (existsb p l) eqn:He; [|reflexivity].
  apply existsb_exists in He as [x [Hin Hp]]. rewrite (H x Hin) in Hp.
  discriminate.
Qed.

(** C3: [Match] evaluates the rules on the path with its separators
    replaced by slashes; a negation rule that accepts the path ends the
    scan with [false], whatever preceded and whatever follows; a positive
    rule that accepts it sets the verdict and the scan goes on; a rule that
    does not accept it changes nothing; without an accepting negation rule
    the accumulated verdict is returned.  The rules ["*.log"] and
    ["!important.log"] reject ["important.log"]. *)
Theorem C3_scan_with_negation_short_circuit (goos : os.GOOS) :
  (forall f path, Match goos f path = Match os.unix f (normalize goos path)) /\
  (forall path, normalize os.windows path = mapBytes backslashToSlash path) /\
  (forall path, Match goos (mkFile []) path = false) /\
  (forall pre pat post post' path,
      (forall q, In q pre -> negativeHit (normalize goos path) q = false) ->
      accepts pat (normalize goos path) = true -> Negate pat = true ->
      Match goos (mkFile (pre ++ pat :: post)) path = false /\
      Match goos (mkFile (pre ++ pat :: post')) path = false) /\
  (forall pat rest path,
      accepts pat (normalize goos path) = true -> Negate pat = false ->
      Match goos (mkFile (pat :: rest)) path =
      matchLoop rest (normalize goos path) true) /\
  (forall pat rest path,
      accepts pat (normalize goos path) = false ->
      Match goos (mkFile (pat :: rest)) path = Match goos (mkFile rest) path) /\
  (forall pats path,
      (forall q, In q pats -> negativeHit (normalize goos path) q = false) ->
      Match goos (mkFile pats) path =
      existsb (positiveHit (normalize goos path)) pats) /\
  verdict goos ["*.log"; "!important.log"] "important.log" = Some false.
Proof.
  repeat split.
  - intros f path. unfold Match. fold (normalize goos path).
    fold (normalize os.unix (normalize goos path)).
    now rewrite normalize_unix.
  - apply normalize_windows.
  - unfold Match. simpl. now apply matchLoop_negation.
  - unfold Match. simpl. now apply matchLoop_negation.
  - intros pat rest path Ha Hn. unfold Match. fold (normalize goos path).
    unfold accepts in Ha. simpl. now rewrite Ha, Hn.
  - intros pat rest path Ha. unfold Match. fold (normalize goos path).
    simpl. now apply matchLoop_skip.
  - intros pats path Hneg. rewrite Match_orderFree. unfold orderFreeVerdict.
    simpl. rewrite (existsb_all_false _ _ Hneg). now rewrite andb_true_r.
  - destruct goos; vm_compute; reflexivity.
Qed.

Lemma C3_witness :
  Match os.unix
    (mkFile [mkPattern (Literal 97) false; mkPattern (Literal 98) true;
             mkPattern (Literal 97) false]) "ab" = false.
Proof.
  apply (proj1 (proj1 (proj2 (proj2 (proj2
           (C3_scan_with_negation_short_circuit os.unix))))
         [mkPattern (Literal 97) false] (mkPattern (Literal 98) true)
         [mkPattern (Literal 97) false] [] "ab"
         ltac:(intros q [<-|[]]; reflexivity) eq_refl eq_refl)).
Defined.

Lemma C10_witness :
  Match os.unix (mkFile [mkPattern (Literal 97) false; mkPattern (Literal 98) true]) "a"
  = Match os.unix (mkFile [mkPattern (Literal 98) true; mkPattern (Literal 97) false]) "a".
Proof.
  apply (proj1 (proj2 (C10_verdict_is_order_free os.unix "a"))).
  apply perm_swap.
Defined.

(** ** Scenarios *)

(** C4: with the rules ["*.txt"], ["!important/*.txt"] and
    ["important/temp/*.txt"] the path ["important/temp/data.txt"] is
    ignored: the matcher of the negation rule does not accept it, the two
    positive rules do. *)
Theorem C4_negation_between_matches (goos : os.GOOS) :
  verdict goos ["*.txt"; "!important/*.txt"; "important/temp/*.txt"]
          "important/temp/data.txt" = Some true /\
  exists r1 r2 r3,
    NewFromLines ["*.txt"; "!important/*.txt"; "important/temp/*.txt"] =
    Returns (mkFile [mkPattern r1 false; mkPattern r2 true; mkPattern r3 false]) /\
    regexp.MatchString r1 "important/temp/data.txt" = true /\
    regexp.MatchString r2 "important/temp/data.txt" = false /\
    regexp.MatchString r3 "important/temp/data.txt" = true.
Proof.
  split.
  - destruct goos; vm_compute; reflexivity.
  - do 3 eexists. split; [vm_compute; reflexivity|].
    repeat split; vm_compute; reflexivity.
Qed.

(** C5: the rule ["**/foo"] ignores ["foo"] and ["bar/foo"] and not
    ["bar/baz"]; the rule ["/**/foo"] ignores ["foo"], ["/foo"] and
    ["bar/foo"]. *)
Theorem C5_double_star (goos : os.GOOS) :
  verdict goos ["**/foo"] "foo" = Some true /\
  verdict goos ["**/foo"] "bar/foo" = Some true /\
  verdict goos ["**/foo"] "bar/baz" = Some false /\
  verdict goos ["/**/foo"] "foo" = Some true /\
  verdict goos ["/**/foo"] "/foo" = Some true /\
  verdict goos ["/**/foo"] "bar/foo" = Some true.
Proof. destruct goos; vm_compute; repeat split; reflexivity. Qed.

(** C9: the rule [\#abc] ignores the path ["#abc"], its matcher being the
    one of the literal text [#abc] (the expression [\#] denotes the hash
    sign alone); the line ["#abc"] is a comment: it yields no rule, and the
    resulting rule set ignores no path. *)
Theorem C9_escaped_comment (goos : os.GOOS) :
  verdict goos ["\#abc"] "#abc" = Some true /\
  (exists re, NewFromLines ["\#abc"] = Returns (mkFile [mkPattern re false]) /\
              regexp.Compile "^(|.*/)#abc(|/.*)$" = Ok re) /\
  NewFromLines ["#abc"] = Returns (mkFile []) /\
  (forall path, verdict goos ["#abc"] path = Some false).
Proof.
  split; [destruct goos; vm_compute; reflexivity|].
  split; [eexists; split; vm_compute; reflexivity|].
  split; [vm_compute; reflexivity|].
  intros path. unfold verdict.
  replace (NewFromLines ["#abc"]) with
    (Returns (E := gitignore.error) (mkFile [])) by (vm_compute; reflexivity).
  reflexivity.
Qed.

(** C2 (on the code): after the leading [!] of ["!#foo"] and of ["!!foo"]
    is removed, the next [#] or [!] is removed as well: both lines compile
    to the negation rule of the text [foo], whose matcher accepts ["foo"]
    and accepts neither ["#foo"] nor ["!foo"]. *)
Theorem C2_second_mark_is_dropped :
  assemble "!#foo" = Some (true, "^(|.*/)foo(|/.*)$") /\
  assemble "!!foo" = Some (true, "^(|.*/)foo(|/.*)$") /\
  exists re,
    NewFromLines ["!#foo"] = Returns (mkFile [mkPattern re true]) /\
    NewFromLines ["!!foo"] = Returns (mkFile [mkPattern re true]) /\
    regexp.MatchString re "#foo" = false /\
    regexp.MatchString re "!foo" = false /\
    regexp.MatchString re "foo" = true.
Proof.
  split; [vm_compute; reflexivity|].
  split; [vm_compute; reflexivity|].
  eexists. split; [vm_compute; reflexivity|].
  repeat split; vm_compute; reflexivity.
Qed.

(** ** Compile errors *)

Lemma parseLines_first_rejected (pre : list string) :
  forall n pats serr l post neg expr code,
    forallb lineCompiles pre = true ->
    assemble l = Some (neg, expr) ->
    regexp.Compile expr = Error code ->
    parseLines (pre ++ l :: post) n pats serr =
    Fails (ErrInvalidRegex expr (n + List.length pre + 1) code).
Proof.
  induction pre as [|a pre IH]; intros n pats serr l post neg expr code Hpre Ha Hc.
  - simpl. rewrite Ha, Hc. f_equal. f_equal. lia.
  - simpl in Hpre. apply andb_true_iff in Hpre as [Hl Hpre].
    unfold lineCompiles in Hl. simpl.
    destruct (assemble a) as [[neg' expr']|].
    + destruct (regexp.Compile expr'); try discriminate.
      rewrite (IH _ _ _ _ _ _ _ _ Hpre Ha Hc). f_equal. f_equal. lia.
    + rewrite (IH _ _ _ _ _ _ _ _ Hpre Ha Hc). f_equal. f_equal. lia.
Qed.

Lemma parseLines_rejected_never_returns (lines : list string) (l : string) :
  In l lines -> lineRejected l = true ->
  forall n pats serr ps, parseLines lines n pats serr <> Returns ps.
Proof.
  intros Hin Hrej.
  induction lines as [|a lines IH]; [contradiction|].
  intros n pats serr ps. simpl.
  destruct Hin as [->|Hin].
  - unfold lineRejected in Hrej.
    destruct (assemble l) as [[neg expr]|]; [|discriminate].
    destruct (regexp.Compile expr); discriminate.
  - destruct (assemble a) as [[neg expr]|].
    + destruct (regexp.Compile expr); try discriminate. now apply IH.
    + now apply IH.
Qed.

(** C8: when the expression assembled from a scanned line is rejected by
    [regexp.Compile] and the lines before it are skipped or compile,
    [NewFromLines] fails with [ErrRegexCompile] wrapping [ErrInvalidRegex],
    which carries the expression, the number of the line and the cause; a
    rejected line anywhere means that no rule set is returned.  The line
    ["[invalid-regex"] fails on line 1, alone or followed by a valid rule,
    and on its own line number when a valid rule precedes it. *)
Theorem C8_compile_error_aborts :
  (forall lines pre l post serr neg expr code,
      bufio.Scan (xstrings.JoinWithSeparator (String bufio.LF EmptyString) lines)
        = (pre ++ l :: post, serr) ->
      forallb lineCompiles pre = true ->
      assemble l = Some (neg, expr) ->
      regexp.Compile expr = Error code ->
      NewFromLines lines =
      Fails (ErrRegexCompile (ErrInvalidRegex expr (List.length pre + 1) code))) /\
  (forall lines scanned serr l,
      bufio.Scan (xstrings.JoinWithSeparator (String bufio.LF EmptyString) lines)
        = (scanned, serr) ->
      In l scanned -> lineRejected l = true ->
      forall f, NewFromLines lines <> Returns f) /\
  NewFromLines ["[invalid-regex"] =
    Fails (ErrRegexCompile
      (ErrInvalidRegex "^(|.*/)[invalid-regex(|/.*)$" 1 ErrMissingBracket)) /\
  NewFromLines ["[invalid-regex"; "*.tmp"] =
    Fails (ErrRegexCompile
      (ErrInvalidRegex "^(|.*/)[invalid-regex(|/.*)$" 1 ErrMissingBracket)) /\
  NewFromLines ["*.log"; "[invalid-regex"; "*.tmp"] =
    Fails (ErrRegexCompile
      (ErrInvalidRegex "^(|.*/)[invalid-regex(|/.*)$" 2 ErrMissingBracket)).
Proof.
  split; [|split; [|repeat split; vm_compute; reflexivity]].
  - intros lines pre l post serr neg expr code Hscan Hpre Ha Hc.
    unfold NewFromLines, pattern.Parse. rewrite Hscan.
    now rewrite (parseLines_first_rejected pre 0 [] serr l post neg expr code).
  - intros lines scanned serr l Hscan Hin Hrej f.
    unfold NewFromLines, pattern.Parse. rewrite Hscan.
    pose proof (parseLines_rejected_never_returns scanned l Hin Hrej 0 [] serr)
      as Hnever.
    destruct (parseLines scanned 0 [] serr) as [ps|err|]; try discriminate.
    + now contradiction (Hnever ps).
    + destruct err; discriminate.
Qed.

Lemma C8_witness :
  NewFromLines ["# rules"; "*.log"; "[z-a]"; "*.tmp"] =
  Fails (ErrRegexCompile
    (ErrInvalidRegex "^(|.*/)[z-a](|/.*)$" 3 ErrInvalidCharRange)).
Proof.
  apply (proj1 C8_compile_error_aborts
           ["# rules"; "*.log"; "[z-a]"; "*.tmp"] ["# rules"; "*.log"] "[z-a]"
           ["*.tmp"] None false "^(|.*/)[z-a](|/.*)$" ErrInvalidCharRange);
    vm_compute; reflexivity.
Defined.

(** ** Literal rules *)

Lemma literalRule_compiles (p : string) :
  literalRule p = true ->
  (Z.of_nat (String.length p) < bufio.MaxScanTokenSize)%Z ->
  NewFromLines [p] = Returns (mkFile [mkPattern (plainExpr p) false]).
Proof.
  intros Hp Hlen. destruct (literalRule_facts p Hp) as (a & z & facts).
  rewrite (literal_NewFromLines p a z facts).
  destruct (Z.leb_spec bufio.MaxScanTokenSize (Z.of_nat (String.length p)));
    [lia|reflexivity].
Qed.

Lemma literalRule_Match (goos : os.GOOS) (p : string) (f : File) (path : string) :
  literalRule p = true -> NewFromLines [p] = Returns f ->
  (Match goos f path = true <-> holdsRule p (normalize goos path)).
Proof.
  intros Hp Hf. destruct (literalRule_facts p Hp) as (a & z & facts).
  now apply (literal_Match p a z facts).
Qed.

Lemma holdsRule_relative (p path : string) :
  beginsWithSlash p = false -> endsWithSlash p = false ->
  holdsRule p path <-> holdsSegments p path.
Proof.
  intros Hb He. unfold holdsRule, holdsSegments, ruleBody.
  rewrite Hb, He. reflexivity.
Qed.

Lemma holdsRule_directory (p path : string) :
  beginsWithSlash p = false -> endsWithSlash p = true ->
  holdsRule p path <-> holdsDirectory p path.
Proof.
  intros Hb He. unfold holdsRule, holdsDirectory, ruleBody.
  rewrite Hb, He. reflexivity.
Qed.

(** ** Normalization and plain text *)

Lemma normalize_mapBytes (goos : os.GOOS) (path : string) :
  normalize goos path =
  mapBytes (fun c => if Ascii.eqb c (os.PathSeparator goos) then "/"%char else c) path.
Proof. unfold normalize. apply ReplaceAll_byte. Qed.

Lemma mapBytes_app (f : ascii -> ascii) (a b : string) :
  mapBytes f (a ++ b) = (mapBytes f a ++ mapBytes f b)%string.
Proof. induction a as [|c a IH]; simpl; [reflexivity|now rewrite IH]. Qed.

Lemma mapBytes_length (f : ascii -> ascii) (s : string) :
  String.length (mapBytes f s) = String.length s.
Proof. induction s as [|c s IH]; simpl; [reflexivity|now rewrite IH]. Qed.

Lemma normalize_app (goos : os.GOOS) (a b : string) :
  normalize goos (a ++ b) = (normalize goos a ++ normalize goos b)%string.
Proof. rewrite !normalize_mapBytes. apply mapBytes_app. Qed.

Lemma normalize_length (goos : os.GOOS) (s : string) :
  String.length (normalize goos s) = String.length s.
Proof. rewrite normalize_mapBytes. apply mapBytes_length. Qed.

Lemma normalize_plain (goos : os.GOOS) (s : string) :
  allBytes plainByte s = true -> normalize goos s = s.
Proof.
  rewrite normalize_mapBytes.
  induction s as [|c s IH]; [reflexivity|]. cbn [allBytes mapBytes].
  intros H. apply andb_true_iff in H as [Hc Hs]. rewrite (IH Hs). f_equal.
  destruct (Ascii.eqb c (os.PathSeparator goos)) eqn:E; [|reflexivity].
  apply Ascii.eqb_eq in E. subst c. destruct goos; [reflexivity|discriminate].
Qed.

Lemma normalize_lineFree (goos : os.GOOS) (s : string) :
  lineFree (normalize goos s) = lineFree s.
Proof.
  unfold lineFree. f_equal. rewrite normalize_mapBytes.
  induction s as [|c s IH]; [reflexivity|]. cbn [mapBytes strings.contains_byte].
  rewrite IH. f_equal.
  destruct (Ascii.eqb c (os.PathSeparator goos)) eqn:E; [|reflexivity].
  apply Ascii.eqb_eq in E. subst c. now destruct goos.
Qed.

(** ** Directory rules *)

Lemma directoryRule_literal (p : string) :
  directoryRule p = true ->
  literalRule p = true /\ beginsWithSlash p = false /\ endsWithSlash p = true.
Proof.
  unfold directoryRule. intros H.
  apply andb_true_iff in H as [H He]. apply andb_true_iff in H as [Hl Hb].
  now apply negb_true_iff in Hb.
Qed.

Lemma directoryRule_Match (goos : os.GOOS) (p : string) (f : File) :
  directoryRule p = true -> NewFromLines [p] = Returns f ->
  forall path,
    Match goos f path = true <-> holdsDirectory p (normalize goos path).
Proof.
  intros Hrule Hf path. apply directoryRule_literal in Hrule as (Hl & Hb & He).
  now rewrite (literalRule_Match goos p f path Hl Hf), holdsRule_directory.
Qed.

Lemma literalRule_allBytes (p : string) :
  literalRule p = true -> allBytes plainByte p = true.
Proof.
  intros H. destruct (literalRule_facts p H) as (a & z & facts). apply facts.
Qed.

Lemma directoryRule_below (goos : os.GOOS) (p : string) (f : File) (rest : string) :
  directoryRule p = true -> NewFromLines [p] = Returns f ->
  lineFree rest = true -> Match goos f (p ++ rest)%string = true.
Proof.
  intros Hrule Hf Hrest. apply (directoryRule_Match goos p f Hrule Hf).
  apply directoryRule_literal in Hrule as (Hl & _ & _).
  exists "", (normalize goos rest).
  rewrite normalize_app, (normalize_plain goos p (literalRule_allBytes p Hl)).
  repeat split. now rewrite normalize_lineFree.
Qed.

Lemma directoryRule_name (goos : os.GOOS) (name : string) (f : File) :
  directoryRule (name ++ "/") = true ->
  NewFromLines [(name ++ "/")%string] = Returns f ->
  Match goos f name = false.
Proof.
  intros Hrule Hf.
  destruct (Match goos f name) eqn:Hm; [exfalso|reflexivity].
  apply (directoryRule_Match goos _ f Hrule Hf) in Hm.
  destruct Hm as (before & after & E & _).
  apply (f_equal String.length) in E.
  rewrite normalize_length, !length_append in E. simpl in E. lia.
Qed.

(** ** The star *)

Lemma Matches_Star_Class negated ranges b w rest :
  Matches (Star (CharClass negated ranges)) b w rest <->
  Forall (fun x => regexp.inClass negated ranges x = true) w.
Proof.
  split.
  - intros H. remember (Star (CharClass negated ranges)) as re eqn:E.
    induction H; try discriminate E; injection E as ->.
    + constructor.
    + apply Forall_app. split; [|now apply IHMatches2].
      apply Matches_Class in H as (x & -> & Hx). now repeat constructor.
  - revert b. induction w as [|x w IH]; intros b H.
    + constructor.
    + inversion H; subst. change (x :: w) with ([x] ++ w).
      apply MStarMore; [now constructor|now apply IH].
Qed.

Lemma inClass_not_slash (x : Z) :
  regexp.inClass true [(47, 47)%Z] x = true <-> x <> 47%Z.
Proof.
  unfold regexp.inClass, regexp.inRange. cbn [existsb fst snd xorb].
  rewrite orb_false_r.
  destruct (Z.leb_spec 47 x); destruct (Z.leb_spec x 47); cbn [andb];
    split; (discriminate || lia || reflexivity).
Qed.

Lemma Matches_noSlashRun b w rest :
  Matches noSlashRun b w rest <-> Forall (fun x => x <> 47%Z) w.
Proof.
  unfold noSlashRun. rewrite Matches_Capture, Matches_Star_Class.
  split; intros H; eapply Forall_impl; try exact H; intros x; apply inClass_not_slash.
Qed.

Lemma Found_aStarC (s : list Z) :
  Found aStarC s <->
  exists u m v,
    s = u ++ 97%Z :: m ++ 99%Z :: v /\
    endsSegment u /\ Forall (fun x => x <> 47%Z) m /\ startsBelow v.
Proof.
  unfold Found, aStarC. split.
  - intros (before & w & rest & -> & H).
    apply Matches_collapseConcat_cons in H as (w0 & w1 & -> & H0 & H).
    apply Matches_Begin in H0 as [Hb ->]. destruct before; [|discriminate].
    apply Matches_collapseConcat_cons in H as (u & w2 & -> & Hu & H).
    apply Matches_anySegments in Hu.
    apply Matches_collapseConcat_cons in H as (la & w3 & -> & Ha & H).
    apply Matches_Literal in Ha. subst la.
    apply Matches_collapseConcat_cons in H as (m & w4 & -> & Hm & H).
    apply Matches_noSlashRun in Hm.
    apply Matches_collapseConcat_cons in H as (lc & w5 & -> & Hc & H).
    apply Matches_Literal in Hc. subst lc.
    apply Matches_collapseConcat_cons in H as (v & w6 & -> & Hv & H).
    apply Matches_anyBelow in Hv. cbn [collapseConcat] in H.
    apply Matches_End in H as [-> ->].
    exists u, m, v. simpl. rewrite !app_nil_r. auto.
  - intros (u & m & v & -> & Hu & Hm & Hv).
    exists [], (u ++ 97%Z :: m ++ 99%Z :: v), []. split; [now rewrite app_nil_r|].
    apply Matches_collapseConcat_cons. exists [], (u ++ 97%Z :: m ++ 99%Z :: v).
    split; [reflexivity|]. split; [now apply Matches_Begin|].
    apply Matches_collapseConcat_cons. exists u, (97%Z :: m ++ 99%Z :: v).
    split; [reflexivity|]. split; [now apply Matches_anySegments|].
    apply Matches_collapseConcat_cons. exists [97%Z], (m ++ 99%Z :: v).
    split; [reflexivity|]. split; [now apply Matches_Literal|].
    apply Matches_collapseConcat_cons. exists m, (99%Z :: v).
    split; [reflexivity|]. split; [now apply Matches_noSlashRun|].
    apply Matches_collapseConcat_cons. exists [99%Z], v.
    split; [reflexivity|]. split; [now apply Matches_Literal|].
    apply Matches_collapseConcat_cons. exists v, []. rewrite app_nil_r.
    split; [reflexivity|]. split; [now apply Matches_anyBelow|].
    cbn [collapseConcat]. now apply Matches_End.
Qed.

Lemma aStarC_accepts (path : string) :
  regexp.MatchString aStarC path = true <-> holdsRunBetween "a" "c" path.
Proof.
  rewrite MatchString_Found, Found_aStarC. unfold holdsRunBetween. split.
  - intros (u & m & v & Hr & Hu & Hm & Hv).
    apply runes_split in Hr as (s1 & c1 & s2 & -> & Hc1 & Hs1 & Hs2); [|lia].
    change 97%Z with (utf8.byteZ "a") in Hc1. apply byteZ_inj in Hc1. subst c1.
    apply runes_split in Hs2 as (run & c2 & after & -> & Hc2 & Hrun & Hafter); [|lia].
    change 99%Z with (utf8.byteZ "c") in Hc2. apply byteZ_inj in Hc2. subst c2.
    exists s1, run, after. subst u m v. split; [reflexivity|].
    split; [now apply segmentEnd_runes|].
    split; [|now apply segmentStart_runes].
    apply (byteFree_runes "/"); [rewrite byteZ_slash; lia|exact Hm].
  - intros (before & run & after & -> & Hb & Hrun & Ha).
    exists (regexp.runes before), (regexp.runes run), (regexp.runes after).
    split; [|split; [now apply segmentEnd_runes|split;
      [|now apply segmentStart_runes]]].
    + cbn [String.append].
      rewrite runes_app_boundary by (vm_compute; reflexivity).
      rewrite runes_cons_ascii by (vm_compute; reflexivity).
      rewrite runes_app_boundary by (vm_compute; reflexivity).
      rewrite runes_cons_ascii by (vm_compute; reflexivity).
      reflexivity.
    + apply (byteFree_runes "/") in Hrun; [exact Hrun|rewrite byteZ_slash; lia].
Qed.

Lemma NewFromLines_aStarC :
  NewFromLines ["a*c"] = Returns (mkFile [mkPattern aStarC false]).
Proof. vm_compute. reflexivity. Qed.

(** C6: the rule ["foo/"] ignores ["foo/"] and ["foo/bar"] and not the
    bare ["foo"].  In general the rule set of a literal directory rule [p]
    (plain bytes ending with a slash) ignores exactly the paths that hold
    [p] after whole segments and before text of one line: the directory
    path itself, anything of one line below it, and not the name without
    the slash. *)
Theorem C6_trailing_slash (goos : os.GOOS) :
  verdict goos ["foo/"] "foo/" = Some true /\
  verdict goos ["foo/"] "foo/bar" = Some true /\
  verdict goos ["foo/"] "foo" = Some false /\
  (forall name f,
      directoryRule (name ++ "/") = true ->
      NewFromLines [(name ++ "/")%string] = Returns f ->
      (forall path,
          Match goos f path = true <->
          holdsDirectory (name ++ "/") (normalize goos path)) /\
      Match goos f (name ++ "/") = true /\
      (forall rest, lineFree rest = true ->
                    Match goos f (name ++ "/" ++ rest) = true) /\
      Match goos f name = false).
Proof.
  split; [destruct goos; vm_compute; reflexivity|].
  split; [destruct goos; vm_compute; reflexivity|].
  split; [destruct goos; vm_compute; reflexivity|].
  intros name f Hrule Hf.
  split; [now apply directoryRule_Match|].
  split; [|split].
  - rewrite <- (append_nil_r (name ++ "/")).
    now apply directoryRule_below.
  - intros rest Hrest. rewrite <- append_assoc.
    now apply directoryRule_below.
  - now apply directoryRule_name.
Qed.

Lemma C6_witness :
  exists f,
    NewFromLines ["build/"] = Returns f /\
    Match os.unix f "build/" = true /\
    Match os.unix f "build/out/a.o" = true /\
    Match os.unix f "build" = false.
Proof.
  eexists. split; [vm_compute; reflexivity|].
  destruct (proj2 (proj2 (proj2 (C6_trailing_slash os.unix))) "build" _
              eq_refl ltac:(vm_compute; reflexivity)) as (_ & H1 & H2 & H3).
  split; [exact H1|]. split; [exact (H2 "out/a.o" eq_refl)|exact H3].
Defined.
(** * Literal rules in UTF-8 *)

(** ** The bytes of a rune *)

Section Utf8Encoding.

Import Utf8Spec.
Local Open Scope Z_scope.

(** A field of low bits joined to a number that has none of them. *)
Lemma lor_low (x b k : Z) :
  0 <= k -> 0 <= b < 2 ^ k -> x mod 2 ^ k = 0 -> Z.lor x b = x + b.
Proof.
  intros Hk Hb Hx.
  assert (Hland : Z.land x b = 0).
  { rewrite <- (Z.mod_small b (2 ^ k)) by lia.
    rewrite <- (Z.land_ones b k) by lia.
    rewrite (Z.land_comm b), Z.land_assoc, Z.land_ones by lia.
    rewrite Hx. apply Z.land_0_l. }
  rewrite <- Z.lxor_lor by exact Hland.
  symmetry. now apply Z.add_nocarry_lxor.
Qed.

Lemma field_value (z m lo k : Z) :
  0 <= k -> lo <= z < lo + 2 ^ k -> lo mod 2 ^ k = 0 -> m = Z.ones k ->
  Z.land z m = z - lo.
Proof.
  intros Hk Hz Hlo ->. rewrite Z.land_ones by exact Hk.
  assert (Hpos : 0 < 2 ^ k) by (apply Z.pow_pos_nonneg; lia).
  symmetry. apply (Z.mod_unique_pos z (2 ^ k) (lo / 2 ^ k)); [lia|].
  pose proof (Z.div_mod lo (2 ^ k)) as Hd. lia.
Qed.

Lemma cont_value (z : Z) : 128 <= z < 192 -> Z.land z utf8.maskx = z - 128.
Proof. intros H. now apply (field_value z _ 128 6). Qed.

Lemma head2_value (z : Z) : 192 <= z < 224 -> Z.land z utf8.mask2 = z - 192.
Proof. intros H. now apply (field_value z _ 192 5). Qed.

Lemma head3_value (z : Z) : 224 <= z < 240 -> Z.land z utf8.mask3 = z - 224.
Proof. intros H. now apply (field_value z _ 224 4). Qed.

Lemma head4_value (z : Z) : 240 <= z < 248 -> Z.land z utf8.mask4 = z - 240.
Proof. intros H. now apply (field_value z _ 240 3). Qed.

Lemma rune2_value (z0 z1 : Z) :
  192 <= z0 < 224 -> 128 <= z1 < 192 ->
  Z.lor (Z.shiftl (Z.land z0 utf8.mask2) 6) (Z.land z1 utf8.maskx) =
  (z0 - 192) * 64 + (z1 - 128).
Proof.
  intros H0 H1. rewrite head2_value, cont_value by assumption.
  rewrite Z.shiftl_mul_pow2 by lia. change (2 ^ 6) with 64.
  apply (lor_low _ _ 6); [lia|change (2 ^ 6) with 64; lia|].
  change (2 ^ 6) with 64. apply Z.mod_mul. lia.
Qed.

Lemma rune3_value (z0 z1 z2 : Z) :
  224 <= z0 < 240 -> 128 <= z1 < 192 -> 128 <= z2 < 192 ->
  Z.lor (Z.lor (Z.shiftl (Z.land z0 utf8.mask3) 12)
               (Z.shiftl (Z.land z1 utf8.maskx) 6))
        (Z.land z2 utf8.maskx) =
  (z0 - 224) * 4096 + (z1 - 128) * 64 + (z2 - 128).
Proof.
  intros H0 H1 H2. rewrite head3_value, !cont_value by assumption.
  rewrite !Z.shiftl_mul_pow2 by lia.
  change (2 ^ 12) with 4096. change (2 ^ 6) with 64.
  rewrite (lor_low ((z0 - 224) * 4096) ((z1 - 128) * 64) 12);
    [|lia|change (2 ^ 12) with 4096; lia|
     change (2 ^ 12) with 4096; apply Z.mod_mul; lia].
  apply (lor_low _ _ 6); [lia|change (2 ^ 6) with 64; lia|].
  change (2 ^ 6) with 64.
  replace ((z0 - 224) * 4096 + (z1 - 128) * 64)
    with (((z0 - 224) * 64 + (z1 - 128)) * 64) by lia.
  apply Z.mod_mul. lia.
Qed.

Lemma rune4_value (z0 z1 z2 z3 : Z) :
  240 <= z0 < 248 -> 128 <= z1 < 192 -> 128 <= z2 < 192 -> 128 <= z3 < 192 ->
  Z.lor (Z.lor (Z.lor (Z.shiftl (Z.land z0 utf8.mask4) 18)
                      (Z.shiftl (Z.land z1 utf8.maskx) 12))
               (Z.shiftl (Z.land z2 utf8.maskx) 6))
        (Z.land z3 utf8.maskx) =
  (z0 - 240) * 262144 + (z1 - 128) * 4096 + (z2 - 128) * 64 + (z3 - 128).
Proof.
  intros H0 H1 H2 H3. rewrite head4_value, !cont_value by assumption.
  rewrite !Z.shiftl_mul_pow2 by lia.
  change (2 ^ 18) with 262144. change (2 ^ 12) with 4096. change (2 ^ 6) with 64.
  rewrite (lor_low ((z0 - 240) * 262144) ((z1 - 128) * 4096) 18);
    [|lia|change (2 ^ 18) with 262144; lia|
     change (2 ^ 18) with 262144; apply Z.mod_mul; lia].
  rewrite (lor_low ((z0 - 240) * 262144 + (z1 - 128) * 4096)
             ((z2 - 128) * 64) 12); [|lia|change (2 ^ 12) with 4096; lia|].
  2:{ change (2 ^ 12) with 4096.
      replace ((z0 - 240) * 262144 + (z1 - 128) * 4096)
        with (((z0 - 240) * 64 + (z1 - 128)) * 4096) by lia.
      apply Z.mod_mul. lia. }
  apply (lor_low _ _ 6); [lia|change (2 ^ 6) with 64; lia|].
  change (2 ^ 6) with 64.
  replace ((z0 - 240) * 262144 + (z1 - 128) * 4096 + (z2 - 128) * 64)
    with (((z0 - 240) * 4096 + (z1 - 128) * 64 + (z2 - 128)) * 64) by lia.
  apply Z.mod_mul. lia.
Qed.

Lemma lead_spec (z sz lo hi : Z) :
  lead z = Some (sz, lo, hi) ->
  (sz = 2 /\ 194 <= z < 224 /\ lo = 128 /\ hi = 191) \/
  (sz = 3 /\ 224 <= z < 240 /\ lo = (if z =? 224 then 160 else 128)
   /\ hi = (if z =? 237 then 159 else 191)) \/
  (sz = 4 /\ 240 <= z < 245 /\ lo = (if z =? 240 then 144 else 128)
   /\ hi = (if z =? 244 then 143 else 191)).
Proof.
  unfold lead.
  repeat break_if; intros H; try discriminate; injection H as <- <- <-;
    to_props; repeat break_if; to_props; lia.
Qed.

Ltac lead_cases Hl :=
  destruct Hl as [Hl|[Hl|Hl]]; destruct Hl as (? & ? & ? & ?); subst;
  repeat match goal with
         | H : context [if ?b then _ else _] |- _ => destruct b eqn:?
         end;
  to_props; try lia.

(** A rune is read from a well-formed sequence, or it is the error of
    width one. *)
Lemma decode_shape (c0 : ascii) (t0 : string) (r : Z) (n : nat) :
  decode (String c0 t0) = (r, n) ->
  (r = utf8.RuneError /\ n = 1%nat /\ 128 <= utf8.byteZ c0) \/
  exists e t, String c0 t0 = (e ++ t)%string /\ encodes e r /\ n = String.length e.
Proof.
  intros H. unfold decode in H. cbv zeta in H.
  destruct (Z.ltb_spec (utf8.byteZ c0) 128) as [Hlt|Hge].
  { injection H as <- <-. right. exists (String c0 ""), t0.
    split; [reflexivity|]. split; [now constructor|reflexivity]. }
  destruct (lead (utf8.byteZ c0)) as [[[sz lo] hi]|] eqn:Hl;
    [|injection H as <- <-; now left].
  apply lead_spec in Hl.
  destruct t0 as [|c1 t1]; [injection H as <- <-; now left|].
  destruct ((utf8.byteZ c1 <? lo) || (hi <? utf8.byteZ c1)) eqn:H1;
    [injection H as <- <-; now left|].
  apply orb_false_iff in H1 as [H1a H1b]. apply Z.ltb_ge in H1a, H1b.
  destruct (Z.leb_spec sz 2) as [Hsz|Hsz].
  { assert (H0 : 194 <= utf8.byteZ c0 < 224 /\ 128 <= utf8.byteZ c1 < 192)
      by (lead_cases Hl).
    destruct H0 as [H0 H1].
    rewrite rune2_value in H by lia. injection H as <- <-.
    right. exists (String c0 (String c1 "")), t1.
    split; [reflexivity|]. split; [now constructor|reflexivity]. }
  destruct t1 as [|c2 t2]; [injection H as <- <-; now left|].
  destruct ((utf8.byteZ c2 <? utf8.locb) || (utf8.hicb <? utf8.byteZ c2)) eqn:H2;
    [injection H as <- <-; now left|].
  apply orb_false_iff in H2 as [H2a H2b]. apply Z.ltb_ge in H2a, H2b.
  unfold utf8.locb, utf8.hicb in *.
  destruct (Z.leb_spec sz 3) as [Hsz3|Hsz3].
  { assert (H0 : 224 <= utf8.byteZ c0 < 240) by (lead_cases Hl).
    assert (H1 : 128 <= utf8.byteZ c1 < 192) by (lead_cases Hl).
    rewrite rune3_value in H by lia. injection H as <- <-.
    right. exists (String c0 (String c1 (String c2 ""))), t2.
    split; [reflexivity|]. split; [|reflexivity].
    constructor; try lia; intros E; lead_cases Hl. }
  destruct t2 as [|c3 t3]; [injection H as <- <-; now left|].
  destruct ((utf8.byteZ c3 <? 128) || (191 <? utf8.byteZ c3)) eqn:H3;
    [injection H as <- <-; now left|].
  apply orb_false_iff in H3 as [H3a H3b]. apply Z.ltb_ge in H3a, H3b.
  assert (H0 : 240 <= utf8.byteZ c0 < 245) by (lead_cases Hl).
  assert (H1 : 128 <= utf8.byteZ c1 < 192) by (lead_cases Hl).
  rewrite rune4_value in H by lia. injection H as <- <-.
  right. exists (String c0 (String c1 (String c2 (String c3 "")))), t3.
  split; [reflexivity|]. split; [|reflexivity].
  constructor; try lia; intros E; lead_cases Hl.
Qed.

(** A rune that is not an error is read from a well-formed sequence. *)
Lemma decode_encodes (s : string) (r : Z) (n : nat) :
  decode s = (r, n) -> r <> utf8.RuneError ->
  exists e t, s = (e ++ t)%string /\ encodes e r /\ n = String.length e.
Proof.
  intros H Hr. destruct s as [|c0 t0]; [injection H as <- _; contradiction|].
  destruct (decode_shape c0 t0 r n H) as [(Hr' & _)|He]; [contradiction|exact He].
Qed.

Lemma lead_2 (z : Z) : 194 <= z < 224 -> lead z = Some (2, 128, 191).
Proof. intros H. unfold lead. repeat break_if; to_props; try lia; reflexivity. Qed.

Lemma lead_3 (z : Z) :
  224 <= z < 240 ->
  lead z = Some (3, if z =? 224 then 160 else 128,
                    if z =? 237 then 159 else 191).
Proof. intros H. unfold lead. repeat break_if; to_props; try lia; reflexivity. Qed.

Lemma lead_4 (z : Z) :
  240 <= z < 245 ->
  lead z = Some (4, if z =? 240 then 144 else 128,
                    if z =? 244 then 143 else 191).
Proof. intros H. unfold lead. repeat break_if; to_props; try lia; reflexivity. Qed.

Ltac in_range :=
  match goal with
  | |- context [(?a <? ?b) || (?c <? ?d)] =>
      replace ((a <? b) || (c <? d)) with false;
      [|symmetry; apply orb_false_iff; split; apply Z.ltb_ge;
        repeat break_if; to_props; lia]
  end.

(** A well-formed sequence is read as its rune, whatever follows. *)
Lemma encodes_decode (e : string) (r : Z) (s : string) :
  encodes e r -> decode (e ++ s) = (r, String.length e).
Proof.
  intros H. destruct H as [c0 H0|c0 c1 H0 H1|c0 c1 c2 H0 H1 Hlo Hhi H2
                           |c0 c1 c2 c3 H0 H1 Hlo Hhi H2 H3];
    cbn [String.append String.length]; unfold decode; cbv zeta.
  - destruct (Z.ltb_spec (utf8.byteZ c0) 128); [reflexivity|lia].
  - destruct (Z.ltb_spec (utf8.byteZ c0) 128); [lia|].
    rewrite lead_2 by lia. in_range.
    change (2 <=? 2) with true. cbv iota. now rewrite rune2_value by lia.
  - destruct (Z.ltb_spec (utf8.byteZ c0) 128); [lia|].
    rewrite lead_3 by lia. in_range.
    change (3 <=? 2) with false. cbv iota.
    unfold utf8.locb, utf8.hicb. in_range.
    change (3 <=? 3) with true. cbv iota. now rewrite rune3_value by lia.
  - destruct (Z.ltb_spec (utf8.byteZ c0) 128); [lia|].
    rewrite lead_4 by lia. in_range.
    change (4 <=? 2) with false. cbv iota.
    unfold utf8.locb, utf8.hicb. in_range.
    change (4 <=? 3) with false. cbv iota. in_range.
    now rewrite rune4_value by lia.
Qed.

Ltac same_byte :=
  match goal with
  | |- String ?a _ = String ?b _ =>
      replace b with a by (apply byteZ_inj; lia); f_equal
  end.

(** A rune has one well-formed sequence. *)
Lemma encodes_inj (e e' : string) (r : Z) :
  encodes e r -> encodes e' r -> e = e'.
Proof.
  intros H H'.
  destruct H; inversion H'; subst;
    first [exfalso; lia | repeat same_byte; reflexivity].
Qed.

Lemma encodes_cons (e : string) (r : Z) :
  encodes e r ->
  exists c e', e = String c e' /\
    ((utf8.byteZ c < 128 /\ e' = ""%string /\ r = utf8.byteZ c) \/
     (128 <= utf8.byteZ c /\
      allBytes (fun x => 128 <=? utf8.byteZ x) (String c e') = true)).
Proof.
  intros H. destruct H; eexists _, _; (split; [reflexivity|]);
    [left; auto|right..]; (split; [lia|]); cbn [allBytes];
    repeat (apply andb_true_iff; split); try reflexivity; apply Z.leb_le; lia.
Qed.

(** ** The runes of well-encoded text *)

Lemma runes_encoded (e : string) (r : Z) (s : string) :
  encodes e r -> regexp.runes (e ++ s) = r :: regexp.runes s.
Proof.
  intros H. pose proof (encodes_decode e r s H) as Hd.
  destruct (encodes_cons e r H) as (c & e' & -> & _).
  cbn [String.append] in *. rewrite runes_cons, Hd. cbn [fst snd].
  f_equal. f_equal.
  change (String c (e' ++ s)) with ((String c e') ++ s)%string.
  apply drop_append.
Qed.

Lemma wellEncoded_split (q : string) :
  q <> ""%string -> wellEncoded q = true ->
  exists e r q',
    q = (e ++ q')%string /\ encodes e r /\ r <> utf8.RuneError /\
    wellEncoded q' = true.
Proof.
  intros Hne H. destruct q as [|c t]; [contradiction|].
  unfold wellEncoded in H. rewrite runes_cons in H.
  destruct (decode (String c t)) as [r n] eqn:Hd. cbn [fst snd forallb] in H.
  apply andb_true_iff in H as [Hr Hrest].
  apply negb_true_iff, Z.eqb_neq in Hr.
  destruct (decode_encodes _ r n Hd Hr) as (e & t' & Hs & He & ->).
  exists e, r, t'. split; [exact Hs|]. split; [exact He|]. split; [exact Hr|].
  rewrite Hs, drop_append in Hrest. exact Hrest.
Qed.

Lemma wellEncoded_ind (P : string -> Prop) :
  P ""%string ->
  (forall e r q',
      encodes e r -> r <> utf8.RuneError -> wellEncoded q' = true ->
      P q' -> P (e ++ q')%string) ->
  forall q, wellEncoded q = true -> P q.
Proof.
  intros Hnil Hstep q.
  remember (String.length q) as n eqn:Hn.
  assert (Hle : (String.length q <= n)%nat) by lia. clear Hn.
  revert q Hle. induction n as [|n IH]; intros q Hle Hq.
  - destruct q; [exact Hnil|cbn [String.length] in Hle; lia].
  - destruct q as [|c t]; [exact Hnil|].
    destruct (wellEncoded_split (String c t)) as (e & r & q' & Hs & He & Hr & Hq');
      [discriminate|exact Hq|].
    rewrite Hs. apply (Hstep e r q' He Hr Hq'). apply IH; [|exact Hq'].
    destruct (encodes_cons e r He) as (c' & e' & -> & _).
    rewrite Hs in Hle. cbn [String.append String.length] in Hle.
    rewrite length_append in Hle. lia.
Qed.

Lemma wellEncoded_cons (e : string) (r : Z) (q : string) :
  encodes e r -> r <> utf8.RuneError -> wellEncoded q = true ->
  wellEncoded (e ++ q) = true.
Proof.
  intros He Hr Hq. unfold wellEncoded in *.
  rewrite (runes_encoded e r q He). cbn [forallb]. rewrite Hq, andb_true_r.
  now apply negb_true_iff, Z.eqb_neq.
Qed.

(** The runes of a well-encoded text are not changed by what follows. *)
Lemma runes_app_encoded (q s : string) :
  wellEncoded q = true ->
  regexp.runes (q ++ s) = regexp.runes q ++ regexp.runes s.
Proof.
  intros Hq. revert s. pattern q. revert q Hq. apply wellEncoded_ind.
  - reflexivity.
  - intros e r q' He _ _ IH s.
    rewrite append_assoc, !(runes_encoded e r _ He), IH. reflexivity.
Qed.

(** A well-encoded text is the only text with its runes. *)
Lemma runes_inj (q s : string) :
  wellEncoded q = true -> regexp.runes s = regexp.runes q -> s = q.
Proof.
  intros Hq. revert s. pattern q. revert q Hq. apply wellEncoded_ind.
  - intros s H. now apply runes_nil_inv.
  - intros e r q' He Hr _ IH s H.
    rewrite (runes_encoded e r _ He) in H.
    destruct s as [|c t]; [discriminate|].
    rewrite runes_cons in H.
    destruct (decode (String c t)) as [r' n] eqn:Hd. cbn [fst snd] in H.
    injection H as -> Hrest.
    destruct (decode_encodes _ r n Hd Hr) as (e2 & t2 & Hs & He2 & ->).
    rewrite Hs, drop_append in Hrest. rewrite Hs.
    rewrite (encodes_inj e2 e r He2 He). f_equal. now apply IH.
Qed.

(** ** Ill-formed bytes and the replacement character *)

Lemma encodes_replacement (e : string) :
  encodes e utf8.RuneError -> e = replacementCharacter.
Proof.
  intros H. apply (encodes_inj e replacementCharacter utf8.RuneError H).
  unfold replacementCharacter.
  change utf8.RuneError
    with ((utf8.byteZ (ascii_of_nat 239) - 224) * 4096
          + (utf8.byteZ (ascii_of_nat 191) - 128) * 64
          + (utf8.byteZ (ascii_of_nat 189) - 128)).
  constructor; cbv; intuition discriminate.
Qed.

(** The first rune of a text reads as U+FFFD when its first byte is
    ill-formed or when the text begins with the replacement character. *)
Lemma error_cases (c : ascii) (t : string) :
  fst (decode (String c t)) = utf8.RuneError ->
  (decode (String c t) = (utf8.RuneError, 1%nat) /\ 128 <= utf8.byteZ c) \/
  exists t', String c t = (replacementCharacter ++ t')%string.
Proof.
  destruct (decode (String c t)) as [r n] eqn:Hd. cbn [fst]. intros ->.
  destruct (decode_shape c t _ n Hd) as [(_ & -> & Hc)|(e & t' & Hs & He & _)].
  - now left.
  - right. exists t'. now rewrite <- (encodes_replacement e He).
Qed.

(** A text is well encoded, or some rune of it reads as U+FFFD after a
    well-encoded beginning. *)
Lemma first_error (q : string) :
  wellEncoded q = true \/
  exists q1 c t,
    q = (q1 ++ String c t)%string /\ wellEncoded q1 = true /\
    fst (decode (String c t)) = utf8.RuneError.
Proof.
  remember (String.length q) as n eqn:Hn.
  assert (Hle : (String.length q <= n)%nat) by lia. clear Hn.
  revert q Hle. induction n as [|n IH]; intros q Hle.
  - destruct q; [now left|cbn [String.length] in Hle; lia].
  - destruct q as [|c t]; [now left|].
    destruct (decode (String c t)) as [r w] eqn:Hd.
    destruct (Z.eq_dec r utf8.RuneError) as [->|Hr].
    + right. exists ""%string, c, t. split; [reflexivity|].
      split; [reflexivity|]. now rewrite Hd.
    + destruct (decode_encodes _ r w Hd Hr) as (e & t' & Hs & He & ->).
      destruct (IH t') as [Hq|(q1 & c' & t'' & -> & Hq1 & Herr)].
      { destruct (encodes_cons e r He) as (c' & e' & -> & _).
        assert (Hl : String.length (String c t)
                     = String.length (String c' e' ++ t')) by now rewrite Hs.
        rewrite length_append in Hl. cbn [String.length] in *. lia. }
      * left. rewrite Hs. now apply (wellEncoded_cons e r).
      * right. exists (e ++ q1)%string, c', t''.
        split; [now rewrite Hs, append_assoc|].
        split; [now apply (wellEncoded_cons e r)|exact Herr].
Qed.

End Utf8Encoding.

Section RuneSplit.

Import Utf8Spec.
Local Open Scope Z_scope.

(** The decoding of a rune reads no byte beyond the rune. *)
Lemma decode_prefix (c0 : ascii) (t1 t2 : string) :
  (snd (decode (String c0 (t1 ++ t2))) <= S (String.length t1))%nat ->
  decode (String c0 t1) = decode (String c0 (t1 ++ t2)).
Proof.
  unfold decode. cbv zeta.
  destruct (Z.ltb_spec (utf8.byteZ c0) 128) as [|Hge]; [reflexivity|].
  destruct (lead (utf8.byteZ c0)) as [[[sz lo] hi]|] eqn:Hl; [|reflexivity].
  destruct t1 as [|a1 t1]; cbn [String.append String.length].
  { destruct t2 as [|b1 t2]; [reflexivity|].
    destruct ((utf8.byteZ b1 <? lo) || (hi <? utf8.byteZ b1)); [reflexivity|].
    destruct (sz <=? 2); [cbn [snd]; lia|].
    destruct t2 as [|b2 t2]; [reflexivity|].
    destruct ((utf8.byteZ b2 <? utf8.locb) || (utf8.hicb <? utf8.byteZ b2));
      [reflexivity|].
    destruct (sz <=? 3); [cbn [snd]; lia|].
    destruct t2 as [|b3 t2]; [reflexivity|].
    destruct ((utf8.byteZ b3 <? utf8.locb) || (utf8.hicb <? utf8.byteZ b3));
      [reflexivity|cbn [snd]; lia]. }
  destruct ((utf8.byteZ a1 <? lo) || (hi <? utf8.byteZ a1)); [reflexivity|].
  destruct (sz <=? 2); [reflexivity|].
  destruct t1 as [|a2 t1]; cbn [String.append String.length].
  { destruct t2 as [|b2 t2]; [reflexivity|].
    destruct ((utf8.byteZ b2 <? utf8.locb) || (utf8.hicb <? utf8.byteZ b2));
      [reflexivity|].
    destruct (sz <=? 3); [cbn [snd]; lia|].
    destruct t2 as [|b3 t2]; [reflexivity|].
    destruct ((utf8.byteZ b3 <? utf8.locb) || (utf8.hicb <? utf8.byteZ b3));
      [reflexivity|cbn [snd]; lia]. }
  destruct ((utf8.byteZ a2 <? utf8.locb) || (utf8.hicb <? utf8.byteZ a2));
    [reflexivity|].
  destruct (sz <=? 3); [reflexivity|].
  destruct t1 as [|a3 t1]; cbn [String.append String.length].
  { destruct t2 as [|b3 t2]; [reflexivity|].
    destruct ((utf8.byteZ b3 <? utf8.locb) || (utf8.hicb <? utf8.byteZ b3));
      [reflexivity|cbn [snd]; lia]. }
  reflexivity.
Qed.

Lemma drop_take_append (n : nat) (t s : string) :
  (n <= String.length t)%nat ->
  strings.drop n (strings.take n t ++ s) = s.
Proof.
  intros H. rewrite <- (length_take n t H) at 1. apply drop_append.
Qed.

(** Where the runes of a text are split, the text can be split. *)
Lemma runes_split_any (w1 : list Z) :
  forall (s : string) (w2 : list Z),
    regexp.runes s = w1 ++ w2 ->
    exists s1 s2,
      s = (s1 ++ s2)%string /\ regexp.runes s1 = w1 /\ regexp.runes s2 = w2.
Proof.
  induction w1 as [|x w1 IH]; intros s w2 H.
  - exists ""%string, s. auto.
  - destruct s as [|c t]; [discriminate|].
    rewrite runes_cons in H.
    pose proof (decode_width c t) as Hw.
    destruct (decode (String c t)) as [r n] eqn:Hd. cbn [fst snd] in *.
    destruct n as [|n]; [lia|]. cbn [strings.drop app] in H.
    injection H as Hx Hrest.
    apply IH in Hrest as (s1 & s2 & Ht & H1 & H2).
    exists (String c (strings.take n t ++ s1)), s2.
    assert (Htake : t = ((strings.take n t ++ s1) ++ s2)%string).
    { rewrite append_assoc, <- Ht. symmetry. apply take_drop. }
    split; [cbn [String.append]; now rewrite <- Htake|].
    split; [|exact H2].
    assert (Hd' : decode (String c (strings.take n t ++ s1)) = (r, S n)).
    { rewrite <- Hd. rewrite Htake at 2. apply decode_prefix.
      rewrite <- Htake, Hd. cbn [snd]. rewrite length_append, length_take; lia. }
    rewrite runes_cons, Hd'. cbn [fst snd strings.drop].
    rewrite drop_take_append by lia. now rewrite H1, Hx.
Qed.

(** The first rune of a text, when it is an ASCII character, is its first
    byte. *)
Lemma firstRune_ascii (L : string) (x : Z) (w : list Z) :
  regexp.runes L = x :: w -> x < 128 ->
  exists c t, L = String c t /\ utf8.byteZ c = x.
Proof.
  intros H Hx. destruct L as [|c t]; [discriminate|].
  exists c, t. split; [reflexivity|].
  rewrite runes_cons in H.
  destruct (Z.ltb_spec (utf8.byteZ c) 128) as [Hc|Hc].
  - rewrite decode_ascii in H by assumption. cbn [fst] in H. now injection H.
  - pose proof (decode_multi_ge c t Hc) as Hge.
    destruct (decode (String c t)) as [r n]. cbn [fst] in *.
    injection H as H _. lia.
Qed.

(** The runes of two texts follow each other in their concatenation when
    the first text ends with an ASCII byte. *)
Lemma runes_app_after (s1 s2 : string) (c : ascii) :
  lastByte s1 = Some c -> utf8.byteZ c < 128 ->
  regexp.runes (s1 ++ s2) = regexp.runes s1 ++ regexp.runes s2.
Proof.
  intros Hl Hc. apply lastByte_split in Hl as (a & ->).
  rewrite append_assoc. cbn [String.append].
  rewrite !runes_app_boundary by assumption.
  rewrite !runes_cons_ascii by assumption.
  rewrite runes_nil, <- app_assoc. reflexivity.
Qed.

End RuneSplit.

(** ** Parsing the expression of a literal rule *)

Lemma allBytes_app (f : ascii -> bool) (s t : string) :
  allBytes f (s ++ t) = allBytes f s && allBytes f t.
Proof.
  induction s as [|x s IH]; [reflexivity|]. cbn [String.append allBytes].
  now rewrite IH, andb_assoc.
Qed.

Lemma literalByte_plain (c : ascii) :
  literalByte c = true -> (utf8.byteZ c < 128)%Z -> plainByte c = true.
Proof.
  unfold literalByte, plainByte. intros H Hlt.
  apply andb_true_iff in H as [H1 H2].
  now rewrite H1, H2, (proj2 (isAscii_lt c) Hlt).
Qed.

Lemma escapeLiteral_high (e s : string) :
  allBytes (fun x => (128 <=? utf8.byteZ x)%Z) e = true ->
  escapeLiteral (e ++ s) = (e ++ escapeLiteral s)%string.
Proof.
  induction e as [|c e IH]; [reflexivity|]. cbn [allBytes String.append].
  intros H. apply andb_true_iff in H as [Hc He].
  rewrite escapeLiteral_cons, (IH He). unfold escapeByte.
  destruct (Ascii.eqb c ".") eqn:Ed;
    [apply Ascii.eqb_eq in Ed; subst c; discriminate Hc|].
  destruct (Ascii.eqb c "?") eqn:Eq;
    [apply Ascii.eqb_eq in Eq; subst c; discriminate Hc|].
  reflexivity.
Qed.

Lemma nextRune_encoded (e : string) (r : Z) (s : string) :
  Utf8Spec.encodes e r -> r <> utf8.RuneError ->
  nextRune (e ++ s) = Ok (r, s).
Proof.
  intros He Hr. unfold nextRune.
  rewrite decode_eq, (encodes_decode e r s He).
  replace (r =? utf8.RuneError)%Z with false by (symmetry; now apply Z.eqb_neq).
  cbn [andb]. now rewrite drop_append.
Qed.

Lemma parseLoop_high (fuel : nat) (st : stack) (lr : bool) (c : ascii) (t : string) :
  (128 <=? utf8.byteZ c)%Z = true ->
  parseLoop (S fuel) st lr (String c t) =
  bind (nextRune (String c t))
       (fun rt => parseLoop fuel (Node (Literal (fst rt)) :: st) false (snd rt)).
Proof.
  intros H. cbn [parseLoop].
  repeat not_that_byte H.
  destruct (nextRune (String c t)) as [[r t']| |]; reflexivity.
Qed.

Lemma parseLoop_encoded (q : string) :
  wellEncoded q = true -> allBytes literalByte q = true ->
  forall fuel st tail,
    (String.length (escapeLiteral q) + String.length tail < fuel)%nat ->
    exists fuel',
      (String.length tail < fuel')%nat /\
      parseLoop fuel st false (escapeLiteral q ++ tail) =
      parseLoop fuel' (litStack (regexp.runes q) ++ st) false tail.
Proof.
  intros Hq. pattern q. revert q Hq. apply wellEncoded_ind.
  - intros _ fuel st tail Hfuel. exists fuel. split; [exact Hfuel|reflexivity].
  - intros e r q' He Hr Hq' IH Hbytes fuel st tail Hfuel.
    rewrite allBytes_app in Hbytes. apply andb_true_iff in Hbytes as [Hbe Hbq].
    rewrite (runes_encoded e r q' He), litStack_cons.
    destruct (encodes_cons e r He) as (c & e' & -> & [(Hlt & -> & ->)|(Hge & Hhigh)]).
    + cbn [String.append] in *. cbn [allBytes] in Hbe.
      rewrite andb_true_r in Hbe.
      rewrite escapeLiteral_cons in *. rewrite append_assoc.
      rewrite length_append in Hfuel. unfold escapeByte in *.
      destruct (Ascii.eqb c ".") eqn:Ed.
      { apply Ascii.eqb_eq in Ed. subst c. cbn [String.length] in Hfuel.
        destruct fuel as [|fuel]; [lia|].
        cbn [String.append]. rewrite parseLoop_dot.
        apply (IH Hbq); lia. }
      destruct (Ascii.eqb c "?") eqn:Eq.
      { apply Ascii.eqb_eq in Eq. subst c. cbn [String.length] in Hfuel.
        destruct fuel as [|fuel]; [lia|].
        cbn [String.append]. rewrite parseLoop_quest.
        apply (IH Hbq); lia. }
      cbn [String.length] in Hfuel.
      destruct fuel as [|fuel]; [lia|].
      cbn [String.append]. rewrite parseLoop_plain.
      * apply (IH Hbq); lia.
      * rewrite (literalByte_plain c Hbe Hlt). cbn [strings.contains_byte].
        now rewrite Ed, Eq.
    + rewrite (escapeLiteral_high _ _ Hhigh) in *.
      rewrite append_assoc. rewrite length_append in Hfuel.
      cbn [String.length] in Hfuel.
      destruct fuel as [|fuel]; [lia|].
      cbn [allBytes] in Hhigh. apply andb_true_iff in Hhigh as [Hc _].
      cbn [String.append]. rewrite (parseLoop_high _ _ _ _ _ Hc).
      change (String c (e' ++ escapeLiteral q' ++ tail))
        with ((String c e') ++ (escapeLiteral q' ++ tail))%string.
      rewrite (nextRune_encoded _ r _ He Hr). cbn [bind fst snd].
      apply (IH Hbq); lia.
Qed.

Lemma Compile_literal (q : string) (anchored directory : bool) :
  wellEncoded q = true -> allBytes literalByte q = true ->
  regexp.Compile (prefixText anchored ++ escapeLiteral q ++ suffixText directory) =
  Ok (collapseConcat
        (BeginText :: prefixGroup anchored :: map Literal (regexp.runes q)
           ++ [suffixGroup directory; EndText])).
Proof.
  intros Hq Hb. unfold regexp.Compile, syntax.Parse.
  rewrite !length_append.
  set (m := String.length (prefixText anchored)).
  set (n := String.length (suffixText directory)).
  set (e := String.length (escapeLiteral q)).
  assert (Hm : (m = if anchored then 5 else 7)%nat)
    by (subst m; now destruct anchored).
  assert (Hn : (n = if directory then 6 else 7)%nat)
    by (subst n; now destruct directory).
  replace (m + (e + n) + 1)%nat
    with (7 + (m + e + n - 6))%nat by (destruct anchored, directory; lia).
  rewrite parseLoop_prefix.
  destruct (parseLoop_encoded q Hq Hb
              (if anchored then 2 + (m + e + n - 6) else m + e + n - 6)%nat
              [Node (prefixGroup anchored); Node BeginText]
              (suffixText directory))
    as (fuel' & Hf & ->).
  { fold e n. destruct anchored, directory; lia. }
  fold n in Hf.
  replace fuel' with (7 + (fuel' - 7))%nat by (destruct directory; lia).
  rewrite parseLoop_suffix.
  destruct directory.
  - apply parseLoop_close.
  - replace (fuel' - 7)%nat with (S (fuel' - 8)) by lia. apply parseLoop_close.
Qed.

(** ** A rule with an ill-formed byte *)

Lemma prefix_cons (c : ascii) (old' : string) (x : ascii) (s : string) :
  String.prefix (String c old') (String x s) =
  Ascii.eqb x c && String.prefix old' s.
Proof.
  cbn [String.prefix]. destruct (ascii_dec c x) as [->|Hne].
  - now rewrite Ascii.eqb_refl.
  - destruct (Ascii.eqb x c) eqn:E; [|reflexivity].
    apply Ascii.eqb_eq in E. congruence.
Qed.

Lemma holdsReplacement_app (q1 t : string) :
  holdsReplacement (q1 ++ replacementCharacter ++ t) = true.
Proof.
  induction q1 as [|c q1 IH].
  - cbn [String.append]. unfold replacementCharacter.
    cbn [String.append holdsReplacement]. unfold replacementCharacter.
    rewrite !prefix_cons, !Ascii.eqb_refl. now destruct t.
  - cbn [String.append holdsReplacement]. rewrite IH. apply orb_true_r.
Qed.

Lemma escapeLiteral_app (s t : string) :
  escapeLiteral (s ++ t) = (escapeLiteral s ++ escapeLiteral t)%string.
Proof. unfold escapeLiteral. now rewrite !substByte_app. Qed.

(** The bytes of a text that continue its first rune, if any, are not
    ASCII. *)
Lemma high_prefix (t : string) :
  exists a rest,
    t = (a ++ rest)%string /\
    allBytes (fun x => (128 <=? utf8.byteZ x)%Z) a = true /\
    match rest with
    | EmptyString => True
    | String c' _ => (utf8.byteZ c' < 128)%Z
    end.
Proof.
  induction t as [|c t (a & rest & -> & Ha & Hrest)].
  - now exists ""%string, ""%string.
  - destruct (Z.leb_spec 128 (utf8.byteZ c)) as [Hc|Hc].
    + exists (String c a), rest. split; [reflexivity|]. split; [|exact Hrest].
      cbn [allBytes]. rewrite Ha, andb_true_r. now apply Z.leb_le.
    + now exists ""%string, (String c (a ++ rest)).
Qed.

(** What [Parse] writes around an ill-formed byte leaves it ill-formed. *)
Lemma decode_error_stable (c : ascii) (t : string) (x : ascii) (X : string) :
  (utf8.byteZ x < 128)%Z ->
  Utf8Spec.decode (String c (escapeLiteral t ++ String x X)) =
  Utf8Spec.decode (String c t).
Proof.
  intros Hx. destruct (high_prefix t) as (a & rest & -> & Ha & Hrest).
  rewrite (escapeLiteral_high a rest Ha), append_assoc.
  destruct rest as [|c' s].
  - cbn [escapeLiteral substByte String.append]. rewrite append_nil_r.
    now apply decode_boundary.
  - rewrite (decode_boundary c a c' s Hrest).
    rewrite escapeLiteral_cons, append_assoc. unfold escapeByte.
    destruct (Ascii.eqb c' "."); [|destruct (Ascii.eqb c' "?")];
      cbn [String.append]; apply decode_boundary;
      try exact Hrest; vm_compute; reflexivity.
Qed.

Lemma Compile_illformed (q : string) (anchored directory : bool) :
  allBytes literalByte q = true ->
  wellEncoded q = false -> holdsReplacement q = false ->
  regexp.Compile (prefixText anchored ++ escapeLiteral q ++ suffixText directory) =
  Error ErrInvalidUTF8.
Proof.
  intros Hb Hq Hrep.
  destruct (first_error q) as [H|(q1 & c & t & -> & Hq1 & Herr)]; [congruence|].
  destruct (error_cases c t Herr) as [[Hd Hc]|(t' & Ht)];
    [|rewrite Ht, holdsReplacement_app in Hrep; discriminate].
  rewrite allBytes_app in Hb. apply andb_true_iff in Hb as [Hb1 _].
  assert (Hhigh : (128 <=? utf8.byteZ c)%Z = true) by now apply Z.leb_le.
  rewrite escapeLiteral_app.
  replace (escapeLiteral (String c t)) with (String c (escapeLiteral t))
    by (symmetry; apply (escapeLiteral_high (String c "") t);
        cbn [allBytes]; now rewrite Hhigh).
  rewrite append_assoc. cbn [String.append].
  unfold regexp.Compile, syntax.Parse.
  rewrite !length_append. cbn [String.length].
  set (tail := (escapeLiteral t ++ suffixText directory)%string).
  set (m := String.length (prefixText anchored)).
  set (e := String.length (escapeLiteral q1)).
  assert (Hm : (m = if anchored then 5 else 7)%nat)
    by (subst m; now destruct anchored).
  replace (m + (e + S (String.length tail)) + 1)%nat
    with (7 + (m + e + String.length tail - 5))%nat
    by (destruct anchored; lia).
  rewrite parseLoop_prefix.
  destruct (parseLoop_encoded q1 Hq1 Hb1
              (if anchored then 2 + (m + e + String.length tail - 5)
               else m + e + String.length tail - 5)%nat
              [Node (prefixGroup anchored); Node BeginText]
              (String c tail))
    as (fuel' & Hf & ->).
  { fold e. cbn [String.length]. destruct anchored; lia. }
  destruct fuel' as [|fuel']; [cbn [String.length] in Hf; lia|].
  rewrite (parseLoop_high _ _ _ _ _ Hhigh).
  unfold nextRune. rewrite decode_eq. subst tail.
  assert (Hs : exists X, suffixText directory = String "(" X)
    by (destruct directory; eexists; reflexivity).
  destruct Hs as (X & ->).
  rewrite (decode_error_stable c t "(" X) by (vm_compute; reflexivity).
  rewrite Hd. reflexivity.
Qed.

(** ** [assemble] on a line that is kept as it is *)

(** The check [^([#!])] tells whether the line begins with a mark. *)
Lemma marks_MatchString (L : string) :
  regexp.MatchString (regexp.MustCompile "^([#!])") L = true <->
  exists c t, L = String c t /\ strings.contains_byte "#!" c = true.
Proof.
  rewrite re_marks, MatchString_Found. split.
  - intros (before & w & rest & Hr & Hm).
    apply Matches_Concat in Hm as (w1 & w2 & -> & H1 & H2).
    apply Matches_Begin in H1 as [Hb ->]. destruct before; [|discriminate].
    apply Matches_Capture, Matches_Class in H2 as (x & -> & Hx).
    cbn [app] in Hr.
    unfold regexp.inClass, regexp.inRange in Hx. cbn [xorb existsb fst snd] in Hx.
    rewrite orb_false_r in Hx.
    assert (Hcases : x = 35%Z \/ x = 33%Z).
    { apply orb_true_iff in Hx as [Hx|Hx]; apply andb_true_iff in Hx as [H1 H2];
        apply Z.leb_le in H1, H2; lia. }
    destruct (firstRune_ascii L x rest Hr) as (c & t & -> & Hc); [lia|].
    exists c, t. split; [reflexivity|].
    destruct Hcases as [->| ->].
    + change 35%Z with (utf8.byteZ "#") in Hc. apply byteZ_inj in Hc. now subst c.
    + change 33%Z with (utf8.byteZ "!") in Hc. apply byteZ_inj in Hc. now subst c.
  - intros (c & t & -> & Hc).
    assert (Hlt : (utf8.byteZ c < 128)%Z).
    { cbn [strings.contains_byte] in Hc. rewrite orb_false_r in Hc.
      apply orb_true_iff in Hc as [Hc|Hc]; apply Ascii.eqb_eq in Hc; subst c;
        vm_compute; reflexivity. }
    exists [], [utf8.byteZ c], (regexp.runes t).
    split; [now rewrite runes_cons_ascii|].
    apply Matches_Concat. exists [], [utf8.byteZ c].
    split; [reflexivity|]. split; [now apply Matches_Begin|].
    apply Matches_Capture, Matches_Class. exists (utf8.byteZ c).
    split; [reflexivity|].
    cbn [strings.contains_byte] in Hc. rewrite orb_false_r in Hc.
    apply orb_true_iff in Hc as [Hc|Hc]; apply Ascii.eqb_eq in Hc; subst c;
      reflexivity.
Qed.

Lemma unmark_other (L : string) :
  match firstByte L with
  | Some c => strings.contains_byte "#!" c
  | None => false
  end = false ->
  unmark L = L.
Proof.
  intros H. unfold unmark.
  destruct (regexp.MatchString _ L) eqn:Hm; [exfalso|reflexivity].
  apply marks_MatchString in Hm as (c & t & -> & Hc).
  cbn [firstByte] in H. congruence.
Qed.

(** The check of the folder rule needs a star. *)
Lemma anchor_no_star (L : string) :
  strings.contains_byte L "*" = false -> anchor L = L.
Proof.
  intros Hs. unfold anchor.
  destruct (regexp.MatchString _ L) eqn:Hm; [exfalso|reflexivity].
  rewrite re_folder in Hm. apply MatchString_Found in Hm.
  destruct Hm as (before & w & rest & Hr & Hm).
  apply Matches_Concat in Hm as (w1 & w2 & -> & _ & Hm).
  apply Matches_Concat in Hm as (w3 & w4 & -> & _ & Hm).
  apply Matches_Concat in Hm as (w5 & w6 & -> & _ & Hm).
  apply Matches_Concat in Hm as (w7 & w8 & -> & Hm & _).
  apply Matches_Literal in Hm. subst w7.
  apply (byteFree_runes "*" L) in Hs; [|vm_compute; reflexivity].
  rewrite Forall_forall in Hs. apply (Hs 42%Z); [|reflexivity].
  rewrite Hr, !in_app_iff. simpl. tauto.
Qed.

Lemma translate_no_star (X : string) :
  strings.contains_byte X "*" = false ->
  strings.contains_byte X "$" = false ->
  translate X = escapeLiteral X.
Proof.
  intros Hstar Hdollar. unfold translate. cbv zeta.
  rewrite (ReplaceAllString_literal "\." "." _ _ eq_refl).
  rewrite !ReplaceAll_substByte.
  assert (Hs : strings.contains_byte (substByte "." "\." X) "*" = false)
    by (apply contains_byte_substByte; [exact Hstar|reflexivity]).
  replace (strings.HasPrefix (substByte "." "\." X) "/**/") with false.
  2:{ symmetry. unfold strings.HasPrefix.
      destruct (String.prefix "/**/" _) eqn:E; [|reflexivity].
      rewrite (prefix_contains _ _ "*" E eq_refl) in Hs. discriminate. }
  cbv iota.
  rewrite (ReplaceAllString_literal "/\*\*/" "/**/" _ _ eq_refl).
  rewrite (ReplaceAll_absent _ "/**/" _ "*" eq_refl Hs).
  rewrite (ReplaceAllString_literal "\*\*/" "**/" _ _ eq_refl).
  rewrite (ReplaceAll_absent _ "**/" _ "*" eq_refl Hs).
  rewrite (ReplaceAllString_literal "/\*\*" "/**" _ _ eq_refl).
  rewrite (ReplaceAll_absent _ "/**" _ "*" eq_refl Hs).
  rewrite (ReplaceAllString_literal "\\\*" "\*" _ _ eq_refl).
  rewrite (ReplaceAll_absent _ "\*" _ "*" eq_refl Hs).
  rewrite (ReplaceAllString_literal "\*" "*" _ _ eq_refl).
  rewrite (ReplaceAll_absent _ "*" _ "*" eq_refl Hs).
  fold (escapeLiteral X).
  apply (ReplaceAll_absent _ magicStar _ "$" eq_refl).
  unfold escapeLiteral.
  apply contains_byte_substByte; [apply contains_byte_substByte|];
    [exact Hdollar|reflexivity|reflexivity].
Qed.

Lemma lastByte_escapeLiteral (p : string) :
  lastByte (escapeLiteral p) = lastByte p.
Proof. unfold escapeLiteral. now rewrite !lastByte_substByte. Qed.

Lemma escapeLiteral_body (p : string) :
  escapeLiteral p =
  ((if beginsWithSlash p then "/" else "") ++ escapeLiteral (ruleBody p))%string.
Proof.
  unfold ruleBody, beginsWithSlash.
  destruct p as [|c p']; [reflexivity|]. cbn [firstByte].
  destruct (Ascii.eqb c "/") eqn:E; [|reflexivity].
  apply Ascii.eqb_eq in E. subst c.
  rewrite escapeLiteral_cons. now destruct p'.
Qed.

Lemma escapeLiteral_prefix (p s : string) :
  p <> ""%string ->
  strings.HasPrefix (escapeLiteral p ++ s) "/" = beginsWithSlash p.
Proof.
  intros Hne. destruct p as [|a p']; [contradiction|].
  rewrite HasPrefix_byte, firstByte_app, escapeLiteral_cons, firstByte_app.
  unfold escapeByte, beginsWithSlash. cbn [firstByte].
  destruct (Ascii.eqb a ".") eqn:Ed;
    [apply Ascii.eqb_eq in Ed; now subst a|].
  destruct (Ascii.eqb a "?") eqn:Eq;
    [apply Ascii.eqb_eq in Eq; now subst a|].
  cbn [firstByte]. apply Ascii.eqb_sym.
Qed.

Lemma wrap_escapeLiteral (p : string) :
  p <> ""%string ->
  wrap (escapeLiteral p) =
  (prefixText (beginsWithSlash p) ++ escapeLiteral (ruleBody p)
     ++ suffixText (endsWithSlash p))%string.
Proof.
  intros Hne. unfold wrap. cbv zeta.
  assert (He : strings.HasSuffix (escapeLiteral p) "/" = endsWithSlash p).
  { rewrite HasSuffix_byte, lastByte_escapeLiteral. unfold endsWithSlash.
    destruct (lastByte p); [apply Ascii.eqb_sym|reflexivity]. }
  rewrite He.
  replace (if endsWithSlash p
           then (escapeLiteral p ++ "(|.*)$")%string
           else (escapeLiteral p ++ "(|/.*)$")%string)
    with (escapeLiteral p ++ suffixText (endsWithSlash p))%string
    by now destruct (endsWithSlash p).
  rewrite (escapeLiteral_prefix p _ Hne).
  destruct (beginsWithSlash p) eqn:Hb; cbn [prefixText].
  - rewrite escapeLiteral_body, Hb. reflexivity.
  - unfold ruleBody. now rewrite Hb.
Qed.

(** ** The rule set of a literal rule *)

Section Literal.

Variable p : string.
Hypothesis Hrule : literalPattern p = true.

Lemma pattern_parts :
  allBytes literalByte p = true /\ holdsReplacement p = false /\
  exists a z,
    firstByte p = Some a /\ lastByte p = Some z /\
    strings.contains_byte "#! " a = false /\
    Ascii.eqb z " " = false /\ Ascii.eqb z bufio.CR = false.
Proof.
  unfold literalPattern in Hrule.
  apply andb_true_iff in Hrule as [H Hends]. apply andb_true_iff in H as [Hb He].
  apply negb_true_iff in He.
  split; [exact Hb|]. split; [exact He|].
  destruct (firstByte p) as [a|]; [|discriminate].
  destruct (lastByte p) as [z|]; [|discriminate].
  apply andb_true_iff in Hends as [H H3]. apply andb_true_iff in H as [H1 H2].
  apply negb_true_iff in H1, H2, H3. now exists a, z.
Qed.

Lemma pattern_nonempty : p <> ""%string.
Proof.
  destruct pattern_parts as (_ & _ & a & z & Ha & _). intros ->. discriminate.
Qed.

Lemma pattern_absent (d : ascii) :
  literalByte d = false -> strings.contains_byte p d = false.
Proof.
  destruct pattern_parts as (Hb & _). now apply (allBytes_absent literalByte).
Qed.

Lemma pattern_assemble :
  assemble p =
  Some (false,
        (prefixText (beginsWithSlash p) ++ escapeLiteral (ruleBody p)
           ++ suffixText (endsWithSlash p))%string).
Proof.
  destruct pattern_parts as (Hb & _ & a & z & Ha & Hz & Hfirst & Hzsp & Hcr).
  rewrite assemble_steps. cbv zeta.
  cbn [strings.contains_byte] in Hfirst.
  apply orb_false_iff in Hfirst as [Hhash Hfirst].
  apply orb_false_iff in Hfirst as [Hbang Hfirst].
  apply orb_false_iff in Hfirst as [Hsp _].
  rewrite (TrimRight_id p _ z Hz)
    by (cbn [strings.contains_byte]; now rewrite Hcr).
  rewrite HasPrefix_byte, Ha, (Ascii.eqb_sym "#" a), Hhash.
  unfold strings.Trim.
  rewrite (TrimLeft_id p _ a Ha)
    by (cbn [strings.contains_byte]; now rewrite Hsp).
  rewrite (TrimRight_id p _ z Hz)
    by (cbn [strings.contains_byte]; now rewrite Hzsp).
  replace (String.eqb p "") with false
    by (symmetry; apply String.eqb_neq; apply pattern_nonempty).
  rewrite HasPrefix_byte, Ha, (Ascii.eqb_sym "!" a), Hbang.
  rewrite unmark_other
    by (rewrite Ha; cbn [strings.contains_byte]; now rewrite Hhash, Hbang).
  rewrite (anchor_no_star p (pattern_absent "*" eq_refl)).
  rewrite (translate_no_star p (pattern_absent "*" eq_refl)
             (pattern_absent "$" eq_refl)).
  now rewrite (wrap_escapeLiteral p pattern_nonempty).
Qed.

Lemma pattern_body :
  allBytes literalByte (ruleBody p) = true /\
  holdsReplacement (ruleBody p) = false /\
  wellEncoded (ruleBody p) = wellEncoded p.
Proof.
  destruct pattern_parts as (Hb & He & _). unfold ruleBody.
  destruct (beginsWithSlash p) eqn:E; [|now repeat split].
  destruct p as [|c p']; [discriminate|].
  unfold beginsWithSlash in E. cbn [firstByte] in E.
  apply Ascii.eqb_eq in E. subst c.
  cbn [allBytes] in Hb. apply andb_true_iff in Hb as [_ Hb].
  cbn [holdsReplacement] in He. apply orb_false_iff in He as [_ He].
  replace (strings.drop 1 (String "/" p')) with p' by now destruct p'.
  split; [exact Hb|]. split; [exact He|].
  unfold wellEncoded.
  now rewrite (runes_cons_ascii "/" p') by (vm_compute; reflexivity).
Qed.

Lemma pattern_Scan :
  bufio.Scan p =
  if (bufio.MaxScanTokenSize <=? Z.of_nat (String.length p))%Z
  then ([], Some bufio.ErrTooLong) else ([p], None).
Proof.
  destruct pattern_parts as (_ & _ & a & z & _ & Hz & _ & _ & Hcr).
  unfold bufio.Scan.
  rewrite (rawLines_one p pattern_nonempty (pattern_absent bufio.LF eq_refl)).
  cbn [bufio.scanLines].
  unfold bufio.dropCR. rewrite HasSuffix_byte, Hz.
  now rewrite (Ascii.eqb_sym bufio.CR z), Hcr.
Qed.

(** The rule set of a literal rule: none when the line is too long for
    the scanner or holds an ill-formed byte. *)
Lemma pattern_NewFromLines :
  NewFromLines [p] =
  if (bufio.MaxScanTokenSize <=? Z.of_nat (String.length p))%Z
  then Fails (Wrapped (ErrScanningFile bufio.ErrTooLong))
  else if wellEncoded p
  then Returns (mkFile [mkPattern (literalExpr p) false])
  else Fails (ErrRegexCompile
                (ErrInvalidRegex
                   (prefixText (beginsWithSlash p) ++ escapeLiteral (ruleBody p)
                      ++ suffixText (endsWithSlash p))
                   1 ErrInvalidUTF8)).
Proof.
  unfold NewFromLines, xstrings.JoinWithSeparator. cbn [strings.Join].
  unfold pattern.Parse. rewrite pattern_Scan.
  destruct (bufio.MaxScanTokenSize <=? _)%Z; [reflexivity|].
  cbn [parseLines]. rewrite pattern_assemble.
  destruct pattern_body as (Hb & Hrep & He). rewrite <- He.
  destruct (wellEncoded (ruleBody p)) eqn:Hq.
  - rewrite (Compile_literal _ _ _ Hq Hb). reflexivity.
  - rewrite (Compile_illformed _ _ _ Hb Hq Hrep). reflexivity.
Qed.

End Literal.

Lemma above_last (anchored : bool) (before : string) :
  above anchored before = true ->
  before = ""%string \/ lastByte before = Some "/"%char.
Proof.
  destruct anchored; cbn [above].
  - unfold atRoot. intros H. apply orb_true_iff in H as [H|H];
      apply String.eqb_eq in H; subst; [now left|now right].
  - unfold segmentEnd. destruct before as [|c s]; [now left|]. right.
    destruct (lastByte (String c s)) as [z|]; [|discriminate].
    apply andb_true_iff in H as [H _]. apply Ascii.eqb_eq in H. now subst z.
Qed.

(** The paths that the expression of a literal rule accepts. *)
Lemma literalExpr_accepts (p path : string) :
  wellEncoded (ruleBody p) = true ->
  regexp.MatchString (literalExpr p) path = true <-> holdsRule p path.
Proof.
  intros Hq. rewrite MatchString_Found. unfold literalExpr, holdsRule.
  rewrite (Found_literal_rule
             (prefixGroup (beginsWithSlash p)) (suffixGroup (endsWithSlash p))
             (prefixWords (beginsWithSlash p)) (suffixWords (endsWithSlash p))
             (regexp.runes (ruleBody p))
             (Matches_prefixGroup _) (Matches_suffixGroup _)).
  split.
  - intros (u & v & Hr & Hu & Hv).
    apply runes_split_any in Hr as (s1 & s2 & -> & H1 & H2).
    apply runes_split_any in H2 as (s3 & s4 & -> & H3 & H4).
    apply (runes_inj _ _ Hq) in H3. subst s3 u v.
    exists s1, s4. split; [reflexivity|].
    split; [now apply above_runes|now apply below_runes].
  - intros (before & after & -> & Hb & Ha).
    exists (regexp.runes before), (regexp.runes after).
    split; [|split; [now apply above_runes|now apply below_runes]].
    rewrite <- (runes_app_encoded _ after Hq).
    destruct (above_last _ _ Hb) as [->|Hl]; [reflexivity|].
    apply (runes_app_after _ _ "/" Hl). vm_compute. reflexivity.
Qed.

Lemma literalPattern_compiles (p : string) :
  literalPattern p = true -> wellEncoded p = true ->
  (Z.of_nat (String.length p) < bufio.MaxScanTokenSize)%Z ->
  NewFromLines [p] = Returns (mkFile [mkPattern (literalExpr p) false]).
Proof.
  intros Hp He Hlen. rewrite (pattern_NewFromLines p Hp), He.
  destruct (Z.leb_spec bufio.MaxScanTokenSize (Z.of_nat (String.length p)));
    [lia|reflexivity].
Qed.

Lemma literalPattern_illformed (p : string) (f : File) :
  literalPattern p = true -> wellEncoded p = false ->
  NewFromLines [p] <> Returns f.
Proof.
  intros Hp He. rewrite (pattern_NewFromLines p Hp), He.
  now destruct (bufio.MaxScanTokenSize <=? _)%Z.
Qed.

Lemma literalPattern_Match (goos : os.GOOS) (p : string) (f : File) (path : string) :
  literalPattern p = true -> NewFromLines [p] = Returns f ->
  (Match goos f path = true <-> holdsRule p (normalize goos path)).
Proof.
  intros Hp. rewrite (pattern_NewFromLines p Hp).
  destruct (bufio.MaxScanTokenSize <=? _)%Z; [discriminate|].
  destruct (wellEncoded p) eqn:He; [|discriminate].
  intros H. injection H as <-.
  unfold Match. fold (normalize goos path). cbn [patterns matchLoop Regex Negate].
  destruct (pattern_body p Hp) as (_ & _ & Hq). rewrite He in Hq.
  rewrite <- (literalExpr_accepts p _ Hq).
  now destruct (regexp.MatchString (literalExpr p) (normalize goos path)).
Qed.

(** ** What the conditions on a literal rule keep out *)

(** A carriage return at the end of a line is not part of the rule: the
    line [foo] followed by one is the rule [foo]. *)
Example rule_ending_with_carriage_return :
  literalPattern ("foo" ++ String bufio.CR "")%string = false /\
  NewFromLines [("foo" ++ String bufio.CR "")%string] = NewFromLines ["foo"] /\
  verdict os.unix [("foo" ++ String bufio.CR "")%string] "foo" = Some true /\
  verdict os.unix [("foo" ++ String bufio.CR "")%string]
    ("foo" ++ String bufio.CR "")%string = Some false.
Proof. repeat split; vm_compute; reflexivity. Qed.

(** An ill-formed byte of a path reads as the replacement character, so
    the rule made of that character ignores a path that does not hold
    it. *)
Example rule_of_the_replacement_character :
  literalPattern replacementCharacter = false /\
  verdict os.unix [replacementCharacter] strayByte = Some true.
Proof. split; vm_compute; reflexivity. Qed.

(** ** Literal rules *)

(** C1 (amended): the rule set of a literal rule [p] ignores exactly the
    paths that, once normalized, are [before ++ q ++ after], where [q] is
    [p] without its leading slash; [before] is empty or a lone slash when
    [p] begins with a slash, and otherwise empty or text that ends with a
    slash; [after] is any text when [p] ends with a slash, and otherwise
    empty or text that begins with a slash; no line feed occurs in [before]
    or [after].  For a name or relative path [p] these are the paths that
    hold [p] as a run of whole segments, at any depth.  A literal rule is a
    text, ASCII or not, that is not empty, holds no line feed, no star,
    none of the operators [\ + ( ) | [ { ^ $] and not the replacement
    character, begins with none of [#], [!] and the blank and ends with
    neither a blank nor a carriage return.  A literal rule of fewer than
    65536 bytes compiles when it is well-formed UTF-8, and no literal rule
    with an ill-formed byte compiles. *)
Theorem C1_literal_rule_matches_whole_segments (p : string) :
  literalPattern p = true ->
  (wellEncoded p = true ->
   (Z.of_nat (String.length p) < bufio.MaxScanTokenSize)%Z ->
   exists f, NewFromLines [p] = Returns f) /\
  (wellEncoded p = false -> forall f, NewFromLines [p] <> Returns f) /\
  (forall f, NewFromLines [p] = Returns f ->
   forall goos path,
     (Match goos f path = true <-> holdsRule p (normalize goos path)) /\
     (beginsWithSlash p = false -> endsWithSlash p = false ->
      (Match goos f path = true <-> holdsSegments p (normalize goos path)))).
Proof.
  intros Hrule. split; [|split].
  - intros He Hlen. eexists. now apply literalPattern_compiles.
  - intros He f. now apply literalPattern_illformed.
  - intros f Hf goos path.
    pose proof (literalPattern_Match goos p f path Hrule Hf) as H.
    split; [exact H|].
    intros Hb He. now rewrite H, holdsRule_relative.
Qed.

Lemma C1_witness :
  literalPattern cafe = true /\
  exists f, NewFromLines [cafe] = Returns f /\
    (Match os.unix f ("menu/" ++ cafe ++ "/today")%string = true <->
     holdsSegments cafe (normalize os.unix ("menu/" ++ cafe ++ "/today")%string)).
Proof.
  split; [reflexivity|].
  eexists. split; [vm_compute; reflexivity|].
  apply (proj2 (proj2 (C1_literal_rule_matches_whole_segments cafe eq_refl)) _
           ltac:(vm_compute; reflexivity) os.unix
           ("menu/" ++ cafe ++ "/today")%string);
    reflexivity.
Defined.

(** The rule ["foo"] ignores ["a/foo"], which neither is ["foo"] nor
    begins with ["foo/"]. *)
Lemma C1_counterexample :
  ~ (forall f, NewFromLines ["foo"] = Returns f ->
       (Match os.unix f "a/foo" = true <->
        "a/foo" = "foo" \/ strings.HasPrefix "a/foo" ("foo" ++ "/") = true)).
Proof.
  intros H.
  assert (Hf : NewFromLines ["foo"] =
               Returns (mkFile [mkPattern (plainExpr "foo") false]))
    by (vm_compute; reflexivity).
  specialize (H _ Hf).
  assert (Hm : Match os.unix (mkFile [mkPattern (plainExpr "foo") false]) "a/foo"
               = true) by (vm_compute; reflexivity).
  apply H in Hm as [Hm|Hm]; discriminate.
Qed.

(** ** The question mark and the star *)

Lemma Matches_Quest_Literal r b w rest :
  Matches (Quest (Literal r)) b w rest <-> w = [] \/ w = [r].
Proof.
  split.
  - inversion 1; subst; [right|now left].
    now apply (Matches_Literal r b w rest).
  - intros [->| ->]; [apply MQuestNone|apply MQuestOne; constructor].
Qed.

Lemma Found_aQuestC (s : list Z) :
  Found aQuestC s <->
  exists u m v,
    s = u ++ 97%Z :: m ++ 99%Z :: v /\
    endsSegment u /\ (m = [] \/ m = [92%Z]) /\ startsBelow v.
Proof.
  unfold Found, aQuestC. split.
  - intros (before & w & rest & -> & H).
    apply Matches_collapseConcat_cons in H as (w0 & w1 & -> & H0 & H).
    apply Matches_Begin in H0 as [Hb ->]. destruct before; [|discriminate].
    apply Matches_collapseConcat_cons in H as (u & w2 & -> & Hu & H).
    apply Matches_anySegments in Hu.
    apply Matches_collapseConcat_cons in H as (la & w3 & -> & Ha & H).
    apply Matches_Literal in Ha. subst la.
    apply Matches_collapseConcat_cons in H as (m & w4 & -> & Hm & H).
    apply Matches_Quest_Literal in Hm.
    apply Matches_collapseConcat_cons in H as (lc & w5 & -> & Hc & H).
    apply Matches_Literal in Hc. subst lc.
    apply Matches_collapseConcat_cons in H as (v & w6 & -> & Hv & H).
    apply Matches_anyBelow in Hv. cbn [collapseConcat] in H.
    apply Matches_End in H as [-> ->].
    exists u, m, v. simpl. rewrite !app_nil_r. auto.
  - intros (u & m & v & -> & Hu & Hm & Hv).
    exists [], (u ++ 97%Z :: m ++ 99%Z :: v), []. split; [now rewrite app_nil_r|].
    apply Matches_collapseConcat_cons. exists [], (u ++ 97%Z :: m ++ 99%Z :: v).
    split; [reflexivity|]. split; [now apply Matches_Begin|].
    apply Matches_collapseConcat_cons. exists u, (97%Z :: m ++ 99%Z :: v).
    split; [reflexivity|]. split; [now apply Matches_anySegments|].
    apply Matches_collapseConcat_cons. exists [97%Z], (m ++ 99%Z :: v).
    split; [reflexivity|]. split; [now apply Matches_Literal|].
    apply Matches_collapseConcat_cons. exists m, (99%Z :: v).
    split; [reflexivity|]. split; [now apply Matches_Quest_Literal|].
    apply Matches_collapseConcat_cons. exists [99%Z], v.
    split; [reflexivity|]. split; [now apply Matches_Literal|].
    apply Matches_collapseConcat_cons. exists v, []. rewrite app_nil_r.
    split; [reflexivity|]. split; [now apply Matches_anyBelow|].
    cbn [collapseConcat]. now apply Matches_End.
Qed.

(** The paths that the expression of the rule [a\?c] accepts hold [ac] or
    [a\c]. *)
Lemma aQuestC_accepts (path : string) :
  regexp.MatchString aQuestC path = true <->
  holdsSegments "ac" path \/ holdsSegments "a\c" path.
Proof.
  rewrite <- (holdsRule_relative "ac" path eq_refl eq_refl).
  rewrite <- (holdsRule_relative "a\c" path eq_refl eq_refl).
  rewrite <- !literalExpr_accepts by reflexivity.
  rewrite !MatchString_Found, Found_aQuestC. unfold literalExpr.
  change (regexp.runes (ruleBody "ac")) with [97; 99]%Z.
  change (regexp.runes (ruleBody "a\c")) with [97; 92; 99]%Z.
  rewrite !(Found_literal_rule _ _ _ _ _
              (Matches_prefixGroup _) (Matches_suffixGroup _)).
  change (prefixWords (beginsWithSlash "ac")) with endsSegment.
  change (prefixWords (beginsWithSlash "a\c")) with endsSegment.
  change (suffixWords (endsWithSlash "ac")) with startsBelow.
  change (suffixWords (endsWithSlash "a\c")) with startsBelow.
  split.
  - intros (u & m & v & -> & Hu & [->| ->] & Hv); [left|right];
      exists u, v; auto.
  - intros [(u & v & -> & Hu & Hv)|(u & v & -> & Hu & Hv)].
    + exists u, [], v. auto.
    + exists u, [92%Z], v. auto.
Qed.

Lemma NewFromLines_aQuestC :
  NewFromLines ["a\?c"] = Returns (mkFile [mkPattern aQuestC false]).
Proof. vm_compute. reflexivity. Qed.

(** C7 (on the code): [Parse] escapes a question mark by writing a
    backslash before it, also where a backslash stands already.  In the
    rule [a\?c] the two backslashes then read as one literal backslash and
    the question mark as the operator that makes it optional: the rule set
    ignores exactly the paths that hold [ac] or [a\c] as whole segments,
    hence ["ac"], which holds no question mark, and not ["a?c"].  The star
    fares alike after two backslashes: in the rule [a\\*c] it repeats the
    backslash, so that ["ac"] is ignored and ["a\xc"] is not.  Where no
    backslash is involved the question mark stands for itself and the star
    for a run of bytes without slash: the rule [a?c] ignores exactly the
    paths holding [a?c] as whole segments, hence ["a?c"] and neither
    ["abc"] nor ["ac"], and the rule [a*c] ignores exactly the paths
    holding [a], such a run and [c] as whole segments, hence ["abc"] and
    not ["a/c"]. *)
Theorem C7_question_mark_after_backslash (goos : os.GOOS) :
  assemble "a\?c" = Some (false, "^(|.*/)a\\?c(|/.*)$") /\
  (forall path,
      verdict goos ["a\?c"] path = Some true <->
      holdsSegments "ac" (normalize goos path) \/
      holdsSegments "a\c" (normalize goos path)) /\
  verdict goos ["a\?c"] "ac" = Some true /\
  verdict goos ["a\?c"] "a?c" = Some false /\
  verdict os.unix ["a\?c"] "a\c" = Some true /\
  assemble "a\\*c" = Some (false, "^(|.*/)a\\*c(|/.*)$") /\
  verdict goos ["a\\*c"] "ac" = Some true /\
  verdict os.unix ["a\\*c"] "a\xc" = Some false /\
  (forall path,
      verdict goos ["a?c"] path = Some true <->
      holdsSegments "a?c" (normalize goos path)) /\
  verdict goos ["a?c"] "a?c" = Some true /\
  verdict goos ["a?c"] "abc" = Some false /\
  verdict goos ["a?c"] "ac" = Some false /\
  (forall path,
      verdict goos ["a*c"] path = Some true <->
      holdsRunBetween "a" "c" (normalize goos path)) /\
  verdict goos ["a*c"] "abc" = Some true /\
  verdict goos ["a*c"] "a/c" = Some false.
Proof.
  split; [vm_compute; reflexivity|]. split.
  { intros path. unfold verdict. rewrite NewFromLines_aQuestC.
    rewrite <- aQuestC_accepts.
    unfold Match. fold (normalize goos path).
    cbn [patterns matchLoop Regex Negate].
    destruct (regexp.MatchString aQuestC (normalize goos path));
      split; congruence. }
  split; [destruct goos; vm_compute; reflexivity|].
  split; [destruct goos; vm_compute; reflexivity|].
  split; [vm_compute; reflexivity|].
  split; [vm_compute; reflexivity|].
  split; [destruct goos; vm_compute; reflexivity|].
  split; [vm_compute; reflexivity|].
  split.
  { intros path. unfold verdict.
    rewrite (literalRule_compiles "a?c" eq_refl) by (vm_compute; reflexivity).
    rewrite <- (holdsRule_relative "a?c" _ eq_refl eq_refl).
    rewrite <- (literalRule_Match goos "a?c" _ path eq_refl
                  (literalRule_compiles "a?c" eq_refl eq_refl)).
    split; [now intros [= ->]|now intros ->]. }
  split; [destruct goos; vm_compute; reflexivity|].
  split; [destruct goos; vm_compute; reflexivity|].
  split; [destruct goos; vm_compute; reflexivity|].
  split; [|split; destruct goos; vm_compute; reflexivity].
  intros path. unfold verdict. rewrite NewFromLines_aStarC.
  rewrite <- aStarC_accepts.
  unfold Match. fold (normalize goos path).
  cbn [patterns matchLoop Regex Negate].
  destruct (regexp.MatchString aStarC (normalize goos path));
    split; congruence.
Qed.
